(** * fastclaw-relay: the gateway connection and relay protocol

    A shallow embedding of [scripts/relay.mjs]: the frame correlation of
    [GatewayConnection], the reconnect loop of [Relay], the reconciliation of
    streamed deltas with their final event, the normalisation of gateway
    messages and the hash-based suppression of repeated pushes.

    Conventions of the embedding.
    - A JavaScript value that comes out of [JSON.parse] (plus [undefined]) is
      a [JsVal].  Numbers are integers (the program's numbers are millisecond
      timestamps and counters); strings are sequences of code units below 256,
      one [ascii] each.
    - A [Map] is an insertion-ordered association list ([JsMap]).
    - The clock ([nowMs]), the outcome of a remote mutation, the random draw of
      the jitter and the arrival of frames, timers and socket events are
      inputs of the functions that consume them.
    - [randomUUID], the SHA-1 digest and the string-to-number conversion of
      [Number] belong to the platform and are parameters of the development. *)

From Stdlib Require Import ZArith List String Ascii Bool Lia QArith Qround DecimalString.
Import ListNotations.
Local Open Scope string_scope.
Local Open Scope list_scope.
Local Open Scope Z_scope.
Set Warnings "-register-all".

(** ** JavaScript values *)

Inductive JsVal : Type :=
| JUndefined
| JNull
| JBool (b : bool)
| JNum (n : Z)
| JStr (s : string)
| JArr (items : list JsVal)
| JObj (fields : list (string * JsVal)).

(** [Boolean(v)]: what [if (v)], [!v], [&&] and [||] test. *)
Definition truthy (v : JsVal) : bool :=
  match v with
  | JUndefined | JNull => false
  | JBool b => b
  | JNum n => negb (n =? 0)
  | JStr s => negb (s =? "")%string
  | JArr _ | JObj _ => true
  end.

Definition nullish (v : JsVal) : bool :=
  match v with JUndefined | JNull => true | _ => false end.

(** [a ?? b] *)
Definition coalesce (a b : JsVal) : JsVal := if nullish a then b else a.

(** [a || b] *)
Definition or_else (a b : JsVal) : JsVal := if truthy a then a else b.

Fixpoint lookup_field (k : string) (fields : list (string * JsVal)) : JsVal :=
  match fields with
  | [] => JUndefined
  | (k', v) :: rest => if (k' =? k)%string then v else lookup_field k rest
  end.

(** [v?.k].  None of the property names the program reads is defined on the
    prototype of a string, a number, a boolean or an array, so only objects
    answer. *)
Definition prop (v : JsVal) (k : string) : JsVal :=
  match v with
  | JObj fields => lookup_field k fields
  | _ => JUndefined
  end.

(** [v.k], which throws a [TypeError] on [null] and [undefined]. *)
Definition prop_strict (v : JsVal) (k : string) : option JsVal :=
  if nullish v then None else Some (prop v k).

(** [v === "lit"] *)
Definition is_str (v : JsVal) (lit : string) : bool :=
  match v with JStr s => (s =? lit)%string | _ => false end.

(** [v === false] *)
Definition is_false (v : JsVal) : bool :=
  match v with JBool false => true | _ => false end.

(** [typeof v === "string"] *)
Definition typeof_string (v : JsVal) : bool :=
  match v with JStr _ => true | _ => false end.

(** [typeof v === "object"] *)
Definition typeof_object (v : JsVal) : bool :=
  match v with JNull | JArr _ | JObj _ => true | _ => false end.

(** [Array.isArray(v)] *)
Definition isArray (v : JsVal) : bool :=
  match v with JArr _ => true | _ => false end.

Definition string_of_Z (n : Z) : string := NilZero.string_of_int (Z.to_int n).

(** [String(v)], as template literals, [Error] messages and [join] apply it. *)
Fixpoint toString (v : JsVal) : string :=
  match v with
  | JUndefined => "undefined"
  | JNull => "null"
  | JBool true => "true"
  | JBool false => "false"
  | JNum n => string_of_Z n
  | JStr s => s
  | JArr items =>
      (fix commas (l : list JsVal) : string :=
         match l with
         | [] => ""
         | x :: rest =>
             let sx := match x with JUndefined | JNull => "" | _ => toString x end in
             match rest with
             | [] => sx
             | _ :: _ => (sx ++ "," ++ commas rest)%string
             end
         end) items
  | JObj _ => "[object Object]"
  end.

(** An element of an array under [join]: [null] and [undefined] print as the
    empty string. *)
Definition join_item (v : JsVal) : string :=
  match v with JUndefined | JNull => "" | _ => toString v end.

(** [items.join(sep)] *)
Definition join (sep : string) (items : list JsVal) : string :=
  String.concat sep (map join_item items).

(** White space of [String.prototype.trim] among the code units below 256:
    TAB, LF, VT, FF, CR, SP and NBSP. *)
Definition is_space (c : ascii) : bool :=
  let n := nat_of_ascii c in
  ((9 <=? n) && (n <=? 13) || (n =? 32) || (n =? 160))%nat.

Fixpoint trimStart (s : string) : string :=
  match s with
  | EmptyString => EmptyString
  | String c rest => if is_space c then trimStart rest else s
  end.

Fixpoint rev_string (acc s : string) : string :=
  match s with
  | EmptyString => acc
  | String c rest => rev_string (String c acc) rest
  end.

Definition trimEnd (s : string) : string :=
  rev_string "" (trimStart (rev_string "" s)).

(** [s.trim()] *)
Definition trim (s : string) : string := trimEnd (trimStart s).

Definition nonempty (s : string) : bool := negb (s =? "")%string.

(** [s.slice(0, n)] *)
Definition slice0 (n : nat) (s : string) : string := substring 0 n s.

(** ** Maps

    A [Map] keeps its entries in insertion order; [same stored key] is the
    key comparison. *)

Definition JsMap (K V : Type) : Type := list (K * V).

Section JsMapOps.
Context {K V : Type} (same : K -> K -> bool).

Definition map_get (k : K) (m : JsMap K V) : option V :=
  match find (fun e => same (fst e) k) m with
  | Some e => Some (snd e)
  | None => None
  end.

Definition map_has (k : K) (m : JsMap K V) : bool :=
  existsb (fun e => same (fst e) k) m.

Fixpoint map_set (k : K) (v : V) (m : JsMap K V) : JsMap K V :=
  match m with
  | [] => [(k, v)]
  | (k', v') :: rest =>
      if same k' k then (k', v) :: rest else (k', v') :: map_set k v rest
  end.

Definition map_delete (k : K) (m : JsMap K V) : JsMap K V :=
  filter (fun e => negb (same (fst e) k)) m.

Definition map_values (m : JsMap K V) : list V := map snd m.
End JsMapOps.

(** SameValueZero on values that come out of [JSON.parse].  Two frames never
    share an array or an object, so those compare by identity and differ. *)
Definition sameValueZero (a b : JsVal) : bool :=
  match a, b with
  | JUndefined, JUndefined => true
  | JNull, JNull => true
  | JBool x, JBool y => Bool.eqb x y
  | JNum x, JNum y => (x =? y)%Z
  | JStr x, JStr y => (x =? y)%string
  | _, _ => false
  end.

(** [l] with [f] applied at index [n], if there is one. *)
Fixpoint update_nth {A : Type} (n : nat) (f : A -> A) (l : list A) {struct l} : list A :=
  match l, n with
  | [], _ => []
  | x :: rest, O => f x :: rest
  | x :: rest, S n' => x :: update_nth n' f rest
  end.

(** ** Handlers

    A handler returns or throws; either way it may have changed the world
    [W] it acts on. *)

Inductive Completion (W : Type) : Type :=
| Returned (w : W)
| Thrown (w : W) (message : string).
Arguments Returned {W} w.
Arguments Thrown {W} w message.

Definition Handler (W : Type) : Type := JsVal -> W -> Completion W.

(** [for (const handler of this.handlers) handler(frame);] with the handlers
    that were called, in the order of the calls. *)
Fixpoint dispatch {W : Type} (body : nat -> Handler W) (hs : list nat)
    (frame : JsVal) (w : W) : list nat * Completion W :=
  match hs with
  | [] => ([], Returned w)
  | h :: rest =>
      match body h frame w with
      | Returned w' =>
          let (called, result) := dispatch body rest frame w' in
          (h :: called, result)
      | Thrown w' message => ([h], Thrown w' message)
      end
  end.

(** Discharges the hypotheses of [H] one after the other by evaluation. *)
Ltac discharge H :=
  repeat match type of H with
         | ?A -> _ =>
             let Ha := fresh "Ha" in
             assert (Ha : A)
               by (vm_compute; first [reflexivity | discriminate]);
             specialize (H Ha); clear Ha
         end.

(** * The platform *)

(** A platform for the examples: consecutive identifiers, a digest that keeps
    its input, and no string that converts to a number. *)
Definition sample_uuid (n : nat) : string := ("uuid-" ++ string_of_Z (Z.of_nat n))%string.
Definition sample_digest (s : string) : string := s.
Definition sample_number (s : string) : option Z := None.
Definition sample_platform : string := "linux".

Section Relay.

(** [randomUUID ()], by the number of draws made so far. *)
Variable randomUUID : nat -> string.

(** [createHash("sha1").update(s).digest("hex")] *)
Variable sha1_hex : string -> string.

(** [Number(s)] on a string, when the result is finite. *)
Variable StringToNumber : string -> option Z.

(** [process.platform] *)
Variable process_platform : string.

(** [Number(v)], [None] standing for [NaN] and the infinities. *)
Definition Number_ (v : JsVal) : option Z :=
  match v with
  | JUndefined => None
  | JNull => Some 0
  | JBool b => Some (if b then 1 else 0)
  | JNum n => Some n
  | JStr s => StringToNumber s
  | JArr _ | JObj _ => StringToNumber (toString v)
  end.

(** [toNumber(value, fallback)] *)
Definition toNumber (value : JsVal) (fallback : Z) : Z :=
  match Number_ value with
  | Some n => n
  | None => fallback
  end.

(** * GatewayConnection *)

Inductive ReadyState : Type := CONNECTING | OPEN | CLOSING | CLOSED.

(** How a promise was settled; an [Error] is its message. *)
Inductive Settlement : Type :=
| Fulfilled (value : JsVal)
| Rejected (message : string).

(** Who awaits the promise of a [request]: its caller, or [sendConnect]. *)
Inductive Awaiter : Type := Caller | SendConnect.

(** What one call of [request] creates: the promise it returns and the timer
    of its deadline, with the [id] and [method] their callbacks close over. *)
Record Call : Type := mkCall {
  call_id : string;
  call_method : string;
  call_timeout : Z;
  call_awaiter : Awaiter;
  call_promise : option Settlement;
  call_timer : bool
}.

Record GatewayConnection : Type := mkConn {
  token : JsVal;
  ws : option ReadyState;
  pending : JsMap string nat;
  handlers : list nat;
  connected : bool;
  closed : bool;
  serverVersion : JsVal;
  (* the objects of the closures of [request] and [open] *)
  calls : list Call;
  draws : nat;
  sent : list JsVal;
  settled : bool;
  opened : option Settlement;
  connectTimeout : bool;
  fallbackTimer : bool;
  closeWaiter : bool
}.

(** [new GatewayConnection(config)] *)
Definition newConnection (gatewayToken : JsVal) (entropy : nat) : GatewayConnection :=
  {| token := gatewayToken; ws := None; pending := []; handlers := [];
     connected := false; closed := false; serverVersion := JUndefined;
     calls := []; draws := entropy; sent := [];
     settled := false; opened := None;
     connectTimeout := false; fallbackTimer := false; closeWaiter := false |}.

Definition set_ws (x : option ReadyState) (c : GatewayConnection) :=
  mkConn (token c) x (pending c) (handlers c) (connected c) (closed c)
    (serverVersion c) (calls c) (draws c) (sent c) (settled c) (opened c)
    (connectTimeout c) (fallbackTimer c) (closeWaiter c).

Definition set_pending (x : JsMap string nat) (c : GatewayConnection) :=
  mkConn (token c) (ws c) x (handlers c) (connected c) (closed c)
    (serverVersion c) (calls c) (draws c) (sent c) (settled c) (opened c)
    (connectTimeout c) (fallbackTimer c) (closeWaiter c).

Definition set_handlers (x : list nat) (c : GatewayConnection) :=
  mkConn (token c) (ws c) (pending c) x (connected c) (closed c)
    (serverVersion c) (calls c) (draws c) (sent c) (settled c) (opened c)
    (connectTimeout c) (fallbackTimer c) (closeWaiter c).

Definition set_connected (x : bool) (c : GatewayConnection) :=
  mkConn (token c) (ws c) (pending c) (handlers c) x (closed c)
    (serverVersion c) (calls c) (draws c) (sent c) (settled c) (opened c)
    (connectTimeout c) (fallbackTimer c) (closeWaiter c).

Definition set_closed (x : bool) (c : GatewayConnection) :=
  mkConn (token c) (ws c) (pending c) (handlers c) (connected c) x
    (serverVersion c) (calls c) (draws c) (sent c) (settled c) (opened c)
    (connectTimeout c) (fallbackTimer c) (closeWaiter c).

Definition set_serverVersion (x : JsVal) (c : GatewayConnection) :=
  mkConn (token c) (ws c) (pending c) (handlers c) (connected c) (closed c)
    x (calls c) (draws c) (sent c) (settled c) (opened c)
    (connectTimeout c) (fallbackTimer c) (closeWaiter c).

Definition set_calls (x : list Call) (c : GatewayConnection) :=
  mkConn (token c) (ws c) (pending c) (handlers c) (connected c) (closed c)
    (serverVersion c) x (draws c) (sent c) (settled c) (opened c)
    (connectTimeout c) (fallbackTimer c) (closeWaiter c).

Definition set_draws (x : nat) (c : GatewayConnection) :=
  mkConn (token c) (ws c) (pending c) (handlers c) (connected c) (closed c)
    (serverVersion c) (calls c) x (sent c) (settled c) (opened c)
    (connectTimeout c) (fallbackTimer c) (closeWaiter c).

Definition set_sent (x : list JsVal) (c : GatewayConnection) :=
  mkConn (token c) (ws c) (pending c) (handlers c) (connected c) (closed c)
    (serverVersion c) (calls c) (draws c) x (settled c) (opened c)
    (connectTimeout c) (fallbackTimer c) (closeWaiter c).

Definition set_handshake (s : bool) (o : option Settlement) (t f : bool)
    (c : GatewayConnection) :=
  mkConn (token c) (ws c) (pending c) (handlers c) (connected c) (closed c)
    (serverVersion c) (calls c) (draws c) (sent c) s o t f (closeWaiter c).

Definition set_closeWaiter (x : bool) (c : GatewayConnection) :=
  mkConn (token c) (ws c) (pending c) (handlers c) (connected c) (closed c)
    (serverVersion c) (calls c) (draws c) (sent c) (settled c) (opened c)
    (connectTimeout c) (fallbackTimer c) x.

(** [settle(fn, value)] in [open]: the first call decides the promise that
    [open] awaits and clears both handshake timers. *)
Definition settle (outcome : Settlement) (c : GatewayConnection) : GatewayConnection :=
  if settled c then c else set_handshake true (Some outcome) false false c.

(** The rest of [sendConnect] after [await this.request("connect", ...)]. *)
Definition afterConnect (s : Settlement) (c : GatewayConnection) : GatewayConnection :=
  match s with
  | Fulfilled response =>
      let ty := coalesce (prop response "type") (prop response "event") in
      if negb (is_str ty "hello-ok") then
        settle (Rejected ("Unexpected connect response type: "
                          ++ toString (coalesce ty (JStr "unknown")))%string) c
      else
        let version := coalesce (prop (prop response "server") "version") (JStr "unknown") in
        settle (Fulfilled JUndefined) (set_connected true (set_serverVersion version c))
  | Rejected err => settle (Rejected err) c
  end.

Definition with_promise (s : Settlement) (k : Call) : Call :=
  mkCall (call_id k) (call_method k) (call_timeout k) (call_awaiter k) (Some s) (call_timer k).

Definition with_timer (armed : bool) (k : Call) : Call :=
  mkCall (call_id k) (call_method k) (call_timeout k) (call_awaiter k) (call_promise k) armed.

Definition with_awaiter (a : Awaiter) (k : Call) : Call :=
  mkCall (call_id k) (call_method k) (call_timeout k) a (call_promise k) (call_timer k).

(** [resolve(value)] and [reject(error)] of the promise of call [n]: only the
    first settles it, and then whoever awaits it goes on. *)
Definition settlePromise (n : nat) (s : Settlement) (c : GatewayConnection) : GatewayConnection :=
  match nth_error (calls c) n with
  | Some k =>
      match call_promise k with
      | Some _ => c
      | None =>
          let c' := set_calls (update_nth n (with_promise s) (calls c)) c in
          match call_awaiter k with
          | SendConnect => afterConnect s c'
          | Caller => c'
          end
      end
  | None => c
  end.

(** [clearTimeout(p.timer)] *)
Definition clearTimeout (n : nat) (c : GatewayConnection) : GatewayConnection :=
  set_calls (update_nth n (with_timer false) (calls c)) c.

(** [request(method, payload, timeoutMs)]; the result is the new state and the
    promise returned, named by the index of its call. *)
Definition request (method : string) (payload : JsVal) (timeoutMs : Z)
    (c : GatewayConnection) : GatewayConnection * nat :=
  let n := List.length (calls c) in
  match ws c with
  | Some OPEN =>
      let id := randomUUID (draws c) in
      let frame := JObj [("type", JStr "req"); ("id", JStr id);
                         ("method", JStr method); ("params", payload)] in
      let k := mkCall id method timeoutMs Caller None true in
      (set_sent (sent c ++ [frame])
         (set_pending (map_set String.eqb id n (pending c))
            (set_calls (calls c ++ [k]) (set_draws (S (draws c)) c))), n)
  | _ =>
      let k := mkCall "" method timeoutMs Caller
                 (Some (Rejected "Gateway socket is not open")) false in
      (set_calls (calls c ++ [k]) c, n)
  end.

Definition defaultTimeoutMs : Z := 10000.

(** The callback of the timer of call [n]. *)
Definition onTimeout (n : nat) (c : GatewayConnection) : GatewayConnection :=
  match nth_error (calls c) n with
  | Some k =>
      if call_timer k then
        let c1 := clearTimeout n c in
        let c2 := set_pending (map_delete String.eqb (call_id k) (pending c1)) c1 in
        settlePromise n (Rejected ("Gateway RPC timeout for " ++ call_method k)%string) c2
      else c
  | None => c
  end.

Definition connectPayload (tok : JsVal) : JsVal :=
  JObj [("minProtocol", JNum 3); ("maxProtocol", JNum 3);
        ("client", JObj [("id", JStr "gateway-client");
                         ("displayName", JStr "FastClaw Relay");
                         ("version", JStr "1.0.0");
                         ("platform", JStr process_platform);
                         ("mode", JStr "backend")]);
        ("role", JStr "operator");
        ("scopes", JArr [JStr "operator.read"; JStr "operator.write"]);
        ("caps", JArr []);
        ("auth", JObj [("token", tok)])].

(** [sendConnect(challenge)] up to its [await], and beyond it when the promise
    is settled already. *)
Definition sendConnect (c : GatewayConnection) : GatewayConnection :=
  let (c1, n) := request "connect" (connectPayload (token c)) 12000 c in
  let c2 := set_calls (update_nth n (with_awaiter SendConnect) (calls c1)) c1 in
  match nth_error (calls c2) n with
  | Some k =>
      match call_promise k with
      | Some s => afterConnect s c2
      | None => c2
      end
  | None => c2
  end.

(** Where the message listener sent a frame. *)
Inductive Routed : Type :=
| Discarded
| Correlated (n : nat)
| Challenge
| ToHandlers (hs : list nat) (frame : JsVal).

(** [this.pending.get(id)]: the keys are strings, and only a string is the
    same value as one of them. *)
Definition pendingFor (id : JsVal) (c : GatewayConnection) : option nat :=
  match id with
  | JStr s => map_get String.eqb s (pending c)
  | _ => None
  end.

(** [this.pending.delete(id)] *)
Definition pendingDelete (id : JsVal) (c : GatewayConnection) : GatewayConnection :=
  match id with
  | JStr s => set_pending (map_delete String.eqb s (pending c)) c
  | _ => c
  end.

(** The listener [this.ws.on("message", ...)] of [open], on the result of
    [parseJson] ([JNull] when the text does not parse). *)
Definition onMessage (frame : JsVal) (c : GatewayConnection) : GatewayConnection * Routed :=
  if negb (truthy frame) then (c, Discarded) else
  let id := prop frame "id" in
  match (if truthy id then pendingFor id c else None) with
  | Some n =>
      let c1 := clearTimeout n c in
      let c2 := pendingDelete id c1 in
      if is_false (prop frame "ok") then
        let message := coalesce (prop (prop frame "error") "message") (JStr "Gateway RPC error") in
        (settlePromise n (Rejected (toString message)) c2, Correlated n)
      else
        let value := coalesce (coalesce (prop frame "payload") (prop frame "result")) frame in
        (settlePromise n (Fulfilled value) c2, Correlated n)
  | None =>
      if is_str (prop frame "type") "connect.challenge"
         || is_str (prop frame "event") "connect.challenge"
      then (sendConnect c, Challenge)
      else (c, ToHandlers (handlers c) frame)
  end.

(** [onFrame(handler)]: a [Set] keeps one copy of a handler, in the order of
    insertion. *)
Definition onFrame (h : nat) (c : GatewayConnection) : GatewayConnection :=
  if existsb (Nat.eqb h) (handlers c) then c
  else set_handlers (handlers c ++ [h]) c.

(** The function that [onFrame] returns. *)
Definition offFrame (h : nat) (c : GatewayConnection) : GatewayConnection :=
  set_handlers (filter (fun h' => negb (Nat.eqb h' h)) (handlers c)) c.

(** [open()] up to [await connected]. *)
Definition open (c : GatewayConnection) : GatewayConnection :=
  set_handshake false None true false (set_ws (Some CONNECTING) (set_closed false c)).

(** The socket's ["open"] event. *)
Definition onOpen (c : GatewayConnection) : GatewayConnection :=
  set_handshake (settled c) (opened c) (connectTimeout c) true
    (set_ws (option_map (fun _ => OPEN) (ws c)) c).

(** The 200 ms timer set by the ["open"] listener. *)
Definition onFallback (c : GatewayConnection) : GatewayConnection :=
  if fallbackTimer c then
    sendConnect (set_handshake (settled c) (opened c) (connectTimeout c) false c)
  else c.

(** The 15 s timer of [open]. *)
Definition onConnectTimeout (c : GatewayConnection) : GatewayConnection :=
  if connectTimeout c then
    settle (Rejected "Gateway connect timeout")
      (set_handshake (settled c) (opened c) false (fallbackTimer c) c)
  else c.

(** The socket's ["error"] event: the listener of [open], then the one of
    [waitForClose]. *)
Definition onError (message : string) (c : GatewayConnection) : GatewayConnection :=
  let c1 := settle (Rejected message) c in
  if closeWaiter c1 then set_connected false c1 else c1.

(** The socket's ["close"] event: the listener of [open], then the one of
    [waitForClose]. *)
Definition onClose (c : GatewayConnection) : GatewayConnection :=
  let c1 := if connected c then c else settle (Rejected "Gateway closed before connect") c in
  let c2 := set_ws (option_map (fun _ => CLOSED) (ws c1)) c1 in
  if closeWaiter c2 then set_connected false c2 else c2.

(** [waitForClose()] *)
Definition waitForClose (c : GatewayConnection) : GatewayConnection :=
  match ws c with
  | None => c
  | Some _ => set_closeWaiter true c
  end.

(** One turn of the loop of [close]: [clearTimeout(p.timer)] and
    [p.reject(new Error("Gateway connection closing"))]. *)
Definition rejectClosing (c : GatewayConnection) (n : nat) : GatewayConnection :=
  settlePromise n (Rejected "Gateway connection closing") (clearTimeout n c).

(** [close()] up to its [await]. *)
Definition close (c : GatewayConnection) : GatewayConnection :=
  if closed c then c else
  let c1 := set_connected false (set_closed true c) in
  let c2 := fold_left rejectClosing (map_values (pending c1)) c1 in
  let c3 := set_pending [] c2 in
  match ws c3 with
  | None => c3
  | Some _ => set_ws None c3
  end.

(** What can happen to a connection. *)
Inductive ConnEvent : Type :=
| EvOpen
| EvRequest (method : string) (payload : JsVal) (timeoutMs : Z)
| EvMessage (frame : JsVal)
| EvTimeout (n : nat)
| EvOnFrame (h : nat)
| EvOffFrame (h : nat)
| EvSocketOpen
| EvFallback
| EvConnectTimeout
| EvSocketError (message : string)
| EvSocketClose
| EvWaitForClose
| EvClose.

Definition conn_step (c : GatewayConnection) (e : ConnEvent) : GatewayConnection :=
  match e with
  | EvOpen => open c
  | EvRequest method payload timeoutMs => fst (request method payload timeoutMs c)
  | EvMessage frame => fst (onMessage frame c)
  | EvTimeout n => onTimeout n c
  | EvOnFrame h => onFrame h c
  | EvOffFrame h => offFrame h c
  | EvSocketOpen => onOpen c
  | EvFallback => onFallback c
  | EvConnectTimeout => onConnectTimeout c
  | EvSocketError message => onError message c
  | EvSocketClose => onClose c
  | EvWaitForClose => waitForClose c
  | EvClose => close c
  end.

Definition conn_run (c : GatewayConnection) (es : list ConnEvent) : GatewayConnection :=
  fold_left conn_step es c.

(** The promise of call [n]. *)
Definition promise (n : nat) (c : GatewayConnection) : option Settlement :=
  match nth_error (calls c) n with
  | Some k => call_promise k
  | None => None
  end.

(** Whether the timer of call [n] is still to fire. *)
Definition timerArmed (n : nat) (c : GatewayConnection) : bool :=
  match nth_error (calls c) n with
  | Some k => call_timer k
  | None => false
  end.

(** The [id] and the [method] of call [n]. *)
Definition callInfo (n : nat) (c : GatewayConnection) : option (string * string) :=
  match nth_error (calls c) n with
  | Some k => Some (call_id k, call_method k)
  | None => None
  end.

(** Every entry of [pending] belongs to a call with that [id] whose promise is
    unsettled and whose timer is still to fire; a closed connection has no
    entry and no socket. *)
Definition conn_inv (c : GatewayConnection) : Prop :=
  (forall id n, In (id, n) (pending c) ->
     (exists method, callInfo n c = Some (id, method)) /\
     promise n c = None /\ timerArmed n c = true) /\
  (closed c = true -> pending c = [] /\ ws c = None).

(** [c'] differs from [c] in neither the calls, nor the entries, nor the
    socket. *)
Definition same_core (c c' : GatewayConnection) : Prop :=
  calls c' = calls c /\ pending c' = pending c /\ closed c' = closed c /\
  ws c' = ws c /\ draws c' = draws c.

(** Opens the three views of a call. *)
Ltac observers := unfold promise, timerArmed, callInfo in *.

(** * Normalisation of gateway messages *)

Definition newline : string := String (ascii_of_nat 10) EmptyString.

(** What [extractGatewayMessages] returns for one message. *)
Record GatewayMessage : Type := mkGatewayMessage {
  sessionKey : JsVal;
  role : string;
  content : string;
  timestamp : Z
}.

(** The arguments of the mutation ["messages:pushFromGateway"]. *)
Record PushFromGateway : Type := mkPush {
  push_instanceId : string;
  push_sessionKey : JsVal;
  push_role : string;
  push_content : string;
  push_timestamp : Z
}.

(** The callback of [map] in [extractGatewayMessages]; [None] is its [null],
    which [filter(Boolean)] drops. *)
Definition extractGatewayMessage (now : Z) (m : JsVal) : option GatewayMessage :=
  let sk := coalesce (coalesce (prop m "sessionKey") (prop m "session_id")) (prop m "session") in
  let body := if typeof_string (prop m "content") then prop m "content"
              else if typeof_string (prop m "text") then prop m "text"
              else JNull in
  if negb (truthy sk) || negb (truthy body) then None else
  let r := if is_str (prop m "role") "assistant" || is_str (prop m "role") "system"
              || is_str (prop m "role") "user"
           then toString (prop m "role") else "assistant" in
  let ts := toNumber (coalesce (coalesce (prop m "timestamp") (prop m "ts")) (prop m "createdAt")) now in
  Some (mkGatewayMessage sk r (toString body) ts).

Fixpoint filterSome {A : Type} (l : list (option A)) : list A :=
  match l with
  | [] => []
  | Some x :: rest => x :: filterSome rest
  | None :: rest => filterSome rest
  end.

(** [extractGatewayMessages(frame)], the clock reading [now]. *)
Definition extractGatewayMessages (now : Z) (frame : JsVal) : list GatewayMessage :=
  let payload := prop frame "payload" in
  let fromList := match prop payload "messages" with JArr items => items | _ => [] end in
  let fromMessage := if truthy (prop payload "message") && typeof_object (prop payload "message")
                     then [prop payload "message"] else [] in
  let fromPayload := if truthy payload && truthy (prop payload "sessionKey")
                        && truthy (prop payload "content")
                     then [payload] else [] in
  filterSome (map (extractGatewayMessage now) (fromList ++ fromMessage ++ fromPayload)).

(** The text of a structured content, as [pushChatEvent] and
    [syncHistoryForSessions] take it. *)
Definition contentText (c : JsVal) : string :=
  match c with
  | JStr s => s
  | JArr parts =>
      join newline
        (map (fun part => prop part "text")
           (filter (fun part => is_str (prop part "type") "text"
                                && typeof_string (prop part "text")) parts))
  | _ => ""
  end.

(** [msg.role === "user" ? "user" : msg.role === "assistant" ? "assistant" : "system"] *)
Definition coerceRole (r : JsVal) : string :=
  if is_str r "user" then "user"
  else if is_str r "assistant" then "assistant"
  else "system".

Definition contentCap : nat := 4000.

(** [pushChatEvent(payload)]: the mutation it sends, if it sends one. *)
Definition pushChatEvent (instance : string) (now : Z) (payload : JsVal)
    : option PushFromGateway :=
  let sk := prop payload "sessionKey" in
  let msg := prop payload "message" in
  if negb (truthy sk) || negb (truthy msg) then None else
  let text := contentText (prop msg "content") in
  if negb (nonempty (trim text)) then None else
  Some (mkPush instance sk (coerceRole (prop msg "role"))
          (slice0 contentCap text) (toNumber (prop msg "timestamp") now)).

(** One turn of the loop over [rawMessages] in [syncHistoryForSessions]:
    [None] when the turn throws, [Some None] when it skips the message. *)
Definition historyMessage (now : Z) (msg : JsVal)
    : option (option (string * string * Z)) :=
  match prop_strict msg "role" with
  | None => None
  | Some r =>
      if is_str r "toolResult" || is_str r "tool" then Some None else
      let text := contentText (prop msg "content") in
      if negb (nonempty (trim text)) then Some None else
      Some (Some (coerceRole r, slice0 contentCap text,
                  toNumber (coalesce (prop msg "timestamp") (prop msg "ts")) now))
  end.

Fixpoint historyLoop (now : Z) (raw : list JsVal) : option (list (string * string * Z)) :=
  match raw with
  | [] => Some []
  | msg :: rest =>
      match historyMessage now msg with
      | None => None
      | Some kept =>
          match historyLoop now rest with
          | None => None
          | Some more => Some (match kept with Some m => m :: more | None => more end)
          end
      end
  end.

(** The body of the loop of [syncHistoryForSessions] for the session [sk]:
    the mutations it sends, given the payload of its ["chat.history"]
    request.  A string iterates by
    characters, none of which has a content; any other value that is not an
    array throws, as a [null] message does, and the [catch] of the session
    leaves nothing sent. *)
Definition syncHistoryForSession (instance : string) (now : Z) (sk : JsVal) (payload : JsVal)
    : list PushFromGateway :=
  if negb (truthy sk) then [] else
  match coalesce (prop payload "messages") (JArr []) with
  | JArr raw =>
      match historyLoop now raw with
      | Some messages =>
          map (fun m => mkPush instance sk (fst (fst m)) (snd (fst m)) (snd m)) messages
      | None => []
      end
  | _ => []
  end.

(** * Relay *)

(** An entry of [pendingDeltas]. *)
Record Delta : Type := mkDelta {
  delta_sessionKey : JsVal;
  delta_text : string;
  delta_timestamp : JsVal
}.

(** Where [start] is suspended. *)
Inductive Phase : Type :=
| NotStarted
| AwaitOpen
| AwaitRunConnected
| AwaitClose (leave : bool)
| AwaitSleep (waitMs : Z)
| Stopped.

Record Relay : Type := mkRelay {
  instanceId : string;
  gatewayToken : JsVal;
  running : bool;
  reconnectAttempt : Z;
  recentGatewayMessageHashes : JsMap string Z;
  pendingDeltas : JsMap JsVal Delta;
  conn : option GatewayConnection;
  (* the activation of [start] *)
  phase : Phase;
  built : nat;
  sleeps : list Z;
  entropy : nat
}.

(** [new Relay(config)] *)
Definition newRelay (instance : string) (tok : JsVal) : Relay :=
  {| instanceId := instance; gatewayToken := tok; running := true;
     reconnectAttempt := 0; recentGatewayMessageHashes := [];
     pendingDeltas := []; conn := None;
     phase := NotStarted; built := 0; sleeps := []; entropy := 0 |}.

Definition set_running (x : bool) (r : Relay) :=
  mkRelay (instanceId r) (gatewayToken r) x (reconnectAttempt r)
    (recentGatewayMessageHashes r) (pendingDeltas r) (conn r)
    (phase r) (built r) (sleeps r) (entropy r).

Definition set_reconnectAttempt (x : Z) (r : Relay) :=
  mkRelay (instanceId r) (gatewayToken r) (running r) x
    (recentGatewayMessageHashes r) (pendingDeltas r) (conn r)
    (phase r) (built r) (sleeps r) (entropy r).

Definition set_hashes (x : JsMap string Z) (r : Relay) :=
  mkRelay (instanceId r) (gatewayToken r) (running r) (reconnectAttempt r)
    x (pendingDeltas r) (conn r) (phase r) (built r) (sleeps r) (entropy r).

Definition set_pendingDeltas (x : JsMap JsVal Delta) (r : Relay) :=
  mkRelay (instanceId r) (gatewayToken r) (running r) (reconnectAttempt r)
    (recentGatewayMessageHashes r) x (conn r) (phase r) (built r) (sleeps r) (entropy r).

Definition set_conn (x : option GatewayConnection) (r : Relay) :=
  mkRelay (instanceId r) (gatewayToken r) (running r) (reconnectAttempt r)
    (recentGatewayMessageHashes r) (pendingDeltas r) x
    (phase r) (built r) (sleeps r) (entropy r).

Definition set_phase (x : Phase) (r : Relay) :=
  mkRelay (instanceId r) (gatewayToken r) (running r) (reconnectAttempt r)
    (recentGatewayMessageHashes r) (pendingDeltas r) (conn r)
    x (built r) (sleeps r) (entropy r).

Definition set_loop (b : nat) (s : list Z) (e : nat) (r : Relay) :=
  mkRelay (instanceId r) (gatewayToken r) (running r) (reconnectAttempt r)
    (recentGatewayMessageHashes r) (pendingDeltas r) (conn r)
    (phase r) b s e.

(** ** The handler of [runConnected] *)

(** What the handler starts without awaiting it. *)
Inductive Action : Type :=
| PushChatEvent (payload : JsVal)
| SyncSessions.

(** The text of the content of a chat event, as the handler takes it. *)
Definition eventText (c : JsVal) : string :=
  match c with
  | JArr parts =>
      join newline
        (map (fun part => prop part "text")
           (filter (fun part => is_str (prop part "type") "text") parts))
  | JStr s => s
  | _ => ""
  end.

(** [text || delta?.text || ""] *)
Definition finalTextOf (text : string) (delta : option Delta) : string :=
  if nonempty text then text
  else match delta with
       | Some d => if nonempty (delta_text d) then delta_text d else ""
       | None => ""
       end.

(** The payload handed to [pushChatEvent] on a final event. *)
Definition finishedMessage (sk : JsVal) (finalText : string) (ts : JsVal) : JsVal :=
  JObj [("sessionKey", sk);
        ("message", JObj [("role", JStr "assistant");
                          ("content", JStr finalText);
                          ("timestamp", ts)])].

(** The part of the handler that serves ["chat"] events. *)
Definition onChat (now : Z) (frame : JsVal) (r : Relay) : Relay * list Action :=
  let p := coalesce (prop frame "payload") frame in
  let runId := prop p "runId" in
  let sk := prop p "sessionKey" in
  if truthy runId && truthy sk then
    if is_str (prop p "state") "delta" && truthy (prop p "message") then
      let text := eventText (prop (prop p "message") "content") in
      if nonempty text then
        let ts := coalesce (prop (prop p "message") "timestamp") (JNum now) in
        (set_pendingDeltas
           (map_set sameValueZero runId (mkDelta sk text ts) (pendingDeltas r)) r, [])
      else (r, [])
    else if is_str (prop p "state") "final" then
      let text := if truthy (prop p "message")
                  then eventText (prop (prop p "message") "content") else "" in
      let delta := map_get sameValueZero runId (pendingDeltas r) in
      let r' := set_pendingDeltas (map_delete sameValueZero runId (pendingDeltas r)) r in
      let finalText := finalTextOf text delta in
      if nonempty (trim finalText) then
        let ts := match delta with
                  | Some d => coalesce (delta_timestamp d) (JNum now)
                  | None => JNum now
                  end in
        (r', [PushChatEvent (finishedMessage sk finalText ts)])
      else (r', [])
    else (r, [])
  else (r, []).

(** The handler [onFrame] that [runConnected] registers, the clock reading
    [now]. *)
Definition runConnected_onFrame (now : Z) (frame : JsVal) (r : Relay)
    : Relay * list Action :=
  let evt := coalesce (prop frame "event") (prop frame "type") in
  let (r1, pushed) := if is_str evt "chat" then onChat now frame r else (r, []) in
  (r1, pushed ++ (if is_str evt "sessions.updated" then [SyncSessions] else [])).

(** The handler fed with a sequence of frames, each with its clock reading. *)
Fixpoint feedFrames (frames : list (Z * JsVal)) (r : Relay) : Relay * list Action :=
  match frames with
  | [] => (r, [])
  | (now, frame) :: rest =>
      let (r1, a1) := runConnected_onFrame now frame r in
      let (r2, a2) := feedFrames rest r1 in
      (r2, a1 ++ a2)
  end.

(** ** Suppression of repeated pushes *)

(** [hashGatewayMessage(msg)] *)
Definition hashGatewayMessage (msg : GatewayMessage) : string :=
  sha1_hex (toString (sessionKey msg) ++ "|" ++ role msg ++ "|" ++ content msg
            ++ "|" ++ string_of_Z (timestamp msg))%string.

Definition retentionMs : Z := 10 * 60 * 1000.

(** [pruneRecentHashes()], the clock reading [now]. *)
Definition pruneRecentHashes (now : Z) (r : Relay) : Relay :=
  let cutoff := now - retentionMs in
  set_hashes (filter (fun e => negb (snd e <? cutoff)) (recentGatewayMessageHashes r)) r.

(** How the remote store answers a mutation: it resolves, and [now] is the
    clock reading that follows, or it throws. *)
Inductive MutationOutcome : Type :=
| Resolves (now : Z)
| Throws (message : string).

Definition pushOf (r : Relay) (msg : GatewayMessage) : PushFromGateway :=
  mkPush (instanceId r) (sessionKey msg) (role msg) (content msg) (timestamp msg).

(** The loop of [pushGatewayMessages]: each message comes with the answer the
    store gives if the mutation is sent.  The result lists the mutations
    sent, each with whether it resolved. *)
Fixpoint pushLoop (batch : list (GatewayMessage * MutationOutcome)) (r : Relay)
    : Relay * list (PushFromGateway * bool) :=
  match batch with
  | [] => (r, [])
  | (msg, answer) :: rest =>
      let hash := hashGatewayMessage msg in
      if map_has String.eqb hash (recentGatewayMessageHashes r) then pushLoop rest r
      else
        match answer with
        | Resolves now =>
            let r1 := set_hashes
                        (map_set String.eqb hash now (recentGatewayMessageHashes r)) r in
            let (r2, sent) := pushLoop rest r1 in
            (r2, (pushOf r msg, true) :: sent)
        | Throws _ =>
            let (r2, sent) := pushLoop rest r in
            (r2, (pushOf r msg, false) :: sent)
        end
  end.

(** [pushGatewayMessages(messages)], the clock reading [now] at its start. *)
Definition pushGatewayMessages (now : Z) (batch : list (GatewayMessage * MutationOutcome))
    (r : Relay) : Relay * list (PushFromGateway * bool) :=
  match batch with
  | [] => (r, [])
  | _ :: _ => pushLoop batch (pruneRecentHashes now r)
  end.

(** The mutations that resolved. *)
Definition delivered (sent : list (PushFromGateway * bool)) : list PushFromGateway :=
  map fst (filter snd sent).

(** [sendToGateway(conn, message)] from the response of its ["chat.send"]
    request on: the response is wrapped in a frame and what
    [extractGatewayMessages] finds in it goes to [pushGatewayMessages];
    [answer] is what the store answers for each message. *)
Definition sendToGateway (now : Z) (response : JsVal)
    (answer : GatewayMessage -> MutationOutcome) (r : Relay)
    : Relay * list (PushFromGateway * bool) :=
  let frame := JObj [("payload", response)] in
  pushGatewayMessages now
    (map (fun m => (m, answer m)) (extractGatewayMessages now frame)) r.

(** ** The reconnect loop *)

(** [Math.min(30000, 1000 * 2 ** Math.min(this.reconnectAttempt, 5))] *)
Definition backoff (attempt : Z) : Z := Z.min 30000 (1000 * 2 ^ Z.min attempt 5).

(** [Math.floor(Math.random() * 500)], the draw being a rational. *)
Definition jitter (random : Q) : Z := Qfloor (random * 500).

(** The top of [while (this.running)]. *)
Definition loopHead (r : Relay) : Relay :=
  if running r then
    let c := open (newConnection (gatewayToken r) (entropy r)) in
    set_phase AwaitOpen (set_loop (S (built r)) (sleeps r) (entropy r) (set_conn (Some c) r))
  else set_phase Stopped r.

(** [start()] *)
Definition start (r : Relay) : Relay :=
  match phase r with
  | NotStarted => loopHead r
  | _ => r
  end.

(** The [finally] block up to [await this.conn.close()]; [leave] tells whether
    a [break] is on its way out of the loop. *)
Definition enterFinally (leave : bool) (r : Relay) : Relay :=
  set_phase (AwaitClose leave) (set_conn (option_map close (conn r)) r).

(** What resumes [start]. *)
Inductive LoopEvent : Type :=
| OpenResolved
| OpenRejected (message : string)
| RunConnectedReturned
| RunConnectedThrew (message : string)
| CloseSettled (random : Q)
| SleepDone.

Definition enabled (p : Phase) (e : LoopEvent) : bool :=
  match p, e with
  | AwaitOpen, (OpenResolved | OpenRejected _) => true
  | AwaitRunConnected, (RunConnectedReturned | RunConnectedThrew _) => true
  | AwaitClose _, CloseSettled _ => true
  | AwaitSleep _, SleepDone => true
  | _, _ => false
  end.

(** [start] resumed by [e].  Of [runConnected] the loop sees the
    registration of its handler, which is handler 0, when it is called and
    the removal when it returns; its requests and its [waitForClose] are
    events of the connection. *)
Definition resume (e : LoopEvent) (r : Relay) : Relay :=
  match phase r, e with
  | AwaitOpen, OpenResolved =>
      set_phase AwaitRunConnected
        (set_conn (option_map (onFrame 0) (conn r)) (set_reconnectAttempt 0 r))
  | AwaitOpen, OpenRejected _ => enterFinally (negb (running r)) r
  | AwaitRunConnected, RunConnectedReturned =>
      enterFinally false (set_conn (option_map (offFrame 0) (conn r)) r)
  | AwaitRunConnected, RunConnectedThrew _ => enterFinally (negb (running r)) r
  | AwaitClose leave, CloseSettled random =>
      let r1 := set_loop (built r) (sleeps r)
                  (match conn r with Some c => draws c | None => entropy r end)
                  (set_conn None r) in
      if leave || negb (running r1) then set_phase Stopped r1
      else
        let r2 := set_reconnectAttempt (reconnectAttempt r1 + 1) r1 in
        let waitMs := backoff (reconnectAttempt r2) + jitter random in
        set_phase (AwaitSleep waitMs) (set_loop (built r2) (sleeps r2 ++ [waitMs]) (entropy r2) r2)
  | AwaitSleep _, SleepDone => loopHead r
  | _, _ => r
  end.

(** [stop()] up to its [await]. *)
Definition stop (r : Relay) : Relay :=
  set_conn (option_map close (conn r)) (set_running false r).

Inductive RelayEvent : Type :=
| Start
| Resume (e : LoopEvent)
| OnConnection (e : ConnEvent)
| Frame (now : Z) (frame : JsVal)
| Stop.

Definition relay_step (r : Relay) (e : RelayEvent) : Relay :=
  match e with
  | Start => start r
  | Resume e => resume e r
  | OnConnection e => set_conn (option_map (fun c => conn_step c e) (conn r)) r
  | Frame now frame => fst (runConnected_onFrame now frame r)
  | Stop => stop r
  end.

Definition relay_run (r : Relay) (es : list RelayEvent) : Relay :=
  fold_left relay_step es r.


(** ** Data for the examples *)

Fixpoint replicate (n : nat) (c : ascii) : string :=
  match n with
  | O => EmptyString
  | S n' => String c (replicate n' c)
  end.

(** A chat event as the gateway broadcasts it. *)
Definition chatEvent (runId sk state : string) (message : JsVal) : JsVal :=
  JObj [("type", JStr "evt"); ("event", JStr "chat");
        ("payload", JObj [("runId", JStr runId); ("sessionKey", JStr sk);
                          ("state", JStr state); ("message", message)])].

Definition textMessage (r text : string) (ts : Z) : JsVal :=
  JObj [("role", JStr r);
        ("content", JArr [JObj [("type", JStr "text"); ("text", JStr text)]]);
        ("timestamp", JNum ts)].

(** A response frame. *)
Definition responseFrame (id : string) (payload : JsVal) : JsVal :=
  JObj [("type", JStr "res"); ("id", JStr id); ("ok", JBool true); ("payload", payload)].

(** A response to ["chat.send"] that carries a message of 4001 code units. *)
Definition longContent : string := replicate 4001 "a"%char.

Definition longResponse : JsVal :=
  JObj [("sessionKey", JStr "agent:main:main"); ("content", JStr longContent)].

(** A history with one message of the assistant under a role that is none of
    the three. *)
Definition modelHistory : JsVal :=
  JObj [("messages", JArr [JObj [("role", JStr "model"); ("content", JStr "Hello")]])].

(** [value] is none of ["user"], ["assistant"] and ["system"]. *)
Definition unrecognized (value : JsVal) : bool :=
  negb (is_str value "user" || is_str value "assistant" || is_str value "system").

Definition recognized (r : string) : Prop :=
  r = "user" \/ r = "assistant" \/ r = "system".

(** The value a response frame resolves its request with. *)
Definition responseValue (frame : JsVal) : JsVal :=
  coalesce (coalesce (prop frame "payload") (prop frame "result")) frame.

(** The connection of a relay, when it has one, satisfies [conn_inv]. *)
Definition relay_inv (r : Relay) : Prop :=
  forall c, conn r = Some c -> conn_inv c.

(** Two handlers for the examples: handler 0 throws, the others record their
    call in the world, a list of handler numbers. *)
Definition sample_handlers (h : nat) : Handler (list nat) :=
  fun _ w => if Nat.eqb h 0 then Thrown w "boom" else Returned (w ++ [h]).

(** Handlers that all record their call and return. *)
Definition quiet_handlers (h : nat) : Handler (list nat) :=
  fun _ w => Returned (w ++ [h]).

(** How many resumptions [start] is from its end once [running] is false. *)
Definition stepsToExit (p : Phase) : nat :=
  match p with
  | Stopped => 0
  | NotStarted | AwaitClose _ | AwaitSleep _ => 1
  | AwaitRunConnected => 2
  | AwaitOpen => 3
  end.

(** ** Further views of a connection *)

(** The frame that [request] sends. *)
Definition reqFrame (id method : string) (params : JsVal) : JsVal :=
  JObj [("type", JStr "req"); ("id", JStr id);
        ("method", JStr method); ("params", params)].

(** What a connection has put on the wire, and the draws it has made. *)
Definition wire (c : GatewayConnection) : list JsVal * nat := (sent c, draws c).

(** The state of the handshake of [open]: whether it is decided, and how. *)
Definition handshake (c : GatewayConnection) : bool * option Settlement :=
  (settled c, opened c).

Definition isOpenEvent (e : ConnEvent) : bool :=
  match e with EvOpen => true | _ => false end.

(** ** Further views of the relay *)

(** [frame] is a final chat event that the handler serves, for the run
    [runId]. *)
Definition closesRun (runId : JsVal) (frame : JsVal) : bool :=
  let p := coalesce (prop frame "payload") frame in
  is_str (coalesce (prop frame "event") (prop frame "type")) "chat"
  && truthy (prop p "runId") && truthy (prop p "sessionKey")
  && is_str (prop p "state") "final"
  && sameValueZero (prop p "runId") runId.

(** Whether the loop over [rawMessages] in [syncHistoryForSessions] keeps a
    message that is neither [null] nor [undefined]. *)
Definition historyKeeps (msg : JsVal) : bool :=
  negb (is_str (prop msg "role") "toolResult" || is_str (prop msg "role") "tool")
  && nonempty (trim (contentText (prop msg "content"))).

(** The mutation the backfill sends for a message it keeps. *)
Definition historyPush (instance : string) (now : Z) (sk : JsVal) (msg : JsVal)
    : PushFromGateway :=
  mkPush instance sk (coerceRole (prop msg "role"))
    (slice0 contentCap (contentText (prop msg "content")))
    (toNumber (coalesce (prop msg "timestamp") (prop msg "ts")) now).

(** The hash [pushGatewayMessages] computes for the message of a mutation. *)
Definition hashOfPush (p : PushFromGateway) : string :=
  hashGatewayMessage
    (mkGatewayMessage (push_sessionKey p) (push_role p) (push_content p) (push_timestamp p)).

(** [Math.random()] returns a number from 0 up to, not including, 1. *)
Definition unitDraw (e : RelayEvent) : Prop :=
  match e with
  | Resume (CloseSettled random) => (0 <= random)%Q /\ (random < 1)%Q
  | _ => True
  end.

(** The events that come while [runConnected] waits: frames for the handler
    and what happens to the connection. *)
Definition whileConnected (e : RelayEvent) : bool :=
  match e with
  | Frame _ _ | OnConnection _ => true
  | _ => false
  end.

Definition sleepBound (w : Z) : Prop := 2000 <= w <= 30499.

(** The phases in which [start] holds no connection. *)
Definition idle (p : Phase) : bool :=
  match p with
  | NotStarted | AwaitSleep _ | Stopped => true
  | _ => false
  end.

(** The attempts are counted from zero, and every sleep of the loop, those
    done and the one in course, lasts from 2 s to 30.499 s. *)
Definition loop_bounds (r : Relay) : Prop :=
  0 <= reconnectAttempt r /\ Forall sleepBound (sleeps r) /\
  (forall w, phase r = AwaitSleep w -> sleepBound w).

(** How the connections built and the sleeps alternate. *)
Definition loop_shape (r : Relay) : Prop :=
  match phase r with
  | NotStarted | AwaitSleep _ =>
      conn r = None /\ built r = List.length (sleeps r)
  | AwaitOpen | AwaitRunConnected | AwaitClose _ =>
      conn r <> None /\ built r = S (List.length (sleeps r))
  | Stopped =>
      conn r = None /\
      (built r = List.length (sleeps r) \/ built r = S (List.length (sleeps r)))
  end.

(** * Sessions *)

(** What [extractSessions] returns for one session, the argument of the
    mutation ["sessions:syncFromGateway"]. *)
Record Session : Type := mkSession {
  session_sessionKey : string;
  session_title : string;
  session_isPinned : bool;
  session_lastMessagePreview : string;
  session_updatedAt : Z;
  session_createdAt : Z
}.

(** [typeof v === "string" && v], when it is truthy. *)
Definition stringAndTruthy (v : JsVal) : option string :=
  match v with
  | JStr s => if nonempty s then Some s else None
  | _ => None
  end.

(** The callback of [map] in [extractSessions], the clock reading [now] when
    it runs; [None] is its [null]. *)
Definition extractSession (now : Z) (session : JsVal) : option Session :=
  match coalesce (coalesce (prop session "sessionKey") (prop session "key"))
          (prop session "id") with
  | JStr sessionKey =>
      if negb (nonempty sessionKey) then None else
      let updatedAt :=
        toNumber (coalesce (coalesce (prop session "updatedAt") (prop session "updated_at"))
                    (prop session "lastMessageAt")) now in
      let createdAt :=
        toNumber (coalesce (prop session "createdAt") (prop session "created_at")) updatedAt in
      let lastMessagePreview :=
        match prop session "lastMessagePreview" with
        | JStr s => s
        | _ =>
            match prop session "preview" with
            | JStr s => s
            | _ =>
                match prop (prop session "lastMessage") "content" with
                | JStr s => s
                | _ => ""
                end
            end
        end in
      let rawTitle :=
        match stringAndTruthy (prop session "label") with
        | Some s => s
        | None =>
            match stringAndTruthy (prop session "displayName") with
            | Some s => s
            | None =>
                match stringAndTruthy (prop session "title") with
                | Some s => s
                | None =>
                    match stringAndTruthy (prop session "name") with
                    | Some s => s
                    | None => sessionKey
                    end
                end
            end
        end in
      let friendlyTitle :=
        if (sessionKey =? "agent:main:main")%string then "Main Chat" else rawTitle in
      Some (mkSession sessionKey friendlyTitle
              (truthy (coalesce (coalesce (prop session "isPinned") (prop session "pinned"))
                         (JBool false)))
              lastMessagePreview updatedAt createdAt)
  | _ => None
  end.

(** [list.map(f)] with the index of each element. *)
Fixpoint mapi {A B : Type} (f : nat -> A -> B) (i : nat) (l : list A) : list B :=
  match l with
  | [] => []
  | x :: rest => f i x :: mapi f (S i) rest
  end.

(** [extractSessions(payload)]; [clock i] is the clock reading when the
    callback runs for the session at index [i]. *)
Definition extractSessions (clock : nat -> Z) (payload : JsVal) : list Session :=
  let list := match payload with
              | JArr items => items
              | _ => match prop payload "sessions" with
                     | JArr items => items
                     | _ => []
                     end
              end in
  filterSome (mapi (fun i session => extractSession (clock i) session) 0 list).

(** [syncSessions(conn)] from the settlement of its ["sessions.list"] request
    on: the arguments of the mutation it sends, if it sends one. *)
Definition syncSessions (clock : nat -> Z) (response : Settlement) (r : Relay)
    : option (string * list Session) :=
  match response with
  | Rejected _ => None
  | Fulfilled payload =>
      match extractSessions clock payload with
      | [] => None
      | sessions => Some (instanceId r, sessions)
      end
  end.

(** * Messages of the app *)

(** [sendToGateway(conn, message)] up to the [await] of its request: [None]
    when it returns [false] before any request, otherwise the connection
    after the request and the promise awaited.  The idempotency key of a
    message without a string [_id] is drawn before the identifier of the
    request. *)
Definition sendToGateway_request (message : JsVal) (c : GatewayConnection)
    : option (GatewayConnection * nat) :=
  let sessionKey := prop message "sessionKey" in
  let content := prop message "content" in
  if negb (truthy sessionKey) || negb (truthy content) then None else
  let (idempotencyKey, c1) :=
    if typeof_string (prop message "_id") then (prop message "_id", c)
    else (JStr (randomUUID (draws c)), set_draws (S (draws c)) c) in
  Some (request "chat.send"
          (JObj [("sessionKey", sessionKey); ("message", content);
                 ("idempotencyKey", idempotencyKey)])
          defaultTimeoutMs c1).

(** The rest of [sendToGateway] once its promise is settled: what it pushes
    and what it returns.  [JSON.stringify(undefined)] is [undefined], whose
    [slice] throws into the [catch] of the attempt. *)
Definition sendToGateway_settled (now : Z) (s : Settlement)
    (answer : GatewayMessage -> MutationOutcome) (r : Relay)
    : Relay * list (PushFromGateway * bool) * bool :=
  match s with
  | Fulfilled JUndefined => (r, [], false)
  | Fulfilled response =>
      let (r', sent) := sendToGateway now response answer r in (r', sent, true)
  | Rejected _ => (r, [], false)
  end.

(** What the world does while one call of [sendToGateway] is suspended: the
    events of the connection until the promise of the request is settled and
    while the mutations are awaited, the clock reading at the response and
    the answers of the store. *)
Record Await : Type := mkAwait {
  await_events : list ConnEvent;
  await_now : Z;
  await_answer : GatewayMessage -> MutationOutcome;
  await_after : list ConnEvent
}.

(** One call of [sendToGateway]: the relay and the connection after it and
    what it returns, [None] while the promise of its request is unsettled. *)
Definition sendToGateway_call (message : JsVal) (w : Await) (r : Relay)
    (c : GatewayConnection) : Relay * GatewayConnection * option bool :=
  match sendToGateway_request message c with
  | None => (r, c, Some false)
  | Some (c1, n) =>
      let c2 := conn_run c1 (await_events w) in
      match promise n c2 with
      | None => (r, c2, None)
      | Some s =>
          let '(r1, _, sent) :=
            sendToGateway_settled (await_now w) s (await_answer w) r in
          (r1, conn_run c2 (await_after w), Some sent)
      end
  end.

(** How the loop of [forwardUnsyncedAppMessages] ends: with the identifiers
    to mark, by the [TypeError] of reading a message that is [null] or
    [undefined], or still waiting for a response. *)
Inductive Pass : Type :=
| Marked (syncedIds : list JsVal)
| Threw
| Waiting.

(** The loop over [unsynced], each message with what the world does during
    its call. *)
Fixpoint forwardLoop (unsynced : list (JsVal * Await)) (syncedIds : list JsVal)
    (r : Relay) (c : GatewayConnection) : Relay * GatewayConnection * Pass :=
  match unsynced with
  | [] => (r, c, Marked syncedIds)
  | (message, w) :: rest =>
      if nullish message then (r, c, Threw) else
      match sendToGateway_call message w r c with
      | (r1, c1, None) => (r1, c1, Waiting)
      | (r1, c1, Some sent) =>
          forwardLoop rest
            (if sent && truthy (prop message "_id")
             then syncedIds ++ [prop message "_id"] else syncedIds) r1 c1
      end
  end.

(** [forwardUnsyncedAppMessages(conn)] from the result of its query on: the
    identifiers of the mutation ["messages:markSynced"], if it sends it. *)
Definition forwardUnsyncedAppMessages (unsynced : list (JsVal * Await)) (r : Relay)
    (c : GatewayConnection) : Relay * GatewayConnection * option (list JsVal) :=
  match forwardLoop unsynced [] r c with
  | (r', c', Marked []) => (r', c', None)
  | (r', c', Marked syncedIds) => (r', c', Some syncedIds)
  | (r', c', _) => (r', c', None)
  end.

(** [id] is the identifier of a message of [unsynced] that was complete and
    whose ["chat.send"] request, a call of [c], was answered. *)
Definition forwarded (unsynced : list (JsVal * Await)) (c : GatewayConnection)
    (id : JsVal) : Prop :=
  truthy id = true /\
  exists message w n rid value,
    In (message, w) unsynced /\ prop message "_id" = id /\
    truthy (prop message "sessionKey") = true /\
    truthy (prop message "content") = true /\
    callInfo n c = Some (rid, "chat.send") /\
    promise n c = Some (Fulfilled value) /\ value <> JUndefined.

(** * Cron actions *)

(** What [cmdMap[action.action]] holds when it is truthy: one of the four
    commands, or what every object literal inherits under that name. *)
Inductive Cmd : Type :=
| Shell (command : string)
| Inherited (key : string).

(** The properties of [Object.prototype]. *)
Definition objectPrototypeKeys : list string :=
  ["constructor"; "__defineGetter__"; "__defineSetter__"; "hasOwnProperty";
   "__lookupGetter__"; "__lookupSetter__"; "isPrototypeOf"; "propertyIsEnumerable";
   "toString"; "valueOf"; "__proto__"; "toLocaleString"].

(** [cmdMap[action.action]], [None] when it is [undefined]. *)
Definition cmdMap (action : JsVal) : option Cmd :=
  let jobId := toString (prop action "jobId") in
  let key := toString (prop action "action") in
  if (key =? "enable")%string then Some (Shell ("openclaw cron enable " ++ jobId))
  else if (key =? "disable")%string then Some (Shell ("openclaw cron disable " ++ jobId))
  else if (key =? "run")%string then Some (Shell ("openclaw cron run " ++ jobId))
  else if (key =? "remove")%string then Some (Shell ("openclaw cron rm " ++ jobId))
  else if existsb (String.eqb key) objectPrototypeKeys then Some (Inherited key)
  else None.

(** What the world answers during the turn of one action: whether the
    command throws and with what message, the message of the [TypeError] of
    [execSync] for a command that is not a string, and whether each of the
    two mutations throws. *)
Record CronWorld : Type := mkCronWorld {
  exec_throws : option string;
  exec_type_error : string;
  done_throws : option string;
  error_throws : option string
}.

(** What [processCronActions] does to the world: a command run, a mutation
    ["cronJobs:completeAction"] sent, with whether it resolved, and the call
    of [syncCronJobs]. *)
Inductive CronEffect : Type :=
| ExecSync (command : string)
| CompleteAction (actionId : JsVal) (status : string) (error : option string)
    (resolved : bool)
| SyncCronJobs.

(** The [catch] of one action, after the effects [before]: the mutation with
    the status "error", and whether the loop goes on. *)
Definition reportError (action : JsVal) (w : CronWorld) (before : list CronEffect)
    (message : string) : list CronEffect * bool :=
  match error_throws w with
  | None =>
      (before ++ [CompleteAction (prop action "_id") "error"
                    (Some (slice0 200 message)) true], true)
  | Some _ =>
      (before ++ [CompleteAction (prop action "_id") "error"
                    (Some (slice0 200 message)) false], false)
  end.

(** The body of the loop for an action that is neither [null] nor
    [undefined]. *)
Definition cronTurn (action : JsVal) (w : CronWorld) : list CronEffect * bool :=
  match cmdMap action with
  | None =>
      reportError action w []
        ("Unknown cron action: " ++ toString (prop action "action"))
  | Some (Inherited _) => reportError action w [] (exec_type_error w)
  | Some (Shell command) =>
      match exec_throws w with
      | Some message => reportError action w [ExecSync command] message
      | None =>
          match done_throws w with
          | None =>
              ([ExecSync command; CompleteAction (prop action "_id") "done" None true], true)
          | Some message =>
              reportError action w
                [ExecSync command; CompleteAction (prop action "_id") "done" None false]
                message
          end
      end
  end.

(** The loop over [actions]: its effects, and whether it came to its end.
    Reading a property of [null] throws, in the [try] and again in the
    [catch]. *)
Fixpoint cronLoop (actions : list (JsVal * CronWorld)) : list CronEffect * bool :=
  match actions with
  | [] => ([], true)
  | (action, w) :: rest =>
      if nullish action then ([], false) else
      let (effects, goOn) := cronTurn action w in
      if goOn then
        let (more, finished) := cronLoop rest in (effects ++ more, finished)
      else (effects, false)
  end.

(** [processCronActions()] from the result of its query on. *)
Definition processCronActions (actions : list (JsVal * CronWorld)) : list CronEffect :=
  match actions with
  | [] => []
  | _ :: _ =>
      let (effects, finished) := cronLoop actions in
      if finished then effects ++ [SyncCronJobs] else effects
  end.

(** Every command run is followed at once by a mutation that reports it. *)
Definition followedByReport (effects : list CronEffect) : Prop :=
  forall i command,
    nth_error effects i = Some (ExecSync command) ->
    exists actionId status error resolved,
      nth_error effects (S i) = Some (CompleteAction actionId status error resolved).

(** What a pass may put into the world for one of its actions. *)
Definition cronEffectOf (actions : list (JsVal * CronWorld)) (e : CronEffect) : Prop :=
  match e with
  | ExecSync command =>
      exists action w verb,
        In (action, w) actions /\ In verb ["enable"; "disable"; "run"; "rm"] /\
        command = ("openclaw cron " ++ verb ++ " " ++ toString (prop action "jobId"))%string
  | CompleteAction actionId status error _ =>
      (exists action w, In (action, w) actions /\ actionId = prop action "_id") /\
      (status = "done" /\ error = None \/
       status = "error" /\
       exists message, error = Some message /\ (String.length message <= 200)%nat)
  | SyncCronJobs => False
  end.

(** * The store

    A table is the list of its documents in the order of their creation,
    which is the order in which an index returns documents with equal
    keys. *)

(** [ctx.db.patch(existing._id, fields)] for the document [first()]
    returned, the first that [f] accepts. *)
Fixpoint patchFirst {A : Type} (f : A -> bool) (g : A -> A) (t : list A) : list A :=
  match t with
  | [] => []
  | d :: rest => if f d then g d :: rest else d :: patchFirst f g rest
  end.

(** ** Sessions *)

(** A document of the table [sessions]: the instance and the six fields of a
    session. *)
Record SessionDoc : Type := mkSessionDoc {
  doc_instanceId : string;
  doc_session : Session
}.

(** The range of the index [by_instanceId_sessionKey]. *)
Definition sessionOf (instanceId sessionKey : string) (d : SessionDoc) : bool :=
  ((doc_instanceId d =? instanceId) && (session_sessionKey (doc_session d) =? sessionKey))%string.

(** The fields that [syncFromGateway] patches. *)
Definition patchSession (session : Session) (d : SessionDoc) : SessionDoc :=
  mkSessionDoc (doc_instanceId d)
    (mkSession (session_sessionKey (doc_session d)) (session_title session)
       (session_isPinned session) (session_lastMessagePreview session)
       (session_updatedAt session) (session_createdAt (doc_session d))).

(** One turn of the loop of [syncFromGateway]. *)
Definition syncSession (instanceId : string) (session : Session) (t : list SessionDoc)
    : list SessionDoc :=
  match find (sessionOf instanceId (session_sessionKey session)) t with
  | Some _ =>
      patchFirst (sessionOf instanceId (session_sessionKey session)) (patchSession session) t
  | None => t ++ [mkSessionDoc instanceId session]
  end.

(** The mutation ["sessions:syncFromGateway"]. *)
Definition syncFromGateway (instanceId : string) (sessions : list Session)
    (t : list SessionDoc) : list SessionDoc :=
  fold_left (fun t session => syncSession instanceId session t) sessions t.

(** The query ["sessions:getForInstance"]. *)
Definition getForInstance (instanceId : string) (t : list SessionDoc) : list SessionDoc :=
  filter (fun d => (doc_instanceId d =? instanceId)%string) t.

Definition docKey (d : SessionDoc) : string * string :=
  (doc_instanceId d, session_sessionKey (doc_session d)).

(** ** Instances *)

(** A document of the table [instances]: the fields that the heartbeat and
    the status read or write, and the others. *)
Record InstanceDoc : Type := mkInstanceDoc {
  instance_instanceId : string;
  instance_status : string;
  instance_version : option string;
  instance_lastSeenAt : Z;
  instance_others : list (string * JsVal)
}.

Definition instanceOf (instanceId : string) (d : InstanceDoc) : bool :=
  (instance_instanceId d =? instanceId)%string.

(** The mutation ["sessions:heartbeat"], the clock reading [now]. *)
Definition heartbeat (now : Z) (instanceId : string) (version : option string)
    (t : list InstanceDoc) : list InstanceDoc :=
  match find (instanceOf instanceId) t with
  | Some _ =>
      patchFirst (instanceOf instanceId)
        (fun d =>
           mkInstanceDoc (instance_instanceId d) "online"
             (match version with
              | Some v => if nonempty v then Some v else instance_version d
              | None => instance_version d
              end)
             now (instance_others d)) t
  | None => t
  end.

(** The query ["sessions:getInstanceStatus"], the clock reading [now];
    [None] is its [null]. *)
Definition getInstanceStatus (now : Z) (instanceId : string) (t : list InstanceDoc)
    : option InstanceDoc :=
  match find (instanceOf instanceId) t with
  | None => None
  | Some instance =>
      let isOnline := now - instance_lastSeenAt instance <? 2 * 60 * 1000 in
      Some (mkInstanceDoc (instance_instanceId instance)
              (if isOnline then "online" else "offline")
              (instance_version instance) (instance_lastSeenAt instance)
              (instance_others instance))
  end.

(** ** Cron actions *)

(** A document of the table [cronActions]. *)
Record CronAction : Type := mkCronAction {
  action_id : nat;
  action_instanceId : string;
  action_jobId : string;
  action_action : string;
  action_status : string;
  action_error : option string;
  action_createdAt : Z;
  action_completedAt : option Z
}.

(** The identifier the store gives to a new document: one no document
    has. *)
Definition freshId (t : list CronAction) : nat := S (list_max (map action_id t)).

(** The mutation ["cronJobs:requestToggle"], the clock reading [now]. *)
Definition requestToggle (now : Z) (instanceId jobId : string) (enable : bool)
    (t : list CronAction) : list CronAction :=
  t ++ [mkCronAction (freshId t) instanceId jobId (if enable then "enable" else "disable")
          "pending" None now None].

(** The query ["cronJobs:getPendingActions"]. *)
Definition getPendingActions (instanceId : string) (t : list CronAction) : list CronAction :=
  filter (fun d => ((action_instanceId d =? instanceId) && (action_status d =? "pending"))%string)
    t.

(** The mutation ["cronJobs:completeAction"], the clock reading [now];
    [None] when [patch] throws for want of the document. *)
Definition completeAction (now : Z) (actionId : nat) (status : string) (error : option string)
    (t : list CronAction) : option (list CronAction) :=
  if existsb (fun d => Nat.eqb (action_id d) actionId) t then
    Some (patchFirst (fun d => Nat.eqb (action_id d) actionId)
            (fun d => mkCronAction (action_id d) (action_instanceId d) (action_jobId d)
                        (action_action d) status error (action_createdAt d) (Some now)) t)
  else None.

(** ** Cron jobs and skills

    The tables [cronJobs] and [skills] keep one list for each instance, of
    jobs in the one and of skills in the other, written and read by
    functions of the same shape. *)

Record ListDoc (A : Type) : Type := mkListDoc {
  list_instanceId : string;
  list_items : list A;
  list_updatedAt : Z
}.

Arguments mkListDoc {A} _ _ _.
Arguments list_instanceId {A} _.
Arguments list_items {A} _.
Arguments list_updatedAt {A} _.

Definition listOf {A : Type} (instanceId : string) (d : ListDoc A) : bool :=
  (list_instanceId d =? instanceId)%string.

(** The mutations ["cronJobs:sync"] and ["skills:sync"], the clock reading
    [now]. *)
Definition sync {A : Type} (now : Z) (instanceId : string) (items : list A)
    (t : list (ListDoc A)) : list (ListDoc A) :=
  match find (listOf instanceId) t with
  | Some _ =>
      patchFirst (listOf instanceId)
        (fun d => mkListDoc (list_instanceId d) items now) t
  | None => t ++ [mkListDoc instanceId items now]
  end.

(** The queries ["cronJobs:get"] and ["skills:get"]. *)
Definition get {A : Type} (instanceId : string) (t : list (ListDoc A)) : list A :=
  match find (listOf instanceId) t with
  | Some doc => list_items doc
  | None => []
  end.
(** * Properties *)

(** ** Maps *)

Lemma map_get_delete_same {K V : Type} (same : K -> K -> bool) (k : K) (m : JsMap K V) :
  map_get same k (map_delete same k m) = None.
Proof.
  unfold map_get, map_delete.
  induction m as [|[k' v'] m IH]; simpl; [reflexivity|].
  destruct (same k' k) eqn:E; simpl; [exact IH|].
  rewrite E. exact IH.
Qed.

Lemma map_has_get {K V : Type} (same : K -> K -> bool) (k : K) (m : JsMap K V) :
  map_has same k m = match map_get same k m with Some _ => true | None => false end.
Proof.
  unfold map_has, map_get.
  induction m as [|[k' v'] m IH]; simpl; [reflexivity|].
  destruct (same k' k); simpl; [reflexivity|exact IH].
Qed.

Lemma map_get_set_same {K V : Type} (same : K -> K -> bool) (k : K) (v : V) (m : JsMap K V) :
  same k k = true -> map_get same k (map_set same k v m) = Some v.
Proof.
  intros Hk. unfold map_get.
  induction m as [|[k' v'] m IH]; simpl.
  - rewrite Hk. reflexivity.
  - destruct (same k' k) eqn:E; simpl; rewrite E; [reflexivity|exact IH].
Qed.

(** ** The reconnect delay *)

Lemma backoff_table (n : Z) :
  1 <= n ->
  backoff n = match n with
              | 1 => 2000 | 2 => 4000 | 3 => 8000 | 4 => 16000
              | _ => 30000
              end.
Proof.
  intros Hn.
  assert (H : n = 1 \/ n = 2 \/ n = 3 \/ n = 4 \/ 5 <= n) by lia.
  destruct H as [->|[->|[->|[->|H5]]]]; try reflexivity.
  unfold backoff. rewrite (Z.min_r n 5) by lia.
  destruct n as [|q|q]; try lia.
  do 3 (destruct q as [q|q|]; try lia; try reflexivity).
Qed.

Lemma jitter_range (random : Q) :
  (0 <= random)%Q -> (random < 1)%Q -> 0 <= jitter random < 500.
Proof.
  intros H0 H1. unfold jitter. split.
  - change 0 with (Qfloor (inject_Z 0)).
    apply Qfloor_resp_le.
    change (inject_Z 0) with (0 * 500)%Q.
    apply Qmult_le_compat_r; [exact H0|discriminate].
  - rewrite Zlt_Qlt.
    apply Qle_lt_trans with (y := (random * 500)%Q); [apply Qfloor_le|].
    change (inject_Z 500) with (1 * 500)%Q.
    apply Qmult_lt_compat_r; [reflexivity|exact H1].
Qed.

(** C7. At reconnect attempt [n >= 1] the delay before the jitter is
    [min(30000, 1000 * 2^min(n,5))] ms: 2 s, 4 s, 8 s, 16 s and 30 s for the
    attempts 1 to 5, and 30 s from the fifth on.  The jitter lies between 0
    and 500 ms, and the loop sleeps for the sum of the two. *)
Theorem reconnect_delay (r : Relay) (random : Q) :
  phase r = AwaitClose false ->
  running r = true ->
  0 <= reconnectAttempt r ->
  (0 <= random)%Q -> (random < 1)%Q ->
  let n := reconnectAttempt r + 1 in
  let r' := resume (CloseSettled random) r in
  1 <= n /\
  reconnectAttempt r' = n /\
  phase r' = AwaitSleep (backoff n + jitter random) /\
  backoff n = Z.min 30000 (1000 * 2 ^ Z.min n 5) /\
  backoff n = match n with
              | 1 => 2000 | 2 => 4000 | 3 => 8000 | 4 => 16000
              | _ => 30000
              end /\
  (5 <= n -> backoff n = 30000) /\
  0 <= jitter random <= 500.
Proof.
  intros Hp Hr Ha H0 H1 n r'.
  assert (Hn : 1 <= n) by (unfold n; lia).
  split; [exact Hn|].
  split; [unfold r', resume; rewrite Hp; simpl; rewrite Hr; reflexivity|].
  split; [unfold r', resume; rewrite Hp; simpl; rewrite Hr; reflexivity|].
  split; [reflexivity|].
  split; [apply backoff_table; exact Hn|].
  split.
  - intros H5. rewrite backoff_table by exact Hn.
    destruct n as [|q|q]; try lia.
    do 3 (destruct q as [q|q|]; try lia; try reflexivity).
  - pose proof (jitter_range random H0 H1). lia.
Qed.

(** ** Deltas and their final event *)

Lemma finalTextOf_spec (text : string) (delta : option Delta) :
  finalTextOf text delta =
  if nonempty text then text
  else match delta with Some d => delta_text d | None => "" end.
Proof.
  unfold finalTextOf. destruct (nonempty text); [reflexivity|].
  destruct delta as [d|]; [|reflexivity].
  unfold nonempty. destruct (delta_text d); reflexivity.
Qed.

(** A delta event with a text records it for its run, over what was there. *)
Lemma delta_event_records (now : Z) (frame : JsVal) (r : Relay) :
  let p := coalesce (prop frame "payload") frame in
  let runId := prop p "runId" in
  let text := eventText (prop (prop p "message") "content") in
  is_str (coalesce (prop frame "event") (prop frame "type")) "chat" = true ->
  truthy runId = true ->
  truthy (prop p "sessionKey") = true ->
  is_str (prop p "state") "delta" = true ->
  truthy (prop p "message") = true ->
  nonempty text = true ->
  sameValueZero runId runId = true ->
  let (r', actions) := runConnected_onFrame now frame r in
  actions = [] /\
  option_map delta_text (map_get sameValueZero runId (pendingDeltas r')) = Some text.
Proof.
  intros p runId text Hevt Hrun Hsk Hstate Hmsg Htext Hsame.
  unfold runConnected_onFrame. rewrite Hevt.
  unfold onChat. fold p. fold runId. rewrite Hrun, Hsk, Hstate, Hmsg. simpl.
  fold text. rewrite Htext.
  assert (Hno : is_str (coalesce (prop frame "event") (prop frame "type")) "sessions.updated" = false).
  { destruct (coalesce (prop frame "event") (prop frame "type")); try discriminate.
    simpl in Hevt |- *. apply String.eqb_eq in Hevt. subst s. reflexivity. }
  rewrite Hno. split; [reflexivity|].
  simpl. rewrite map_get_set_same by exact Hsame. reflexivity.
Qed.


(** The end-to-end run of the specification: two deltas, then a final event
    without a message. *)
Example hello_run :
  let frames := [(1, chatEvent "run-1" "agent:main:main" "delta" (textMessage "assistant" "Hel" 100));
                 (2, chatEvent "run-1" "agent:main:main" "delta" (textMessage "assistant" "Hello" 101));
                 (3, chatEvent "run-1" "agent:main:main" "final" JUndefined)] in
  let (r, actions) := feedFrames frames (newRelay "inst" JNull) in
  pendingDeltas r = [] /\
  actions = [PushChatEvent (finishedMessage (JStr "agent:main:main") "Hello" (JNum 101))] /\
  pushChatEvent "inst" 4 (finishedMessage (JStr "agent:main:main") "Hello" (JNum 101))
  = Some (mkPush "inst" (JStr "agent:main:main") "assistant" "Hello" 101).
Proof. repeat split. Qed.

(** ** The cap on the content *)

Lemma slice0_length (n : nat) (s : string) :
  (String.length (slice0 n s) <= n)%nat.
Proof.
  unfold slice0. revert s.
  induction n as [|n IH]; intros [|c s]; simpl; try lia.
  specialize (IH s). lia.
Qed.

Lemma pushChatEvent_capped (instance : string) (now : Z) (payload : JsVal) (m : PushFromGateway) :
  pushChatEvent instance now payload = Some m ->
  (String.length (push_content m) <= contentCap)%nat.
Proof.
  unfold pushChatEvent.
  destruct (negb (truthy (prop payload "sessionKey")) || negb (truthy (prop payload "message")));
    [discriminate|].
  destruct (negb (nonempty (trim (contentText (prop (prop payload "message") "content")))));
    [discriminate|].
  intros H. injection H as <-. simpl. apply slice0_length.
Qed.

Lemma historyLoop_capped (now : Z) (raw : list JsVal) (messages : list (string * string * Z)) :
  historyLoop now raw = Some messages ->
  Forall (fun m => (String.length (snd (fst m)) <= contentCap)%nat) messages.
Proof.
  revert messages.
  induction raw as [|msg raw IH]; simpl; intros messages H.
  - injection H as <-. constructor.
  - destruct (historyMessage now msg) as [kept|] eqn:Hm; [|discriminate].
    destruct (historyLoop now raw) as [more|]; [|discriminate].
    injection H as <-.
    specialize (IH more eq_refl).
    destruct kept as [m|]; [|exact IH].
    constructor; [|exact IH].
    unfold historyMessage in Hm.
    destruct (prop_strict msg "role") as [r|]; [|discriminate].
    destruct (is_str r "toolResult" || is_str r "tool"); [discriminate|].
    destruct (negb (nonempty (trim (contentText (prop msg "content"))))); [discriminate|].
    injection Hm as <-. simpl. apply slice0_length.
Qed.

(** The two paths that normalise a structured content cap it. *)
Lemma normalised_content_capped :
  (forall instance now payload m,
      pushChatEvent instance now payload = Some m ->
      (String.length (push_content m) <= 4000)%nat) /\
  (forall instance now sk payload,
      Forall (fun m => (String.length (push_content m) <= 4000)%nat)
        (syncHistoryForSession instance now sk payload)).
Proof.
  split.
  - intros instance now payload m H. exact (pushChatEvent_capped _ _ _ _ H).
  - intros instance now sk payload. unfold syncHistoryForSession.
    destruct (negb (truthy sk)); [constructor|].
    destruct (coalesce (prop payload "messages") (JArr [])); try constructor.
    destruct (historyLoop now items) as [messages|] eqn:H; [|constructor].
    apply historyLoop_capped in H.
    induction H as [|m ms Hm _ IH]; simpl; constructor; [exact Hm|exact IH].
Qed.

(** C6. The path from the response of ["chat.send"] through
    [extractGatewayMessages] to [pushGatewayMessages] sends the content as it
    came: a content of 4001 code units reaches the store whole. *)
Theorem response_content_not_capped :
  delivered (snd (sendToGateway 0 longResponse (fun _ => Resolves 1) (newRelay "inst" JNull)))
  = [mkPush "inst" (JStr "agent:main:main") "assistant" longContent 0] /\
  String.length longContent = 4001%nat.
Proof. vm_compute. split; reflexivity. Qed.

(** ** Roles *)

Lemma coerceRole_recognized (value : JsVal) : recognized (coerceRole value).
Proof.
  unfold coerceRole, recognized.
  destruct (is_str value "user"); [auto|].
  destruct (is_str value "assistant"); auto.
Qed.

Lemma coerceRole_default (value : JsVal) :
  unrecognized value = true -> coerceRole value = "system".
Proof.
  unfold unrecognized, coerceRole.
  destruct (is_str value "user"); [discriminate|].
  destruct (is_str value "assistant"); [discriminate|reflexivity].
Qed.

(** C9, as the code has it. Every path stores one of the roles user, assistant
    and system.  A message taken from a response by [extractGatewayMessages]
    gets "assistant" when its role is none of the three; [pushChatEvent] and
    the history backfill give "system" in that case, and the backfill skips
    the messages of the roles tool and toolResult. *)
Theorem roles_coerced :
  (forall now m g,
      extractGatewayMessage now m = Some g ->
      recognized (role g) /\
      (unrecognized (prop m "role") = true -> role g = "assistant")) /\
  (forall instance now payload m,
      pushChatEvent instance now payload = Some m ->
      recognized (push_role m) /\
      (unrecognized (prop (prop payload "message") "role") = true ->
       push_role m = "system")) /\
  (forall now msg r c t,
      historyMessage now msg = Some (Some (r, c, t)) ->
      recognized r /\
      is_str (prop msg "role") "tool" = false /\
      is_str (prop msg "role") "toolResult" = false /\
      (unrecognized (prop msg "role") = true -> r = "system")).
Proof.
  split; [|split].
  - intros now m g. unfold extractGatewayMessage.
    match goal with |- context [if ?b then None else _] => destruct b end; [discriminate|].
    intros H. injection H as <-. simpl. unfold unrecognized, recognized.
    destruct (prop m "role") as [| |b|n|s|l|l]; simpl; auto.
    destruct (s =? "assistant")%string eqn:Ea;
      [apply String.eqb_eq in Ea; subst s; simpl; split; [auto|discriminate]|].
    destruct (s =? "system")%string eqn:Es;
      [apply String.eqb_eq in Es; subst s; simpl; split; [auto|discriminate]|].
    destruct (s =? "user")%string eqn:Eu;
      [apply String.eqb_eq in Eu; subst s; simpl; split; [auto|discriminate]|].
    simpl. auto.
  - intros instance now payload m. unfold pushChatEvent.
    destruct (negb (truthy (prop payload "sessionKey")) || negb (truthy (prop payload "message")));
      [discriminate|].
    destruct (negb (nonempty (trim (contentText (prop (prop payload "message") "content")))));
      [discriminate|].
    intros H. injection H as <-. simpl.
    split; [apply coerceRole_recognized|apply coerceRole_default].
  - intros now msg r c t. unfold historyMessage, prop_strict.
    destruct (nullish msg) eqn:Hn; [discriminate|].
    destruct (is_str (prop msg "role") "toolResult") eqn:Etr; [discriminate|].
    destruct (is_str (prop msg "role") "tool") eqn:Et; [discriminate|]. simpl.
    destruct (negb (nonempty (trim (contentText (prop msg "content"))))); [discriminate|].
    intros H. injection H as <- _ _.
    split; [apply coerceRole_recognized|].
    split; [reflexivity|]. split; [reflexivity|apply coerceRole_default].
Qed.

(** ** Suppression of repeated pushes *)

Lemma map_set_absent {V : Type} (k : string) (v : V) (m : JsMap string V) :
  map_has String.eqb k m = false -> map_set String.eqb k v m = m ++ [(k, v)].
Proof.
  unfold map_has.
  induction m as [|[k' v'] m IH]; simpl; [reflexivity|].
  destruct (k' =? k)%string; simpl; [discriminate|].
  intros H. rewrite IH by exact H. reflexivity.
Qed.

Lemma map_has_filter_absent {V : Type} (f : string * V -> bool) (k : string) (m : JsMap string V) :
  map_has String.eqb k m = false -> map_has String.eqb k (filter f m) = false.
Proof.
  unfold map_has.
  induction m as [|e m IH]; simpl; [reflexivity|].
  destruct (fst e =? k)%string eqn:E; simpl; [discriminate|].
  intros H. destruct (f e); simpl; [rewrite E; simpl|]; apply IH; exact H.
Qed.

Lemma map_has_filter_app {V : Type} (f : string * V -> bool) (k : string) (v : V)
    (m : JsMap string V) :
  map_has String.eqb k m = false ->
  map_has String.eqb k (filter f (m ++ [(k, v)])) = f (k, v).
Proof.
  intros H. unfold map_has.
  rewrite filter_app, existsb_app.
  fold (map_has String.eqb k (filter f m)).
  rewrite (map_has_filter_absent f k m H). simpl.
  destruct (f (k, v)); simpl; [rewrite String.eqb_refl|]; reflexivity.
Qed.

Lemma map_has_set {V : Type} (k k' : string) (v : V) (m : JsMap string V) :
  map_has String.eqb k (map_set String.eqb k' v m)
  = (k' =? k)%string || map_has String.eqb k m.
Proof.
  unfold map_has.
  induction m as [|[k0 v0] m IH]; simpl.
  - rewrite orb_false_r. reflexivity.
  - destruct (k0 =? k')%string eqn:E; simpl.
    + apply String.eqb_eq in E. subst k0.
      destruct (k' =? k)%string; reflexivity.
    + rewrite IH. destruct (k0 =? k)%string, (k' =? k)%string; reflexivity.
Qed.

Lemma pushLoop_instanceId (batch : list (GatewayMessage * MutationOutcome)) (r : Relay) :
  instanceId (fst (pushLoop batch r)) = instanceId r.
Proof.
  revert r. induction batch as [|[msg answer] batch IH]; intros r; simpl; [reflexivity|].
  destruct (map_has String.eqb (hashGatewayMessage msg) (recentGatewayMessageHashes r));
    [apply IH|].
  destruct answer as [now|err].
  - specialize (IH (set_hashes (map_set String.eqb (hashGatewayMessage msg) now
                                  (recentGatewayMessageHashes r)) r)).
    destruct (pushLoop batch _). exact IH.
  - specialize (IH r). destruct (pushLoop batch r). exact IH.
Qed.

(** A hash that the loop leaves recorded was recorded before it, or belongs
    to a message whose mutation resolved. *)
Lemma pushLoop_records_resolved (batch : list (GatewayMessage * MutationOutcome)) (r : Relay)
    (h : string) :
  map_has String.eqb h (recentGatewayMessageHashes (fst (pushLoop batch r))) = true ->
  map_has String.eqb h (recentGatewayMessageHashes r) = true \/
  exists msg, In (pushOf r msg, true) (snd (pushLoop batch r)) /\ hashGatewayMessage msg = h.
Proof.
  revert r. induction batch as [|[msg answer] batch IH]; intros r; simpl; [auto|].
  destruct (map_has String.eqb (hashGatewayMessage msg) (recentGatewayMessageHashes r)) eqn:Hhas;
    [apply IH|].
  destruct answer as [now|err].
  - specialize (IH (set_hashes (map_set String.eqb (hashGatewayMessage msg) now
                                  (recentGatewayMessageHashes r)) r)).
    destruct (pushLoop batch _) as [r2 sent]. simpl in *.
    intros H. destruct (IH H) as [Hold|[m [Hin Hm]]].
    + rewrite map_has_set in Hold.
      destruct (hashGatewayMessage msg =? h)%string eqn:E.
      * right. exists msg. split; [left; reflexivity|apply String.eqb_eq; exact E].
      * left. exact Hold.
    + right. exists m. split; [right; exact Hin|exact Hm].
  - specialize (IH r). destruct (pushLoop batch r) as [r2 sent]. simpl in *.
    intros H. destruct (IH H) as [Hold|[m [Hin Hm]]]; [left; exact Hold|].
    right. exists m. split; [right; exact Hin|exact Hm].
Qed.

Lemma pushOf_injective (r : Relay) (m1 m2 : GatewayMessage) :
  pushOf r m1 = pushOf r m2 -> m1 = m2.
Proof.
  destruct m1, m2. unfold pushOf. simpl. intros H.
  injection H as -> -> -> ->. reflexivity.
Qed.

(** A message whose hash is on record is not sent by the loop, whatever else
    the batch holds, and its hash stays on record. *)
Lemma pushLoop_skips_recorded (batch : list (GatewayMessage * MutationOutcome)) (r : Relay)
    (msg : GatewayMessage) :
  map_has String.eqb (hashGatewayMessage msg) (recentGatewayMessageHashes r) = true ->
  (forall b, ~ In (pushOf r msg, b) (snd (pushLoop batch r))) /\
  map_has String.eqb (hashGatewayMessage msg)
    (recentGatewayMessageHashes (fst (pushLoop batch r))) = true.
Proof.
  revert r. induction batch as [|[m answer] batch IH]; intros r Hrec; simpl.
  - split; [intros b H; exact H|exact Hrec].
  - destruct (map_has String.eqb (hashGatewayMessage m) (recentGatewayMessageHashes r)) eqn:Hm;
      [apply IH; exact Hrec|].
    assert (Hne : pushOf r m <> pushOf r msg).
    { intros Heq. apply pushOf_injective in Heq. subst m. congruence. }
    destruct answer as [now|err].
    + set (r1 := set_hashes (map_set String.eqb (hashGatewayMessage m) now
                               (recentGatewayMessageHashes r)) r).
      assert (Hrec1 : map_has String.eqb (hashGatewayMessage msg)
                        (recentGatewayMessageHashes r1) = true).
      { unfold r1. simpl. rewrite map_has_set, Hrec. apply orb_true_r. }
      destruct (IH r1 Hrec1) as [Hno Hkeep].
      destruct (pushLoop batch r1) as [r2 sent]. cbn [fst snd] in *.
      split; [|exact Hkeep].
      intros b [Heq|Hin]; [|exact (Hno b Hin)].
      apply Hne. congruence.
    + destruct (IH r Hrec) as [Hno Hkeep].
      destruct (pushLoop batch r) as [r2 sent]. cbn [fst snd] in *.
      split; [|exact Hkeep].
      intros b [Heq|Hin]; [|exact (Hno b Hin)].
      apply Hne. congruence.
Qed.


(** C10. A message whose mutation throws leaves the recorded hashes as the
    pruning left them: its hash is not recorded, and pushing it again sends
    it again.  In any batch, a hash is on record afterwards only if it was
    before or the mutation of a message with that hash resolved. *)
Theorem failed_push_not_recorded (r : Relay) (now : Z) :
  (forall msg err,
      let (r1, sent1) := pushGatewayMessages now [(msg, Throws err)] r in
      recentGatewayMessageHashes r1 = recentGatewayMessageHashes (pruneRecentHashes now r) /\
      delivered sent1 = [] /\
      (map_has String.eqb (hashGatewayMessage msg)
         (recentGatewayMessageHashes (pruneRecentHashes now r)) = false ->
       sent1 = [(pushOf r msg, false)] /\
       map_has String.eqb (hashGatewayMessage msg) (recentGatewayMessageHashes r1) = false /\
       forall later t,
         delivered (snd (pushGatewayMessages later [(msg, Resolves t)] r1)) = [pushOf r msg])) /\
  (forall batch h,
      let (r1, sent) := pushGatewayMessages now batch r in
      map_has String.eqb h (recentGatewayMessageHashes r1) = true ->
      map_has String.eqb h (recentGatewayMessageHashes r) = true \/
      exists msg, In (pushOf r msg, true) sent /\ hashGatewayMessage msg = h).
Proof.
  split.
  - intros msg err. unfold pushGatewayMessages, pruneRecentHashes. simpl.
    destruct (map_has String.eqb (hashGatewayMessage msg)
                (filter (fun e => negb (snd e <? now - retentionMs))
                   (recentGatewayMessageHashes r))) eqn:Hhas; simpl.
    + split; [reflexivity|]. split; [reflexivity|discriminate].
    + split; [reflexivity|]. split; [reflexivity|]. intros _.
      split; [reflexivity|]. split; [exact Hhas|].
      intros later t.
      rewrite (map_has_filter_absent _ _ _ Hhas). reflexivity.
  - intros [|e batch] h; unfold pushGatewayMessages.
    + intros H. left. exact H.
    + pose proof (pushLoop_records_resolved (e :: batch) (pruneRecentHashes now r) h) as H.
      destruct (pushLoop (e :: batch) (pruneRecentHashes now r)) as [r1 sent].
      simpl in H. intros Hrec.
      destruct (H Hrec) as [Hold|Hnew]; [left|right; exact Hnew].
      destruct (map_has String.eqb h (recentGatewayMessageHashes r)) eqn:Hb; [reflexivity|].
      rewrite (map_has_filter_absent _ _ _ Hb) in Hold. discriminate.
Qed.

(** ** Dispatch to the handlers *)

Lemma dispatch_prefix {W : Type} (body : nat -> Handler W) (hs : list nat)
    (frame : JsVal) (w : W) :
  exists rest, hs = fst (dispatch body hs frame w) ++ rest /\
    match snd (dispatch body hs frame w) with
    | Returned _ => rest = []
    | Thrown _ _ => exists before h, fst (dispatch body hs frame w) = before ++ [h]
    end.
Proof.
  revert w. induction hs as [|h hs IH]; intros w; simpl.
  - exists []. split; reflexivity.
  - destruct (body h frame w) as [w'|w' message]; simpl.
    + destruct (IH w') as [rest [Heq Hres]].
      destruct (dispatch body hs frame w') as [called result]; simpl in *.
      exists rest. split; [rewrite Heq at 1; reflexivity|].
      destruct result; [exact Hres|].
      destruct Hres as [before [h' Hc]]. exists (h :: before), h'. rewrite Hc. reflexivity.
    + exists hs. split; [reflexivity|]. exists [], h. reflexivity.
Qed.


(** ** Lists of calls *)

Lemma nth_error_update_nth {A : Type} (f : A -> A) (l : list A) (n m : nat) :
  nth_error (update_nth n f l) m
  = if Nat.eqb m n then option_map f (nth_error l m) else nth_error l m.
Proof.
  revert n m. induction l as [|x l IH]; intros n m; simpl.
  - destruct m; destruct (Nat.eqb _ n); reflexivity.
  - destruct n as [|n]; destruct m as [|m]; simpl; try reflexivity.
    apply IH.
Qed.

Lemma length_update_nth {A : Type} (f : A -> A) (l : list A) (n : nat) :
  List.length (update_nth n f l) = List.length l.
Proof.
  revert n. induction l as [|x l IH]; intros [|n]; simpl; try reflexivity.
  rewrite IH. reflexivity.
Qed.

(** ** What the operations of a connection change *)

Lemma settle_core (o : Settlement) (c : GatewayConnection) : same_core c (settle o c).
Proof. unfold settle, same_core. destruct (settled c); repeat split. Qed.

Lemma afterConnect_core (s : Settlement) (c : GatewayConnection) :
  same_core c (afterConnect s c).
Proof.
  unfold afterConnect. destruct s as [response|err]; [|apply settle_core].
  destruct (negb (is_str (coalesce (prop response "type") (prop response "event")) "hello-ok"));
    [apply settle_core|].
  unfold settle, same_core. simpl. destruct (settled c); repeat split.
Qed.

Lemma settlePromise_core (n : nat) (s : Settlement) (c : GatewayConnection) :
  calls (settlePromise n s c)
  = match nth_error (calls c) n with
    | Some k => match call_promise k with
                | None => update_nth n (with_promise s) (calls c)
                | Some _ => calls c
                end
    | None => calls c
    end /\
  pending (settlePromise n s c) = pending c /\
  closed (settlePromise n s c) = closed c /\
  ws (settlePromise n s c) = ws c /\
  draws (settlePromise n s c) = draws c.
Proof.
  unfold settlePromise.
  destruct (nth_error (calls c) n) as [k|]; [|repeat split].
  destruct (call_promise k); [repeat split|].
  destruct (call_awaiter k); [repeat split|].
  destruct (afterConnect_core s (set_calls (update_nth n (with_promise s) (calls c)) c))
    as (H1 & H2 & H3 & H4 & H5).
  rewrite H1, H2, H3, H4, H5. repeat split.
Qed.

Lemma promise_settle_same (n : nat) (s : Settlement) (c : GatewayConnection) :
  callInfo n c <> None -> promise n c = None ->
  promise n (settlePromise n s c) = Some s.
Proof.
  destruct (settlePromise_core n s c) as [Hc _]. observers. rewrite Hc.
  destruct (nth_error (calls c) n) as [k|] eqn:Hk; [|congruence].
  intros _ Hp. rewrite Hp, nth_error_update_nth, Nat.eqb_refl, Hk. reflexivity.
Qed.

Lemma promise_settle_kept (n m : nat) (s s' : Settlement) (c : GatewayConnection) :
  promise m c = Some s' -> promise m (settlePromise n s c) = Some s'.
Proof.
  destruct (settlePromise_core n s c) as [Hc _]. observers. rewrite Hc.
  destruct (nth_error (calls c) n) as [k|] eqn:Hk; [|auto].
  destruct (call_promise k) eqn:Hp; [auto|].
  rewrite nth_error_update_nth.
  destruct (Nat.eqb_spec m n) as [->|Hne]; [|auto].
  rewrite Hk, Hp. discriminate.
Qed.

Lemma promise_settle_other (n m : nat) (s : Settlement) (c : GatewayConnection) :
  m <> n -> promise m (settlePromise n s c) = promise m c.
Proof.
  intros Hne. destruct (settlePromise_core n s c) as [Hc _]. observers. rewrite Hc.
  destruct (nth_error (calls c) n) as [k|]; [|reflexivity].
  destruct (call_promise k); [reflexivity|].
  rewrite nth_error_update_nth.
  destruct (Nat.eqb_spec m n); [contradiction|reflexivity].
Qed.

Lemma timerArmed_settle (n m : nat) (s : Settlement) (c : GatewayConnection) :
  timerArmed m (settlePromise n s c) = timerArmed m c.
Proof.
  destruct (settlePromise_core n s c) as [Hc _]. observers. rewrite Hc.
  destruct (nth_error (calls c) n) as [k|] eqn:Hk; [|reflexivity].
  destruct (call_promise k); [reflexivity|].
  rewrite nth_error_update_nth.
  destruct (Nat.eqb_spec m n) as [->|]; [|reflexivity].
  rewrite Hk. reflexivity.
Qed.

Lemma callInfo_settle (n m : nat) (s : Settlement) (c : GatewayConnection) :
  callInfo m (settlePromise n s c) = callInfo m c.
Proof.
  destruct (settlePromise_core n s c) as [Hc _]. observers. rewrite Hc.
  destruct (nth_error (calls c) n) as [k|] eqn:Hk; [|reflexivity].
  destruct (call_promise k); [reflexivity|].
  rewrite nth_error_update_nth.
  destruct (Nat.eqb_spec m n) as [->|]; [|reflexivity].
  rewrite Hk. reflexivity.
Qed.

Lemma promise_clear (n m : nat) (c : GatewayConnection) :
  promise m (clearTimeout n c) = promise m c.
Proof.
  observers. simpl. rewrite nth_error_update_nth.
  destruct (Nat.eqb m n); [|reflexivity].
  destruct (nth_error (calls c) m); reflexivity.
Qed.

Lemma callInfo_clear (n m : nat) (c : GatewayConnection) :
  callInfo m (clearTimeout n c) = callInfo m c.
Proof.
  observers. simpl. rewrite nth_error_update_nth.
  destruct (Nat.eqb m n); [|reflexivity].
  destruct (nth_error (calls c) m); reflexivity.
Qed.

Lemma timerArmed_clear (n m : nat) (c : GatewayConnection) :
  timerArmed m (clearTimeout n c) = if Nat.eqb m n then false else timerArmed m c.
Proof.
  observers. simpl. rewrite nth_error_update_nth.
  destruct (Nat.eqb m n); [|reflexivity].
  destruct (nth_error (calls c) m); reflexivity.
Qed.

Lemma callInfo_in_range (n : nat) (c : GatewayConnection) :
  callInfo n c <> None -> (n < List.length (calls c))%nat.
Proof.
  observers. intros H. apply nth_error_Some.
  destruct (nth_error (calls c) n); congruence.
Qed.

(** What [request] does on an open socket. *)
Lemma request_open (method : string) (payload : JsVal) (timeoutMs : Z) (c : GatewayConnection) :
  ws c = Some OPEN ->
  let n := List.length (calls c) in
  let id := randomUUID (draws c) in
  let c' := fst (request method payload timeoutMs c) in
  snd (request method payload timeoutMs c) = n /\
  calls c' = calls c ++ [mkCall id method timeoutMs Caller None true] /\
  pending c' = map_set String.eqb id n (pending c) /\
  closed c' = closed c /\ ws c' = ws c /\ draws c' = S (draws c).
Proof.
  intros Hws n id c'. subst n id c'. unfold request. rewrite Hws. simpl.
  repeat split; exact Hws.
Qed.

(** What [request] does otherwise. *)
Lemma request_not_open (method : string) (payload : JsVal) (timeoutMs : Z) (c : GatewayConnection) :
  ws c <> Some OPEN ->
  let c' := fst (request method payload timeoutMs c) in
  calls c' = calls c ++ [mkCall "" method timeoutMs Caller
                           (Some (Rejected "Gateway socket is not open")) false] /\
  pending c' = pending c /\ closed c' = closed c /\ ws c' = ws c.
Proof.
  intros Hws c'. subst c'. unfold request.
  destruct (ws c) as [[]|] eqn:E; try congruence; simpl; repeat split; exact E.
Qed.

Lemma observers_app (c c' : GatewayConnection) (k : Call) (m : nat) :
  calls c' = calls c ++ [k] ->
  (m < List.length (calls c))%nat ->
  callInfo m c' = callInfo m c /\ promise m c' = promise m c /\
  timerArmed m c' = timerArmed m c.
Proof.
  intros Hc Hm. observers. rewrite Hc, nth_error_app1 by exact Hm. repeat split.
Qed.

Lemma observers_new (c c' : GatewayConnection) (k : Call) :
  calls c' = calls c ++ [k] ->
  callInfo (List.length (calls c)) c' = Some (call_id k, call_method k) /\
  promise (List.length (calls c)) c' = call_promise k /\
  timerArmed (List.length (calls c)) c' = call_timer k.
Proof.
  intros Hc. observers. rewrite Hc, nth_error_app2 by lia.
  rewrite Nat.sub_diag. repeat split.
Qed.

(** ** Entries of string-keyed maps *)

Lemma map_get_In {V : Type} (k : string) (v : V) (m : JsMap string V) :
  map_get String.eqb k m = Some v -> In (k, v) m.
Proof.
  unfold map_get.
  destruct (find (fun e => (fst e =? k)%string) m) as [[k' v']|] eqn:Hf; [|discriminate].
  intros H. injection H as <-.
  apply find_some in Hf. destruct Hf as [Hin Hk]. simpl in Hk.
  apply String.eqb_eq in Hk. subst k'. exact Hin.
Qed.

Lemma In_map_set {V : Type} (k k' : string) (v v' : V) (m : JsMap string V) :
  In (k', v') (map_set String.eqb k v m) -> (k' = k /\ v' = v) \/ In (k', v') m.
Proof.
  induction m as [|[k0 v0] m IH]; simpl.
  - intros [H|[]]. injection H as <- <-. left. split; reflexivity.
  - destruct (k0 =? k)%string eqn:E; simpl.
    + apply String.eqb_eq in E. subst k0.
      intros [H|H]; [injection H as <- <-; left; split; reflexivity|right; right; exact H].
    + intros [H|H]; [right; left; exact H|].
      destruct (IH H) as [Hn|Ho]; [left; exact Hn|right; right; exact Ho].
Qed.

Lemma In_map_delete {V : Type} (k k' : string) (v' : V) (m : JsMap string V) :
  In (k', v') (map_delete String.eqb k m) -> In (k', v') m /\ k' <> k.
Proof.
  unfold map_delete. intros H. apply filter_In in H. destruct H as [Hin Hk].
  split; [exact Hin|]. simpl in Hk.
  intros ->. rewrite String.eqb_refl in Hk. discriminate.
Qed.

Lemma map_get_set_other {V : Type} (k k' : string) (v : V) (m : JsMap string V) :
  k' <> k -> map_get String.eqb k' (map_set String.eqb k v m) = map_get String.eqb k' m.
Proof.
  intros Hne. unfold map_get.
  assert (Hkk : (k =? k')%string = false) by (apply String.eqb_neq; congruence).
  induction m as [|[k0 v0] m IH]; simpl.
  - rewrite Hkk. reflexivity.
  - destruct (k0 =? k)%string eqn:E; simpl.
    + apply String.eqb_eq in E. subst k0. rewrite Hkk. reflexivity.
    + destruct (k0 =? k')%string; [reflexivity|exact IH].
Qed.

Lemma map_get_delete_other {V : Type} (k k' : string) (m : JsMap string V) :
  k' <> k -> map_get String.eqb k' (map_delete String.eqb k m) = map_get String.eqb k' m.
Proof.
  intros Hne. unfold map_get, map_delete.
  induction m as [|[k0 v0] m IH]; simpl; [reflexivity|].
  destruct (k0 =? k)%string eqn:E; simpl.
  - apply String.eqb_eq in E. subst k0.
    assert (Hkk : (k =? k')%string = false) by (apply String.eqb_neq; congruence).
    rewrite Hkk. exact IH.
  - destruct (k0 =? k')%string; [reflexivity|exact IH].
Qed.

(** ** The invariant of a connection *)

Lemma conn_inv_same_core (c c' : GatewayConnection) :
  same_core c c' -> conn_inv c -> conn_inv c'.
Proof.
  intros (Hc & Hp & Hcl & Hw & _) [H1 H2]. unfold conn_inv. observers.
  rewrite Hc, Hp, Hcl, Hw. split; assumption.
Qed.

Lemma conn_inv_new (tok : JsVal) (e0 : nat) : conn_inv (newConnection tok e0).
Proof.
  split; simpl; [intros id n []|discriminate].
Qed.

Lemma conn_inv_request (method : string) (payload : JsVal) (timeoutMs : Z)
    (c : GatewayConnection) :
  conn_inv c -> conn_inv (fst (request method payload timeoutMs c)).
Proof.
  intros H.
  destruct (ws c) as [[]|] eqn:Hws; destruct H as [H1 H2].
  2: {
    destruct (request_open method payload timeoutMs c Hws) as (_ & Hc & Hp & Hcl & Hw & _).
    split.
    - intros id n Hin. rewrite Hp in Hin.
      apply In_map_set in Hin. destruct Hin as [[-> ->]|Hold].
      + destruct (observers_new c _ _ Hc) as (Hi & Hpr & Ht).
        rewrite Hi, Hpr, Ht. simpl. split; [eexists; reflexivity|split; reflexivity].
      + destruct (H1 id n Hold) as ([m Hi] & Hpr & Ht).
        assert (Hn : (n < List.length (calls c))%nat)
          by (apply callInfo_in_range; congruence).
        destruct (observers_app c _ _ n Hc Hn) as (Hi' & Hpr' & Ht').
        rewrite Hi', Hpr', Ht'. split; [exists m; exact Hi|split; assumption].
    - rewrite Hcl, Hw. intros Hclosed. destruct (H2 Hclosed) as [_ Hnone]. congruence.
  }
  all: assert (Hno : ws c <> Some OPEN) by congruence;
    destruct (request_not_open method payload timeoutMs c Hno) as (Hc & Hp & Hcl & Hw);
    split;
    [ intros id n Hin; rewrite Hp in Hin;
      destruct (H1 id n Hin) as ([m Hi] & Hpr & Ht);
      assert (Hn : (n < List.length (calls c))%nat)
        by (apply callInfo_in_range; congruence);
      destruct (observers_app c _ _ n Hc Hn) as (Hi' & Hpr' & Ht');
      rewrite Hi', Hpr', Ht'; split; [exists m; exact Hi|split; assumption]
    | rewrite Hcl, Hp, Hw; exact H2 ].
Qed.

Lemma observers_awaiter (a : Awaiter) (n m : nat) (c : GatewayConnection) :
  let c' := set_calls (update_nth n (with_awaiter a) (calls c)) c in
  callInfo m c' = callInfo m c /\ promise m c' = promise m c /\
  timerArmed m c' = timerArmed m c.
Proof.
  intros c'. subst c'. observers. simpl. rewrite nth_error_update_nth.
  destruct (Nat.eqb m n); [|repeat split].
  destruct (nth_error (calls c) m); repeat split.
Qed.

Lemma conn_inv_awaiter (a : Awaiter) (n : nat) (c : GatewayConnection) :
  conn_inv c -> conn_inv (set_calls (update_nth n (with_awaiter a) (calls c)) c).
Proof.
  intros [H1 H2]. split; [|exact H2].
  intros id m Hin. simpl in Hin.
  destruct (observers_awaiter a n m c) as (Hi & Hp & Ht).
  rewrite Hi, Hp, Ht. exact (H1 id m Hin).
Qed.

Lemma conn_inv_sendConnect (c : GatewayConnection) :
  conn_inv c -> conn_inv (sendConnect c).
Proof.
  intros H. unfold sendConnect.
  pose proof (conn_inv_request "connect" (connectPayload (token c)) 12000 c H) as Hr.
  destruct (request "connect" (connectPayload (token c)) 12000 c) as [c1 n]. simpl in Hr.
  pose proof (conn_inv_awaiter SendConnect n c1 Hr) as Ha.
  destruct (nth_error _ n) as [k|]; [|exact Ha].
  destruct (call_promise k) as [s|]; [|exact Ha].
  exact (conn_inv_same_core _ _ (afterConnect_core s _) Ha).
Qed.

(** Taking a call out of [pending]: its timer is cleared, its entry deleted
    and its promise settled. *)
Lemma conn_inv_retire (c : GatewayConnection) (n : nat) (id : string) (s : Settlement) :
  conn_inv c ->
  (exists method, callInfo n c = Some (id, method)) ->
  conn_inv (settlePromise n s
              (set_pending (map_delete String.eqb id (pending (clearTimeout n c)))
                 (clearTimeout n c))).
Proof.
  intros [H1 H2] [method Hn].
  set (c2 := set_pending _ _).
  destruct (settlePromise_core n s c2) as (_ & Hp & Hcl & Hw & _).
  split.
  - intros id' m Hin. rewrite Hp in Hin. simpl in Hin.
    apply In_map_delete in Hin. destruct Hin as [Hin Hne].
    destruct (H1 id' m Hin) as ([method' Hi] & Hpr & Ht).
    assert (Hmn : m <> n) by (intros ->; congruence).
    rewrite callInfo_settle, timerArmed_settle, promise_settle_other by exact Hmn.
    unfold c2.
    change (callInfo m (set_pending ?p ?x)) with (callInfo m x).
    change (promise m (set_pending ?p ?x)) with (promise m x).
    change (timerArmed m (set_pending ?p ?x)) with (timerArmed m x).
    rewrite callInfo_clear, promise_clear, timerArmed_clear.
    destruct (Nat.eqb_spec m n); [contradiction|].
    split; [exists method'; exact Hi|split; assumption].
  - rewrite Hcl, Hp, Hw. simpl. intros Hclosed.
    destruct (H2 Hclosed) as [Hnil Hnone]. rewrite Hnil. split; [reflexivity|exact Hnone].
Qed.

Lemma conn_inv_onMessage (frame : JsVal) (c : GatewayConnection) :
  conn_inv c -> conn_inv (fst (onMessage frame c)).
Proof.
  intros H. unfold onMessage.
  destruct (negb (truthy frame)); [exact H|].
  destruct (if truthy (prop frame "id") then pendingFor (prop frame "id") c else None)
    as [n|] eqn:Hfor.
  - destruct (truthy (prop frame "id")); [|discriminate].
    unfold pendingFor in Hfor.
    destruct (prop frame "id") as [| | | |sid| |] eqn:Hid; try discriminate.
    apply map_get_In in Hfor.
    destruct H as [H1 H2]. destruct (H1 sid n Hfor) as (Hi & _).
    unfold pendingDelete.
    destruct (is_false (prop frame "ok")); simpl;
      apply conn_inv_retire; (split; assumption) || exact Hi.
  - destruct (is_str (prop frame "type") "connect.challenge"
              || is_str (prop frame "event") "connect.challenge"); simpl;
      [apply conn_inv_sendConnect|]; exact H.
Qed.

Lemma conn_inv_onTimeout (n : nat) (c : GatewayConnection) :
  conn_inv c -> conn_inv (onTimeout n c).
Proof.
  intros H. unfold onTimeout.
  destruct (nth_error (calls c) n) as [k|] eqn:Hk; [|exact H].
  destruct (call_timer k); [|exact H].
  apply conn_inv_retire; [exact H|].
  exists (call_method k). observers. rewrite Hk. reflexivity.
Qed.

Lemma rejectClosing_core (c : GatewayConnection) (n : nat) :
  pending (rejectClosing c n) = pending c /\ closed (rejectClosing c n) = closed c /\
  ws (rejectClosing c n) = ws c /\ draws (rejectClosing c n) = draws c.
Proof.
  unfold rejectClosing.
  destruct (settlePromise_core n (Rejected "Gateway connection closing") (clearTimeout n c))
    as (_ & Hp & Hcl & Hw & Hd).
  rewrite Hp, Hcl, Hw, Hd. repeat split.
Qed.

Lemma fold_rejectClosing_core (vs : list nat) (c : GatewayConnection) :
  pending (fold_left rejectClosing vs c) = pending c /\
  closed (fold_left rejectClosing vs c) = closed c /\
  ws (fold_left rejectClosing vs c) = ws c /\
  draws (fold_left rejectClosing vs c) = draws c.
Proof.
  revert c. induction vs as [|v vs IH]; intros c; simpl; [repeat split|].
  destruct (IH (rejectClosing c v)) as (Hp & Hcl & Hw & Hd).
  destruct (rejectClosing_core c v) as (Hp' & Hcl' & Hw' & Hd').
  rewrite Hp, Hcl, Hw, Hd, Hp', Hcl', Hw', Hd'. repeat split.
Qed.

(** After [close] the connection is closed, without entries and without a
    socket. *)
Lemma close_closed (c : GatewayConnection) :
  closed c = false ->
  closed (close c) = true /\ pending (close c) = [] /\ ws (close c) = None.
Proof.
  intros Hc. unfold close. rewrite Hc.
  set (c1 := set_connected false (set_closed true c)).
  destruct (fold_rejectClosing_core (map_values (pending c1)) c1) as (_ & Hcl & Hw & _).
  destruct (ws (set_pending [] (fold_left rejectClosing (map_values (pending c1)) c1))) eqn:E;
    simpl in *; rewrite Hcl; repeat split; exact E.
Qed.

Lemma conn_inv_close (c : GatewayConnection) : conn_inv c -> conn_inv (close c).
Proof.
  intros H. destruct (closed c) eqn:Hc.
  - unfold close. rewrite Hc. exact H.
  - destruct (close_closed c Hc) as (Hcl & Hp & Hw).
    split; [rewrite Hp; intros id n []|intros _; split; assumption].
Qed.

Lemma conn_inv_step (c : GatewayConnection) (e : ConnEvent) :
  conn_inv c -> conn_inv (conn_step c e).
Proof.
  intros H. destruct e; simpl.
  - destruct H as [H1 _]. split; [exact H1|discriminate].
  - apply conn_inv_request. exact H.
  - apply conn_inv_onMessage. exact H.
  - apply conn_inv_onTimeout. exact H.
  - unfold onFrame. destruct (existsb (Nat.eqb h) (handlers c)); exact H.
  - exact H.
  - destruct H as [H1 H2]. split; [exact H1|]. simpl. intros Hc.
    destruct (H2 Hc) as [Hp Hw]. rewrite Hw. split; [exact Hp|reflexivity].
  - unfold onFallback. destruct (fallbackTimer c); [|exact H].
    apply conn_inv_sendConnect. exact H.
  - unfold onConnectTimeout. destruct (connectTimeout c); [|exact H].
    refine (conn_inv_same_core _ _ (settle_core _ _) _). exact H.
  - unfold onError.
    pose proof (conn_inv_same_core _ _ (settle_core (Rejected message) c) H) as Hs.
    destruct (closeWaiter (settle (Rejected message) c)); exact Hs.
  - unfold onClose.
    assert (Hs : conn_inv (if connected c then c
                           else settle (Rejected "Gateway closed before connect") c)).
    { destruct (connected c); [exact H|].
      exact (conn_inv_same_core _ _ (settle_core _ _) H). }
    set (c1 := if connected c then c else settle _ c) in *.
    assert (H2 : conn_inv (set_ws (option_map (fun _ => CLOSED) (ws c1)) c1)).
    { destruct Hs as [G1 G2]. split; [exact G1|]. simpl. intros Hc.
      destruct (G2 Hc) as [Hp Hw]. rewrite Hw. split; [exact Hp|reflexivity]. }
    destruct (closeWaiter _); exact H2.
  - unfold waitForClose. destruct (ws c); exact H.
  - apply conn_inv_close. exact H.
Qed.

Lemma conn_inv_run (es : list ConnEvent) (c : GatewayConnection) :
  conn_inv c -> conn_inv (conn_run c es).
Proof.
  revert c. unfold conn_run.
  induction es as [|e es IH]; intros c H; simpl; [exact H|].
  apply IH. apply conn_inv_step. exact H.
Qed.

(** The effects of taking call [n], registered under [id], out of
    [pending]. *)
Lemma retire_effects (c : GatewayConnection) (n : nat) (id : string) (s : Settlement) :
  callInfo n c <> None -> promise n c = None ->
  let c' := settlePromise n s
              (set_pending (map_delete String.eqb id (pending (clearTimeout n c)))
                 (clearTimeout n c)) in
  promise n c' = Some s /\ timerArmed n c' = false /\
  map_get String.eqb id (pending c') = None /\
  (forall m, m <> n ->
     promise m c' = promise m c /\ timerArmed m c' = timerArmed m c) /\
  (forall m, callInfo m c' = callInfo m c) /\
  (forall id', id' <> id ->
     map_get String.eqb id' (pending c') = map_get String.eqb id' (pending c)) /\
  draws c' = draws c /\ ws c' = ws c /\ handlers c' = handlers c.
Proof.
  intros Hi Hp c'. subst c'.
  set (c2 := set_pending _ _).
  assert (Hi2 : forall m, callInfo m c2 = callInfo m c)
    by (intros m; apply (callInfo_clear n m c)).
  assert (Hp2 : forall m, promise m c2 = promise m c)
    by (intros m; apply (promise_clear n m c)).
  assert (Ht2 : forall m, timerArmed m c2 = if Nat.eqb m n then false else timerArmed m c)
    by (intros m; apply (timerArmed_clear n m c)).
  destruct (settlePromise_core n s c2) as (_ & Hpe & _ & Hw & Hd).
  split; [apply promise_settle_same; [rewrite Hi2; exact Hi|rewrite Hp2; exact Hp]|].
  split; [rewrite timerArmed_settle, Ht2, Nat.eqb_refl; reflexivity|].
  split; [rewrite Hpe; apply map_get_delete_same|].
  split.
  { intros m Hm. rewrite promise_settle_other by exact Hm.
    rewrite timerArmed_settle, Hp2, Ht2.
    destruct (Nat.eqb_spec m n); [contradiction|]. split; reflexivity. }
  split; [intros m; rewrite callInfo_settle; apply Hi2|].
  split; [intros id' Hne; rewrite Hpe; apply map_get_delete_other; exact Hne|].
  split; [rewrite Hd; reflexivity|].
  split; [rewrite Hw; reflexivity|].
  unfold settlePromise.
  destruct (nth_error (calls c2) n) as [k|]; [|reflexivity].
  destruct (call_promise k); [reflexivity|].
  destruct (call_awaiter k); [reflexivity|].
  unfold afterConnect, settle. simpl.
  destruct s as [response|err].
  - destruct (negb (is_str (coalesce (prop response "type") (prop response "event")) "hello-ok"));
      simpl; destruct (settled c); reflexivity.
  - destruct (settled c); reflexivity.
Qed.

(** A response frame whose [id] is that of a pending request settles the
    promise of that request and no other, and deletes its entry and no
    other. *)
Lemma response_correlates (c : GatewayConnection) (frame : JsVal) (id : string) (n : nat) :
  conn_inv c ->
  prop frame "id" = JStr id -> id <> "" ->
  map_get String.eqb id (pending c) = Some n ->
  let s := if is_false (prop frame "ok")
           then Rejected (toString (coalesce (prop (prop frame "error") "message")
                                      (JStr "Gateway RPC error")))
           else Fulfilled (responseValue frame) in
  let c' := fst (onMessage frame c) in
  snd (onMessage frame c) = Correlated n /\
  promise n c' = Some s /\ timerArmed n c' = false /\
  map_get String.eqb id (pending c') = None /\
  (forall m, m <> n ->
     promise m c' = promise m c /\ timerArmed m c' = timerArmed m c) /\
  (forall m, callInfo m c' = callInfo m c) /\
  (forall id', id' <> id ->
     map_get String.eqb id' (pending c') = map_get String.eqb id' (pending c)) /\
  draws c' = draws c /\ ws c' = ws c /\ handlers c' = handlers c.
Proof.
  intros [H1 _] Hid Hne Hget s c'.
  destruct (H1 id n (map_get_In _ _ _ Hget)) as ([method Hi] & Hp & _).
  assert (Htruthy : truthy frame = true).
  { destruct frame; simpl in Hid; try discriminate. reflexivity. }
  assert (Hidt : truthy (JStr id) = true).
  { simpl. destruct (id =? "")%string eqn:E; [|reflexivity].
    apply String.eqb_eq in E. contradiction. }
  assert (Hi' : callInfo n c <> None) by congruence.
  subst s c'. unfold onMessage.
  rewrite Htruthy, Hid, Hidt. simpl. rewrite Hget.
  unfold pendingDelete.
  destruct (is_false (prop frame "ok")); simpl;
    (split; [reflexivity|]); apply retire_effects; assumption.
Qed.

(** What [request] registers on an open socket. *)
Lemma request_registers (method : string) (payload : JsVal) (timeoutMs : Z)
    (c : GatewayConnection) :
  conn_inv c -> ws c = Some OPEN ->
  let id := randomUUID (draws c) in
  let c' := fst (request method payload timeoutMs c) in
  let n := snd (request method payload timeoutMs c) in
  map_get String.eqb id (pending c') = Some n /\
  callInfo n c' = Some (id, method) /\ promise n c' = None /\ timerArmed n c' = true /\
  (forall id', id' <> id ->
     map_get String.eqb id' (pending c') = map_get String.eqb id' (pending c)) /\
  (forall m, callInfo m c <> None ->
     m <> n /\ callInfo m c' = callInfo m c /\ promise m c' = promise m c /\
     timerArmed m c' = timerArmed m c) /\
  draws c' = S (draws c) /\ ws c' = Some OPEN /\ conn_inv c'.
Proof.
  intros Hinv Hws id c' n.
  destruct (request_open method payload timeoutMs c Hws) as (Hn & Hc & Hp & _ & Hw & Hd).
  fold c' in Hc, Hp, Hw, Hd. fold n in Hn.
  destruct (observers_new c c' _ Hc) as (Hi & Hpr & Ht). rewrite <- Hn in Hi, Hpr, Ht.
  split; [rewrite Hp, Hn; apply map_get_set_same; apply String.eqb_refl|].
  split; [exact Hi|]. split; [exact Hpr|]. split; [exact Ht|].
  split; [intros id' Hne; rewrite Hp; apply map_get_set_other; exact Hne|].
  split.
  { intros m Hm. apply callInfo_in_range in Hm.
    split; [rewrite Hn; lia|]. apply (observers_app c c' _ m Hc Hm). }
  split; [exact Hd|]. split; [rewrite Hw; exact Hws|].
  apply conn_inv_request. exact Hinv.
Qed.

(** Two pending requests, the response of the second arriving first. *)
Lemma pending_pair (c : GatewayConnection) (idX idY : string) (x y : nat)
    (frameX frameY : JsVal) :
  conn_inv c ->
  map_get String.eqb idX (pending c) = Some x ->
  map_get String.eqb idY (pending c) = Some y ->
  idX <> idY -> idX <> "" -> idY <> "" ->
  prop frameX "id" = JStr idX -> is_false (prop frameX "ok") = false ->
  prop frameY "id" = JStr idY -> is_false (prop frameY "ok") = false ->
  let c1 := fst (onMessage frameY c) in
  let c2 := fst (onMessage frameX c1) in
  x <> y /\
  snd (onMessage frameY c) = Correlated y /\
  promise y c1 = Some (Fulfilled (responseValue frameY)) /\
  map_get String.eqb idY (pending c1) = None /\
  promise x c1 = None /\
  map_get String.eqb idX (pending c1) = Some x /\
  timerArmed x c1 = true /\
  snd (onMessage frameX c1) = Correlated x /\
  promise x c2 = Some (Fulfilled (responseValue frameX)) /\
  promise y c2 = Some (Fulfilled (responseValue frameY)) /\
  conn_inv c1.
Proof.
  intros Hinv Hx Hy Hne HxE HyE HidX HokX HidY HokY c1 c2.
  pose proof Hinv as [H1 _].
  destruct (H1 idX x (map_get_In _ _ _ Hx)) as ([mX HiX] & HpX & HtX).
  destruct (H1 idY y (map_get_In _ _ _ Hy)) as ([mY HiY] & HpY & HtY).
  assert (Hxy : x <> y) by (intros ->; congruence).
  destruct (response_correlates c frameY idY y Hinv HidY HyE Hy)
    as (Hr & Hp & _ & Hgone & Hothers & _ & Hkeys & _).
  rewrite HokY in Hp. fold c1 in Hp, Hgone, Hothers, Hkeys.
  assert (Hinv1 : conn_inv c1) by (apply conn_inv_onMessage; exact Hinv).
  assert (Hx1 : map_get String.eqb idX (pending c1) = Some x)
    by (rewrite Hkeys by exact Hne; exact Hx).
  destruct (Hothers x Hxy) as [Hpx Htx].
  destruct (response_correlates c1 frameX idX x Hinv1 HidX HxE Hx1)
    as (Hr2 & Hp2 & _ & _ & Hothers2 & _).
  rewrite HokX in Hp2. fold c2 in Hp2, Hothers2.
  assert (Hyx : y <> x) by congruence.
  destruct (Hothers2 y Hyx) as [Hpy2 _].
  split; [exact Hxy|]. split; [exact Hr|]. split; [exact Hp|].
  split; [exact Hgone|]. split; [congruence|]. split; [exact Hx1|].
  split; [congruence|]. split; [exact Hr2|]. split; [exact Hp2|].
  split; [congruence|exact Hinv1].
Qed.

(** The timer of a pending request fires. *)
Lemma timeout_effects (c : GatewayConnection) (id : string) (n : nat) :
  conn_inv c ->
  map_get String.eqb id (pending c) = Some n ->
  let c' := onTimeout n c in
  exists method,
    callInfo n c = Some (id, method) /\
    promise n c = None /\
    promise n c' = Some (Rejected ("Gateway RPC timeout for " ++ method)%string) /\
    timerArmed n c' = false /\
    map_get String.eqb id (pending c') = None /\
    (forall m, m <> n ->
       promise m c' = promise m c /\ timerArmed m c' = timerArmed m c) /\
    (forall id', id' <> id ->
       map_get String.eqb id' (pending c') = map_get String.eqb id' (pending c)).
Proof.
  intros [H1 _] Hget c'.
  destruct (H1 id n (map_get_In _ _ _ Hget)) as ([method Hi] & Hp & Ht).
  exists method. split; [exact Hi|]. split; [exact Hp|].
  assert (Hi' : callInfo n c <> None) by congruence.
  subst c'. unfold onTimeout. observers.
  destruct (nth_error (calls c) n) as [k|] eqn:Hk; [|discriminate].
  rewrite Ht. injection Hi as <- <-.
  fold (promise n c) in Hp.
  assert (Hi2 : callInfo n c <> None) by (unfold callInfo; rewrite Hk; discriminate).
  assert (Hp2 : promise n c = None) by (unfold promise; rewrite Hk; exact Hp).
  destruct (retire_effects c n (call_id k)
              (Rejected ("Gateway RPC timeout for " ++ call_method k)%string) Hi2 Hp2)
    as (G1 & G2 & G3 & G4 & _ & G6 & _).
  unfold promise, timerArmed in G1, G2, G4.
  repeat split; try assumption; apply G4; assumption.
Qed.

(** A frame whose [id] has no entry goes to the handlers, or is a challenge;
    the connection is as it was. *)
Lemma unmatched_frame (c : GatewayConnection) (frame : JsVal) (id : string) :
  prop frame "id" = JStr id ->
  map_get String.eqb id (pending c) = None ->
  is_str (prop frame "type") "connect.challenge"
  || is_str (prop frame "event") "connect.challenge" = false ->
  onMessage frame c = (c, ToHandlers (handlers c) frame).
Proof.
  intros Hid Hnone Hch. unfold onMessage.
  assert (Htruthy : truthy frame = true).
  { destruct frame; simpl in Hid; try discriminate. reflexivity. }
  rewrite Htruthy, Hid. simpl. rewrite Hnone, Hch.
  destruct (negb (id =? ""))%string; reflexivity.
Qed.

(** ** The identity of a call is fixed *)

Lemma callInfo_sendConnect (c : GatewayConnection) (n : nat) (x : string * string) :
  callInfo n c = Some x -> callInfo n (sendConnect c) = Some x.
Proof.
  intros H. unfold sendConnect.
  assert (Hn : (n < List.length (calls c))%nat)
    by (apply callInfo_in_range; congruence).
  assert (Hr : callInfo n (fst (request "connect" (connectPayload (token c)) 12000 c)) = Some x).
  { destruct (ws c) as [[]|] eqn:Hws.
    2: { destruct (request_open "connect" (connectPayload (token c)) 12000 c Hws)
           as (_ & Hc & _).
         destruct (observers_app c _ _ n Hc Hn) as (Hi & _). rewrite Hi. exact H. }
    all: assert (Hno : ws c <> Some OPEN) by congruence;
      destruct (request_not_open "connect" (connectPayload (token c)) 12000 c Hno)
        as (Hc & _);
      destruct (observers_app c _ _ n Hc Hn) as (Hi & _); rewrite Hi; exact H. }
  destruct (request "connect" (connectPayload (token c)) 12000 c) as [c1 m]. simpl in Hr.
  destruct (observers_awaiter SendConnect m n c1) as (Hi & _).
  destruct (nth_error _ m) as [k|]; [|rewrite Hi; exact Hr].
  destruct (call_promise k) as [s|]; [|rewrite Hi; exact Hr].
  destruct (afterConnect_core s (set_calls (update_nth m (with_awaiter SendConnect) (calls c1)) c1))
    as (Hc & _).
  unfold callInfo in *. rewrite Hc, Hi. exact Hr.
Qed.

Lemma callInfo_fold_reject (vs : list nat) (c : GatewayConnection) (n : nat) :
  callInfo n (fold_left rejectClosing vs c) = callInfo n c.
Proof.
  revert c. induction vs as [|v vs IH]; intros c; simpl; [reflexivity|].
  rewrite IH. unfold rejectClosing. rewrite callInfo_settle. apply callInfo_clear.
Qed.

Lemma callInfo_step (c : GatewayConnection) (e : ConnEvent) (n : nat) (x : string * string) :
  callInfo n c = Some x -> callInfo n (conn_step c e) = Some x.
Proof.
  intros H.
  assert (Hn : (n < List.length (calls c))%nat)
    by (apply callInfo_in_range; congruence).
  destruct e; simpl; try exact H.
  - destruct (ws c) as [[]|] eqn:Hws.
    2: { destruct (request_open method payload timeoutMs c Hws) as (_ & Hc & _).
         destruct (observers_app c _ _ n Hc Hn) as (Hi & _). rewrite Hi. exact H. }
    all: assert (Hno : ws c <> Some OPEN) by congruence;
      destruct (request_not_open method payload timeoutMs c Hno) as (Hc & _);
      destruct (observers_app c _ _ n Hc Hn) as (Hi & _); rewrite Hi; exact H.
  - unfold onMessage.
    destruct (negb (truthy frame)); [exact H|].
    destruct (if truthy (prop frame "id") then pendingFor (prop frame "id") c else None)
      as [m|].
    + assert (Hd : callInfo n (pendingDelete (prop frame "id") (clearTimeout m c)) = Some x).
      { unfold pendingDelete. destruct (prop frame "id");
          try (rewrite callInfo_clear; exact H).
        change (callInfo n (set_pending ?p ?y)) with (callInfo n y).
        rewrite callInfo_clear. exact H. }
      destruct (is_false (prop frame "ok")); simpl; rewrite callInfo_settle; exact Hd.
    + destruct (is_str (prop frame "type") "connect.challenge"
                || is_str (prop frame "event") "connect.challenge"); simpl;
        [apply callInfo_sendConnect|]; exact H.
  - unfold onTimeout.
    destruct (nth_error (calls c) n0) as [k|]; [|exact H].
    destruct (call_timer k); [|exact H].
    rewrite callInfo_settle.
    change (callInfo n (set_pending ?p ?y)) with (callInfo n y).
    rewrite callInfo_clear. exact H.
  - unfold onFrame. destruct (existsb (Nat.eqb h) (handlers c)); exact H.
  - unfold onFallback. destruct (fallbackTimer c); [|exact H].
    apply callInfo_sendConnect. exact H.
  - unfold onConnectTimeout. destruct (connectTimeout c); [|exact H].
    unfold settle. simpl. destruct (settled c); exact H.
  - unfold onError, settle. destruct (settled c); simpl;
      destruct (closeWaiter c); exact H.
  - unfold onClose, settle.
    destruct (connected c); simpl; [destruct (closeWaiter c); exact H|].
    destruct (settled c); simpl; destruct (closeWaiter c); exact H.
  - unfold waitForClose. destruct (ws c); exact H.
  - unfold close. destruct (closed c); [exact H|].
    match goal with
    | |- callInfo n (match ws ?y with _ => _ end) = _ =>
        assert (Hf : callInfo n y = Some x)
    end.
    { change (callInfo n (set_pending ?p ?y)) with (callInfo n y).
      rewrite callInfo_fold_reject. exact H. }
    destruct (ws _); exact Hf.
Qed.

Lemma callInfo_run (es : list ConnEvent) (c : GatewayConnection) (n : nat) (x : string * string) :
  callInfo n c = Some x -> callInfo n (conn_run c es) = Some x.
Proof.
  revert c. unfold conn_run.
  induction es as [|e es IH]; intros c H; simpl; [exact H|].
  apply IH. apply callInfo_step. exact H.
Qed.

(** ** Correlation of responses *)

(** C3. Two requests A then B on an open connection, with distinct
    identifiers.  If the response of B comes first it settles the promise of
    B with the payload of B and deletes the entry of B only: A stays pending,
    its timer set, until its own response settles it with the payload of A or
    its timer rejects it.  The same holds with the response of A first. *)
Theorem out_of_order_responses (tok : JsVal) (e0 : nat) (es : list ConnEvent)
    (methodA methodB : string) (paramsA paramsB : JsVal) (timeoutA timeoutB : Z)
    (frameA frameB : JsVal) :
  let c := conn_run (newConnection tok e0) es in
  let idA := randomUUID (draws c) in
  let idB := randomUUID (S (draws c)) in
  let cA := fst (request methodA paramsA timeoutA c) in
  let a := snd (request methodA paramsA timeoutA c) in
  let cB := fst (request methodB paramsB timeoutB cA) in
  let b := snd (request methodB paramsB timeoutB cA) in
  ws c = Some OPEN ->
  idA <> idB -> idA <> "" -> idB <> "" ->
  prop frameA "id" = JStr idA -> is_false (prop frameA "ok") = false ->
  prop frameB "id" = JStr idB -> is_false (prop frameB "ok") = false ->
  a <> b /\
  (let c1 := fst (onMessage frameB cB) in
   let c2 := fst (onMessage frameA c1) in
   snd (onMessage frameB cB) = Correlated b /\
   promise b c1 = Some (Fulfilled (responseValue frameB)) /\
   map_get String.eqb idB (pending c1) = None /\
   promise a c1 = None /\
   map_get String.eqb idA (pending c1) = Some a /\
   timerArmed a c1 = true /\
   snd (onMessage frameA c1) = Correlated a /\
   promise a c2 = Some (Fulfilled (responseValue frameA)) /\
   promise b c2 = Some (Fulfilled (responseValue frameB)) /\
   promise a (onTimeout a c1)
   = Some (Rejected ("Gateway RPC timeout for " ++ methodA)%string)) /\
  (let c1 := fst (onMessage frameA cB) in
   let c2 := fst (onMessage frameB c1) in
   snd (onMessage frameA cB) = Correlated a /\
   promise a c1 = Some (Fulfilled (responseValue frameA)) /\
   map_get String.eqb idA (pending c1) = None /\
   promise b c1 = None /\
   map_get String.eqb idB (pending c1) = Some b /\
   timerArmed b c1 = true /\
   snd (onMessage frameB c1) = Correlated b /\
   promise b c2 = Some (Fulfilled (responseValue frameB)) /\
   promise a c2 = Some (Fulfilled (responseValue frameA)) /\
   promise b (onTimeout b c1)
   = Some (Rejected ("Gateway RPC timeout for " ++ methodB)%string)).
Proof.
  intros c idA idB cA a cB b Hws Hne HA HB HidA HokA HidB HokB.
  assert (Hinv : conn_inv c) by (apply conn_inv_run, conn_inv_new).
  destruct (request_registers methodA paramsA timeoutA c Hinv Hws)
    as (HgA & HiA & HpA & HtA & _ & _ & HdA & HwA & HinvA).
  fold idA cA a in HgA, HiA, HpA, HtA, HdA, HwA, HinvA.
  destruct (request_registers methodB paramsB timeoutB cA HinvA HwA)
    as (HgB & HiB & HpB & HtB & HkB & HoB & _ & _ & HinvB).
  rewrite HdA in HgB, HiB, HkB. fold idB cB b in HgB, HiB, HpB, HtB, HkB, HoB, HinvB.
  assert (HgA' : map_get String.eqb idA (pending cB) = Some a)
    by (rewrite HkB by exact Hne; exact HgA).
  assert (HiA' : callInfo a cB = Some (idA, methodA)).
  { destruct (HoB a) as (_ & Hi & _); [congruence|]. rewrite Hi. exact HiA. }
  assert (Hne' : idB <> idA) by congruence.
  destruct (pending_pair cB idA idB a b frameA frameB HinvB HgA' HgB Hne HA HB
              HidA HokA HidB HokB)
    as (Hab & F1 & F2 & F3 & F4 & F5 & F6 & F7 & F8 & F9 & Finv).
  destruct (pending_pair cB idB idA b a frameB frameA HinvB HgB HgA' Hne' HB HA
              HidB HokB HidA HokA)
    as (_ & G1 & G2 & G3 & G4 & G5 & G6 & G7 & G8 & G9 & Ginv).
  split; [exact Hab|]. split.
  - repeat (split; [assumption|]).
    destruct (timeout_effects _ idA a Finv F5) as (method & Hi & _ & Hrej & _).
    assert (Hi0 : callInfo a (fst (onMessage frameB cB)) = Some (idA, methodA))
      by (apply (callInfo_step cB (EvMessage frameB)); exact HiA').
    rewrite Hi0 in Hi. injection Hi as <-. exact Hrej.
  - repeat (split; [assumption|]).
    destruct (timeout_effects _ idB b Ginv G5) as (method & Hi & _ & Hrej & _).
    assert (Hi0 : callInfo b (fst (onMessage frameA cB)) = Some (idB, methodB))
      by (apply (callInfo_step cB (EvMessage frameA)); exact HiB).
    rewrite Hi0 in Hi. injection Hi as <-. exact Hrej.
Qed.

(** C4. A request that is still registered when its timer fires is rejected
    with the timeout error of its method and its entry is deleted.  A
    response with its identifier that comes afterwards finds no entry:
    it settles no promise and leaves the connection as it was, and goes to
    the handlers like any other unmatched frame. *)
Theorem request_timeout (tok : JsVal) (e0 : nat) (es es' : list ConnEvent)
    (method : string) (params : JsVal) (timeoutMs : Z) (frame : JsVal) :
  let c0 := conn_run (newConnection tok e0) es in
  let id := randomUUID (draws c0) in
  let n := snd (request method params timeoutMs c0) in
  let c := conn_run (fst (request method params timeoutMs c0)) es' in
  let c' := onTimeout n c in
  ws c0 = Some OPEN ->
  map_get String.eqb id (pending c) = Some n ->
  promise n c = None /\
  promise n c' = Some (Rejected ("Gateway RPC timeout for " ++ method)%string) /\
  map_get String.eqb id (pending c') = None /\
  (forall m, m <> n -> promise m c' = promise m c) /\
  (prop frame "id" = JStr id ->
   is_str (prop frame "type") "connect.challenge"
   || is_str (prop frame "event") "connect.challenge" = false ->
   onMessage frame c' = (c', ToHandlers (handlers c') frame)).
Proof.
  intros c0 id n c c' Hws Hget.
  assert (Hinv0 : conn_inv c0) by (apply conn_inv_run, conn_inv_new).
  destruct (request_registers method params timeoutMs c0 Hinv0 Hws)
    as (_ & Hi & _ & _ & _ & _ & _ & _ & Hinv1).
  fold id n in Hi.
  assert (Hinv : conn_inv c) by (apply conn_inv_run; exact Hinv1).
  assert (Hic : callInfo n c = Some (id, method)) by (apply callInfo_run; exact Hi).
  destruct (timeout_effects c id n Hinv Hget)
    as (method' & Hi' & Hp & Hrej & _ & Hgone & Hothers & _).
  rewrite Hic in Hi'. injection Hi' as <-.
  fold c' in Hrej, Hgone, Hothers.
  split; [exact Hp|]. split; [exact Hrej|]. split; [exact Hgone|].
  split; [intros m Hm; apply Hothers; exact Hm|].
  intros Hid Hch. apply (unmatched_frame c' frame id Hid Hgone Hch).
Qed.

(** ** Closing *)

Lemma fold_reject_kept (vs : list nat) (c : GatewayConnection) (n : nat) :
  (forall s, promise n c = Some s -> promise n (fold_left rejectClosing vs c) = Some s) /\
  (timerArmed n c = false -> timerArmed n (fold_left rejectClosing vs c) = false).
Proof.
  revert c. induction vs as [|v vs IH]; intros c; simpl; [split; auto|].
  destruct (IH (rejectClosing c v)) as [IHp IHt]. split.
  - intros s Hs. apply IHp. unfold rejectClosing.
    apply promise_settle_kept. rewrite promise_clear. exact Hs.
  - intros Ht. apply IHt. unfold rejectClosing.
    rewrite timerArmed_settle, timerArmed_clear, Ht.
    destruct (Nat.eqb n v); reflexivity.
Qed.

Lemma fold_reject_effects (vs : list nat) (c : GatewayConnection) (n : nat) :
  In n vs -> callInfo n c <> None -> promise n c = None ->
  promise n (fold_left rejectClosing vs c) = Some (Rejected "Gateway connection closing") /\
  timerArmed n (fold_left rejectClosing vs c) = false.
Proof.
  revert c. induction vs as [|v vs IH]; intros c Hin Hi Hp; [destruct Hin|]. simpl.
  destruct (Nat.eq_dec v n) as [->|Hne].
  - destruct (fold_reject_kept vs (rejectClosing c n) n) as [Kp Kt].
    split.
    + apply Kp. unfold rejectClosing. apply promise_settle_same.
      * rewrite callInfo_clear. exact Hi.
      * rewrite promise_clear. exact Hp.
    + apply Kt. unfold rejectClosing.
      rewrite timerArmed_settle, timerArmed_clear, Nat.eqb_refl. reflexivity.
  - destruct Hin as [Heq|Hin]; [contradiction|].
    apply IH; [exact Hin| |]; unfold rejectClosing.
    + rewrite callInfo_settle, callInfo_clear. exact Hi.
    + rewrite promise_settle_other by congruence. rewrite promise_clear. exact Hp.
Qed.

(** [close] rejects the promise of every entry and clears its timer. *)
Lemma close_rejects_pending (c : GatewayConnection) (id : string) (n : nat) :
  conn_inv c -> In (id, n) (pending c) ->
  promise n c = None /\
  promise n (close c) = Some (Rejected "Gateway connection closing") /\
  timerArmed n (close c) = false /\ pending (close c) = [] /\ ws (close c) = None.
Proof.
  intros [H1 H2] Hin.
  destruct (H1 id n Hin) as ([method Hi] & Hp & _).
  destruct (closed c) eqn:Hc.
  { destruct (H2 eq_refl) as [Hnil _]. rewrite Hnil in Hin. destruct Hin. }
  destruct (close_closed c Hc) as (_ & Hpe & Hw).
  split; [exact Hp|].
  assert (Hvs : In n (map_values (pending (set_connected false (set_closed true c))))).
  { simpl. unfold map_values. apply (in_map snd _ _ Hin). }
  assert (Hi' : callInfo n (set_connected false (set_closed true c)) <> None)
    by (change (callInfo n c <> None); congruence).
  destruct (fold_reject_effects _ _ n Hvs Hi' Hp) as [Fp Ft].
  unfold close. rewrite Hc. unfold close in Hpe, Hw. rewrite Hc in Hpe, Hw.
  destruct (ws (set_pending [] _)); repeat split; assumption.
Qed.

Lemma close_idempotent (c : GatewayConnection) : close (close c) = close c.
Proof.
  destruct (closed c) eqn:Hc.
  - unfold close. rewrite Hc, Hc. reflexivity.
  - destruct (close_closed c Hc) as (Hcl & _).
    unfold close at 1. rewrite Hcl. reflexivity.
Qed.

(** ** The relay and its connection *)

Lemma handler_keeps_loop (now : Z) (frame : JsVal) (r : Relay) :
  let r' := fst (runConnected_onFrame now frame r) in
  conn r' = conn r /\ running r' = running r /\ phase r' = phase r /\
  built r' = built r /\ sleeps r' = sleeps r /\
  recentGatewayMessageHashes r' = recentGatewayMessageHashes r.
Proof.
  unfold runConnected_onFrame, onChat.
  destruct (is_str (coalesce (prop frame "event") (prop frame "type")) "chat");
    [|repeat split].
  destruct (truthy _ && truthy _); [|repeat split].
  destruct (is_str _ "delta" && truthy _).
  - destruct (nonempty _); repeat split.
  - destruct (is_str _ "final"); [|repeat split].
    destruct (nonempty (trim _)); repeat split.
Qed.

Lemma relay_inv_loopHead (r : Relay) : relay_inv r -> relay_inv (loopHead r).
Proof.
  intros H. unfold loopHead. destruct (running r); [|exact H].
  intros c Hc. simpl in Hc. injection Hc as <-.
  apply (conn_inv_step _ EvOpen). apply conn_inv_new.
Qed.

Lemma relay_inv_map (f : GatewayConnection -> GatewayConnection) (r : Relay) :
  (forall c, conn_inv c -> conn_inv (f c)) ->
  relay_inv r -> relay_inv (set_conn (option_map f (conn r)) r).
Proof.
  intros Hf H c Hc. simpl in Hc.
  destruct (conn r) as [c0|] eqn:E; [|discriminate].
  injection Hc as <-. apply Hf. apply H. exact E.
Qed.

Lemma relay_inv_step (r : Relay) (e : RelayEvent) :
  relay_inv r -> relay_inv (relay_step r e).
Proof.
  intros H. destruct e as [|e|e|now frame|]; simpl.
  - unfold start. destruct (phase r); try exact H. apply relay_inv_loopHead. exact H.
  - unfold resume.
    destruct (phase r) as [| | |leave|waitMs|] eqn:Hphase; destruct e; try exact H.
    + apply (relay_inv_map (onFrame 0) (set_reconnectAttempt 0 r)
               (fun c => conn_inv_step c (EvOnFrame 0)) H).
    + apply (relay_inv_map close r conn_inv_close H).
    + apply (relay_inv_map close
               (set_conn (option_map (offFrame 0) (conn r)) r) conn_inv_close).
      apply (relay_inv_map (offFrame 0) r (fun c => conn_inv_step c (EvOffFrame 0)) H).
    + apply (relay_inv_map close r conn_inv_close H).
    + destruct (leave || negb _); intros c Hc; discriminate.
    + apply relay_inv_loopHead. exact H.
  - apply (relay_inv_map (fun c => conn_step c e) r (fun c => conn_inv_step c e) H).
  - destruct (handler_keeps_loop now frame r) as (Hc & _).
    intros c Hconn. rewrite Hc in Hconn. apply H. exact Hconn.
  - apply (relay_inv_map close (set_running false r) conn_inv_close H).
Qed.

Lemma relay_inv_run (es : list RelayEvent) (r : Relay) :
  relay_inv r -> relay_inv (relay_run r es).
Proof.
  revert r. unfold relay_run.
  induction es as [|e es IH]; intros r H; simpl; [exact H|].
  apply IH. apply relay_inv_step. exact H.
Qed.

(** Once [running] is false it stays so, no connection is built and no sleep
    is scheduled. *)
Lemma stopped_step (r : Relay) (e : RelayEvent) :
  running r = false ->
  running (relay_step r e) = false /\ built (relay_step r e) = built r /\
  sleeps (relay_step r e) = sleeps r.
Proof.
  intros Hr. destruct e as [|e|e|now frame|]; simpl.
  - unfold start, loopHead. rewrite Hr. destruct (phase r); repeat split; assumption.
  - unfold resume, loopHead, enterFinally.
    destruct (phase r) as [| | |leave|waitMs|]; destruct e; simpl;
      try rewrite Hr; simpl; try rewrite orb_true_r; simpl; repeat split; assumption.
  - repeat split; assumption.
  - destruct (handler_keeps_loop now frame r) as (_ & H1 & _ & H2 & H3 & _).
    rewrite H1, H2, H3. repeat split; assumption.
  - repeat split.
Qed.

Lemma stopped_run (es : list RelayEvent) (r : Relay) :
  running r = false ->
  running (relay_run r es) = false /\ built (relay_run r es) = built r /\
  sleeps (relay_run r es) = sleeps r.
Proof.
  revert r. unfold relay_run.
  induction es as [|e es IH]; intros r Hr; simpl; [repeat split; assumption|].
  destruct (stopped_step r e Hr) as (H1 & H2 & H3).
  destruct (IH _ H1) as (G1 & G2 & G3).
  rewrite G2, G3, H2, H3. repeat split; assumption.
Qed.

Lemma stopped_resume_nearer (r : Relay) (e : LoopEvent) :
  running r = false -> enabled (phase r) e = true ->
  (stepsToExit (phase (resume e r)) < stepsToExit (phase r))%nat.
Proof.
  intros Hr He. unfold resume, loopHead, enterFinally.
  destruct (phase r) as [| | |leave|waitMs|]; destruct e; simpl in *;
    try discriminate; try rewrite Hr; simpl; try rewrite orb_true_r; simpl; lia.
Qed.


(** * Further properties of the connection *)

(** X1. Whatever has happened to a connection since it was built, every entry
    of [pending] belongs to a call registered under that [id] whose promise
    is unsettled and whose timer is still to fire, and a closed connection
    has neither an entry nor a socket. *)
Theorem pending_entries_are_live (tok : JsVal) (e0 : nat) (es : list ConnEvent) :
  let c := conn_run (newConnection tok e0) es in
  (forall id n, In (id, n) (pending c) ->
     (exists method, callInfo n c = Some (id, method)) /\
     promise n c = None /\ timerArmed n c = true) /\
  (closed c = true -> pending c = [] /\ ws c = None).
Proof.
  intros c. exact (conn_inv_run es _ (conn_inv_new tok e0)).
Qed.

(** What [request] leaves alone when the socket is not open. *)
Lemma request_not_open_fields (method : string) (payload : JsVal) (timeoutMs : Z)
    (c : GatewayConnection) :
  ws c <> Some OPEN ->
  let c' := fst (request method payload timeoutMs c) in
  sent c' = sent c /\ draws c' = draws c /\
  promise (snd (request method payload timeoutMs c)) c'
  = Some (Rejected "Gateway socket is not open").
Proof.
  intros Hws c'. subst c'. unfold request, promise.
  destruct (ws c) as [[]|] eqn:E; try congruence; simpl;
    rewrite nth_error_app2 by lia; rewrite Nat.sub_diag; repeat split.
Qed.

(** X2. After [close], a request is rejected on the spot with "Gateway socket
    is not open": no entry is registered, no frame is sent and no identifier
    is drawn. *)
Theorem request_after_close_is_rejected (tok : JsVal) (e0 : nat) (es : list ConnEvent)
    (method : string) (params : JsVal) (timeoutMs : Z) :
  let c := close (conn_run (newConnection tok e0) es) in
  let c' := fst (request method params timeoutMs c) in
  let n := snd (request method params timeoutMs c) in
  promise n c' = Some (Rejected "Gateway socket is not open") /\
  timerArmed n c' = false /\
  pending c' = [] /\ sent c' = sent c /\ draws c' = draws c.
Proof.
  intros c c' n.
  assert (Hinv : conn_inv (conn_run (newConnection tok e0) es))
    by apply conn_inv_run, conn_inv_new.
  assert (Hc : pending c = [] /\ ws c = None).
  { unfold c. destruct (closed (conn_run (newConnection tok e0) es)) eqn:Hcl.
    - unfold close. rewrite Hcl. destruct Hinv as [_ H2]. apply H2. exact Hcl.
    - destruct (close_closed _ Hcl) as (_ & Hp & Hw). split; assumption. }
  destruct Hc as [Hp Hw].
  assert (Hno : ws c <> Some OPEN) by (rewrite Hw; discriminate).
  destruct (request_not_open_fields method params timeoutMs c Hno) as (Hs & Hd & Hrej).
  destruct (request_not_open method params timeoutMs c Hno) as (Hcalls & Hpe & _).
  fold c' in Hs, Hd, Hrej, Hcalls, Hpe. fold n in Hrej.
  split; [exact Hrej|].
  split.
  { destruct (observers_new c c' _ Hcalls) as (_ & _ & Ht).
    assert (Hn : n = List.length (calls c)).
    { unfold n, request. destruct (ws c) as [[]|]; reflexivity. }
    rewrite Hn. exact Ht. }
  split; [rewrite Hpe; exact Hp|]. split; assumption.
Qed.

Lemma promise_in_range (n : nat) (c : GatewayConnection) (s : Settlement) :
  promise n c = Some s -> (n < List.length (calls c))%nat.
Proof.
  unfold promise. intros H. apply nth_error_Some.
  destruct (nth_error (calls c) n); congruence.
Qed.

Lemma promise_request_kept (method : string) (payload : JsVal) (timeoutMs : Z)
    (c : GatewayConnection) (n : nat) (s : Settlement) :
  promise n c = Some s ->
  promise n (fst (request method payload timeoutMs c)) = Some s.
Proof.
  intros H. pose proof (promise_in_range n c s H) as Hn.
  destruct (ws c) as [[]|] eqn:Hws.
  2: { destruct (request_open method payload timeoutMs c Hws) as (_ & Hc & _).
       destruct (observers_app c _ _ n Hc Hn) as (_ & Hp & _). rewrite Hp. exact H. }
  all: assert (Hno : ws c <> Some OPEN) by congruence;
    destruct (request_not_open method payload timeoutMs c Hno) as (Hc & _);
    destruct (observers_app c _ _ n Hc Hn) as (_ & Hp & _); rewrite Hp; exact H.
Qed.

Lemma promise_sendConnect_kept (c : GatewayConnection) (n : nat) (s : Settlement) :
  promise n c = Some s -> promise n (sendConnect c) = Some s.
Proof.
  intros H. unfold sendConnect.
  pose proof (promise_request_kept "connect" (connectPayload (token c)) 12000 c n s H) as Hr.
  destruct (request "connect" (connectPayload (token c)) 12000 c) as [c1 m]. simpl in Hr.
  destruct (observers_awaiter SendConnect m n c1) as (_ & Hp & _).
  destruct (nth_error _ m) as [k|]; [|rewrite Hp; exact Hr].
  destruct (call_promise k) as [s'|]; [|rewrite Hp; exact Hr].
  destruct (afterConnect_core s' (set_calls (update_nth m (with_awaiter SendConnect) (calls c1)) c1))
    as (Hc & _).
  unfold promise in *. rewrite Hc, Hp. exact Hr.
Qed.

Lemma promise_step_kept (c : GatewayConnection) (e : ConnEvent) (n : nat) (s : Settlement) :
  promise n c = Some s -> promise n (conn_step c e) = Some s.
Proof.
  intros H. destruct e; simpl; try exact H.
  - apply promise_request_kept. exact H.
  - unfold onMessage.
    destruct (negb (truthy frame)); [exact H|].
    destruct (if truthy (prop frame "id") then pendingFor (prop frame "id") c else None)
      as [m|].
    + assert (Hd : promise n (pendingDelete (prop frame "id") (clearTimeout m c)) = Some s).
      { unfold pendingDelete. destruct (prop frame "id");
          try (rewrite promise_clear; exact H).
        change (promise n (set_pending ?p ?y)) with (promise n y).
        rewrite promise_clear. exact H. }
      destruct (is_false (prop frame "ok")); simpl; apply promise_settle_kept; exact Hd.
    + destruct (is_str (prop frame "type") "connect.challenge"
                || is_str (prop frame "event") "connect.challenge"); simpl;
        [apply promise_sendConnect_kept|]; exact H.
  - unfold onTimeout.
    destruct (nth_error (calls c) n0) as [k|]; [|exact H].
    destruct (call_timer k); [|exact H].
    apply promise_settle_kept.
    change (promise n (set_pending ?p ?y)) with (promise n y).
    rewrite promise_clear. exact H.
  - unfold onFrame. destruct (existsb (Nat.eqb h) (handlers c)); exact H.
  - unfold onFallback. destruct (fallbackTimer c); [|exact H].
    apply promise_sendConnect_kept. exact H.
  - unfold onConnectTimeout. destruct (connectTimeout c); [|exact H].
    unfold settle. simpl. destruct (settled c); exact H.
  - unfold onError, settle. destruct (settled c); simpl;
      destruct (closeWaiter c); exact H.
  - unfold onClose, settle.
    destruct (connected c); simpl; [destruct (closeWaiter c); exact H|].
    destruct (settled c); simpl; destruct (closeWaiter c); exact H.
  - unfold waitForClose. destruct (ws c); exact H.
  - unfold close. destruct (closed c); [exact H|].
    match goal with
    | |- promise n (match ws ?y with _ => _ end) = _ =>
        assert (Hf : promise n y = Some s)
    end.
    { change (promise n (set_pending ?p ?y)) with (promise n y).
      apply fold_reject_kept. exact H. }
    destruct (ws _); exact Hf.
Qed.

(** X3. A promise that is settled stays as it is: no response, timer, close
    or any other event changes the outcome a caller has got. *)
Theorem settled_promise_is_final (c : GatewayConnection) (es : list ConnEvent)
    (n : nat) (s : Settlement) :
  promise n c = Some s -> promise n (conn_run c es) = Some s.
Proof.
  revert c. unfold conn_run.
  induction es as [|e es IH]; intros c H; simpl; [exact H|].
  apply IH. apply promise_step_kept. exact H.
Qed.

(** X4. A response with [ok === false] for a pending request rejects its
    promise with the message of the frame's error, or with "Gateway RPC
    error" when the frame has none, deletes its entry and clears its timer;
    the other promises are untouched. *)
Theorem error_response_rejects (tok : JsVal) (e0 : nat) (es : list ConnEvent)
    (frame : JsVal) (id : string) (n : nat) :
  let c := conn_run (newConnection tok e0) es in
  let c' := fst (onMessage frame c) in
  map_get String.eqb id (pending c) = Some n ->
  prop frame "id" = JStr id -> id <> "" ->
  prop frame "ok" = JBool false ->
  (forall message, prop (prop frame "error") "message" = JStr message ->
                   promise n c' = Some (Rejected message)) /\
  (nullish (prop (prop frame "error") "message") = true ->
   promise n c' = Some (Rejected "Gateway RPC error")) /\
  map_get String.eqb id (pending c') = None /\
  timerArmed n c' = false /\
  (forall m, m <> n -> promise m c' = promise m c).
Proof.
  intros c c' Hget Hid Hne Hok.
  assert (Hinv : conn_inv c) by apply conn_inv_run, conn_inv_new.
  destruct (response_correlates c frame id n Hinv Hid Hne Hget)
    as (_ & Hp & Ht & Hgone & Hothers & _).
  fold c' in Hp, Ht, Hgone, Hothers. rewrite Hok in Hp. simpl in Hp.
  split; [intros message Hm; rewrite Hp, Hm; reflexivity|].
  split.
  { intros Hnull. rewrite Hp. unfold coalesce. rewrite Hnull. reflexivity. }
  split; [exact Hgone|]. split; [exact Ht|].
  intros m Hm. apply Hothers. exact Hm.
Qed.

(** X5. Once the response of a request has arrived, the callback of its timer
    does nothing: the timer was cleared, and the outcome stays. *)
Theorem timer_after_response_is_idle (tok : JsVal) (e0 : nat) (es : list ConnEvent)
    (frame : JsVal) (id : string) (n : nat) :
  let c := conn_run (newConnection tok e0) es in
  let c' := fst (onMessage frame c) in
  map_get String.eqb id (pending c) = Some n ->
  prop frame "id" = JStr id -> id <> "" ->
  timerArmed n c = true /\ timerArmed n c' = false /\ onTimeout n c' = c'.
Proof.
  intros c c' Hget Hid Hne.
  assert (Hinv : conn_inv c) by apply conn_inv_run, conn_inv_new.
  destruct (response_correlates c frame id n Hinv Hid Hne Hget) as (_ & _ & Ht & _).
  fold c' in Ht.
  destruct Hinv as [H1 _].
  destruct (H1 id n (map_get_In _ _ _ Hget)) as (_ & _ & Harmed).
  split; [exact Harmed|]. split; [exact Ht|].
  unfold onTimeout. unfold timerArmed in Ht.
  destruct (nth_error (calls c') n) as [k|]; [|reflexivity].
  rewrite Ht. reflexivity.
Qed.

(** ** What goes on the wire *)

Lemma settle_wire (o : Settlement) (c : GatewayConnection) : wire (settle o c) = wire c.
Proof. unfold settle, wire. destruct (settled c); reflexivity. Qed.

Lemma afterConnect_wire (s : Settlement) (c : GatewayConnection) :
  wire (afterConnect s c) = wire c.
Proof.
  unfold afterConnect. destruct s as [response|err]; [|apply settle_wire].
  destruct (negb (is_str (coalesce (prop response "type") (prop response "event")) "hello-ok"));
    [apply settle_wire|].
  rewrite settle_wire. reflexivity.
Qed.

Lemma settlePromise_wire (n : nat) (s : Settlement) (c : GatewayConnection) :
  wire (settlePromise n s c) = wire c.
Proof.
  unfold settlePromise.
  destruct (nth_error (calls c) n) as [k|]; [|reflexivity].
  destruct (call_promise k); [reflexivity|].
  destruct (call_awaiter k); [reflexivity|].
  rewrite afterConnect_wire. reflexivity.
Qed.

Lemma fold_reject_wire (vs : list nat) (c : GatewayConnection) :
  wire (fold_left rejectClosing vs c) = wire c.
Proof.
  revert c. induction vs as [|v vs IH]; intros c; simpl; [reflexivity|].
  rewrite IH. unfold rejectClosing. rewrite settlePromise_wire. reflexivity.
Qed.

Lemma request_wire (method : string) (payload : JsVal) (timeoutMs : Z) (c : GatewayConnection) :
  wire (fst (request method payload timeoutMs c))
  = match ws c with
    | Some OPEN => (sent c ++ [reqFrame (randomUUID (draws c)) method payload], S (draws c))
    | _ => wire c
    end.
Proof.
  unfold request, wire. destruct (ws c) as [[]|]; reflexivity.
Qed.

Lemma sendConnect_wire (c : GatewayConnection) :
  wire (sendConnect c)
  = match ws c with
    | Some OPEN => (sent c ++ [reqFrame (randomUUID (draws c)) "connect"
                                 (connectPayload (token c))], S (draws c))
    | _ => wire c
    end.
Proof.
  unfold sendConnect.
  pose proof (request_wire "connect" (connectPayload (token c)) 12000 c) as Hr.
  destruct (request "connect" (connectPayload (token c)) 12000 c) as [c1 n]. simpl in Hr.
  rewrite <- Hr.
  destruct (nth_error _ n) as [k|]; [|reflexivity].
  destruct (call_promise k) as [s|]; [|reflexivity].
  rewrite afterConnect_wire. reflexivity.
Qed.

(** One event sends nothing, or one request frame whose [id] is the next
    draw. *)
Lemma wire_step (c : GatewayConnection) (e : ConnEvent) :
  wire (conn_step c e) = wire c \/
  exists method params,
    wire (conn_step c e)
    = (sent c ++ [reqFrame (randomUUID (draws c)) method params], S (draws c)).
Proof.
  destruct e; simpl.
  - left. reflexivity.
  - rewrite request_wire. destruct (ws c) as [[]|]; try (left; reflexivity).
    right. exists method, payload. reflexivity.
  - unfold onMessage.
    destruct (negb (truthy frame)); [left; reflexivity|].
    destruct (if truthy (prop frame "id") then pendingFor (prop frame "id") c else None)
      as [m|].
    + left. destruct (is_false (prop frame "ok")); simpl; rewrite settlePromise_wire;
        unfold pendingDelete; destruct (prop frame "id"); reflexivity.
    + destruct (is_str (prop frame "type") "connect.challenge"
                || is_str (prop frame "event") "connect.challenge"); simpl;
        [|left; reflexivity].
      rewrite sendConnect_wire. destruct (ws c) as [[]|]; try (left; reflexivity).
      right. eexists _, _. reflexivity.
  - left. unfold onTimeout.
    destruct (nth_error (calls c) n) as [k|]; [|reflexivity].
    destruct (call_timer k); [|reflexivity].
    rewrite settlePromise_wire. reflexivity.
  - left. unfold onFrame. destruct (existsb (Nat.eqb h) (handlers c)); reflexivity.
  - left. reflexivity.
  - left. reflexivity.
  - unfold onFallback. destruct (fallbackTimer c); [|left; reflexivity].
    rewrite sendConnect_wire. simpl.
    destruct (ws c) as [[]|]; try (left; reflexivity).
    right. eexists _, _. reflexivity.
  - left. unfold onConnectTimeout. destruct (connectTimeout c); [|reflexivity].
    rewrite settle_wire. reflexivity.
  - left. unfold onError.
    destruct (closeWaiter (settle (Rejected message) c));
      [change (wire (set_connected false ?y)) with (wire y)|]; apply settle_wire.
  - left. unfold onClose.
    destruct (connected c); simpl.
    + destruct (closeWaiter c); reflexivity.
    + match goal with |- wire (if ?b then _ else _) = _ => destruct b end;
        [change (wire (set_connected false (set_ws ?w ?y))) with (wire y)
        |change (wire (set_ws ?w ?y)) with (wire y)]; apply settle_wire.
  - left. unfold waitForClose. destruct (ws c); reflexivity.
  - left. unfold close. destruct (closed c); [reflexivity|].
    match goal with
    | |- wire (match ws ?y with _ => _ end) = _ =>
        assert (Hf : wire y = wire c)
    end.
    { change (wire (set_pending ?p ?y)) with (wire y). rewrite fold_reject_wire.
      reflexivity. }
    destruct (ws _); exact Hf.
Qed.

(** X6. Everything a connection ever sends is a request frame, and the frame
    at position [k] carries the [k]-th identifier drawn since the connection
    was built: identifiers go out in the order they are drawn, one per frame,
    so that no identifier is sent twice when [randomUUID] never repeats. *)
Theorem sent_frames_are_requests (tok : JsVal) (e0 : nat) (es : list ConnEvent) :
  let c := conn_run (newConnection tok e0) es in
  draws c = (e0 + List.length (sent c))%nat /\
  (forall k frame, nth_error (sent c) k = Some frame ->
     exists method params,
       frame = JObj [("type", JStr "req"); ("id", JStr (randomUUID (e0 + k)));
                     ("method", JStr method); ("params", params)]) /\
  ((forall i j, randomUUID i = randomUUID j -> i = j) ->
   forall j k fj fk,
     nth_error (sent c) j = Some fj -> nth_error (sent c) k = Some fk ->
     prop fj "id" = prop fk "id" -> j = k).
Proof.
  intros c.
  assert (Hinv : draws c = (e0 + List.length (sent c))%nat /\
                 forall k frame, nth_error (sent c) k = Some frame ->
                   exists method params,
                     frame = reqFrame (randomUUID (e0 + k)) method params).
  { unfold c, conn_run. clear c.
    assert (H0 : draws (newConnection tok e0)
                 = (e0 + List.length (sent (newConnection tok e0)))%nat /\
                 forall k frame, nth_error (sent (newConnection tok e0)) k = Some frame ->
                   exists method params,
                     frame = reqFrame (randomUUID (e0 + k)) method params).
    { split; [simpl; lia|]. intros [|k] frame H; discriminate H. }
    revert H0. generalize (newConnection tok e0) as c.
    induction es as [|e es IH]; intros c H0; simpl; [exact H0|].
    apply IH. destruct H0 as [Hd Hf].
    destruct (wire_step c e) as [Hw|(method & params & Hw)];
      unfold wire in Hw; injection Hw as Hs Hdr; rewrite Hs, Hdr.
    - split; assumption.
    - split; [rewrite length_app; simpl; lia|].
      intros k frame Hk.
      destruct (Nat.lt_ge_cases k (List.length (sent c))) as [Hlt|Hge].
      + rewrite nth_error_app1 in Hk by exact Hlt. apply Hf. exact Hk.
      + rewrite nth_error_app2 in Hk by exact Hge.
        destruct (k - List.length (sent c))%nat as [|d] eqn:Ed;
          [|destruct d; discriminate Hk].
        injection Hk as <-. exists method, params.
        replace (e0 + k)%nat with (draws c) by lia. reflexivity. }
  destruct Hinv as [Hd Hf].
  split; [exact Hd|]. split; [exact Hf|].
  intros Hinj j k fj fk Ej Ek Heq.
  destruct (Hf j fj Ej) as (mj & pj & ->).
  destruct (Hf k fk Ek) as (mk & pk & ->).
  unfold reqFrame in Heq. simpl in Heq.
  injection Heq as Heq. apply Hinj in Heq. lia.
Qed.

(** ** The handshake *)

Lemma settle_decided (o : Settlement) (c : GatewayConnection) :
  settled c = true -> settle o c = c.
Proof. intros H. unfold settle. rewrite H. reflexivity. Qed.

Lemma afterConnect_decided (s : Settlement) (c : GatewayConnection) :
  settled c = true -> handshake (afterConnect s c) = handshake c.
Proof.
  intros H. unfold afterConnect. destruct s as [response|err].
  - destruct (negb (is_str (coalesce (prop response "type") (prop response "event")) "hello-ok")).
    + rewrite settle_decided by exact H. reflexivity.
    + rewrite settle_decided by exact H. reflexivity.
  - rewrite settle_decided by exact H. reflexivity.
Qed.

Lemma settlePromise_decided (n : nat) (s : Settlement) (c : GatewayConnection) :
  settled c = true -> handshake (settlePromise n s c) = handshake c.
Proof.
  intros H. unfold settlePromise.
  destruct (nth_error (calls c) n) as [k|]; [|reflexivity].
  destruct (call_promise k); [reflexivity|].
  destruct (call_awaiter k); [reflexivity|].
  rewrite afterConnect_decided by exact H. reflexivity.
Qed.

Lemma request_handshake (method : string) (payload : JsVal) (timeoutMs : Z)
    (c : GatewayConnection) :
  handshake (fst (request method payload timeoutMs c)) = handshake c.
Proof. unfold request. destruct (ws c) as [[]|]; reflexivity. Qed.

Lemma sendConnect_decided (c : GatewayConnection) :
  settled c = true -> handshake (sendConnect c) = handshake c.
Proof.
  intros H. unfold sendConnect.
  pose proof (request_handshake "connect" (connectPayload (token c)) 12000 c) as Hr.
  destruct (request "connect" (connectPayload (token c)) 12000 c) as [c1 n]. simpl in Hr.
  assert (H1 : settled c1 = true).
  { unfold handshake in Hr. injection Hr as Hs _. rewrite Hs. exact H. }
  rewrite <- Hr.
  destruct (nth_error _ n) as [k|]; [|reflexivity].
  destruct (call_promise k) as [s|]; [|reflexivity].
  rewrite afterConnect_decided by exact H1. reflexivity.
Qed.

Lemma fold_reject_decided (vs : list nat) (c : GatewayConnection) :
  settled c = true -> handshake (fold_left rejectClosing vs c) = handshake c.
Proof.
  revert c. induction vs as [|v vs IH]; intros c H; simpl; [reflexivity|].
  assert (H1 : handshake (rejectClosing c v) = handshake c).
  { unfold rejectClosing. rewrite settlePromise_decided by exact H. reflexivity. }
  rewrite IH; [exact H1|]. unfold handshake in H1. injection H1 as Hs _.
  rewrite Hs. exact H.
Qed.

Lemma handshake_step (c : GatewayConnection) (e : ConnEvent) :
  settled c = true -> isOpenEvent e = false ->
  handshake (conn_step c e) = handshake c.
Proof.
  intros H He. destruct e; simpl.
  - discriminate He.
  - apply request_handshake.
  - unfold onMessage.
    destruct (negb (truthy frame)); [reflexivity|].
    destruct (if truthy (prop frame "id") then pendingFor (prop frame "id") c else None)
      as [m|].
    + assert (Hd : settled (pendingDelete (prop frame "id") (clearTimeout m c)) = true).
      { unfold pendingDelete. destruct (prop frame "id"); exact H. }
      destruct (is_false (prop frame "ok")); simpl;
        rewrite settlePromise_decided by exact Hd;
        unfold pendingDelete; destruct (prop frame "id"); reflexivity.
    + destruct (is_str (prop frame "type") "connect.challenge"
                || is_str (prop frame "event") "connect.challenge"); simpl;
        [apply sendConnect_decided; exact H|reflexivity].
  - unfold onTimeout.
    destruct (nth_error (calls c) n) as [k|]; [|reflexivity].
    destruct (call_timer k); [|reflexivity].
    rewrite settlePromise_decided by exact H. reflexivity.
  - unfold onFrame. destruct (existsb (Nat.eqb h) (handlers c)); reflexivity.
  - reflexivity.
  - reflexivity.
  - unfold onFallback. destruct (fallbackTimer c); [|reflexivity].
    rewrite sendConnect_decided by exact H. reflexivity.
  - unfold onConnectTimeout. destruct (connectTimeout c); [|reflexivity].
    rewrite settle_decided by exact H. reflexivity.
  - unfold onError. rewrite settle_decided by exact H.
    destruct (closeWaiter c); reflexivity.
  - unfold onClose.
    destruct (connected c); simpl.
    + destruct (closeWaiter c); reflexivity.
    + rewrite settle_decided by exact H. destruct (closeWaiter c); reflexivity.
  - unfold waitForClose. destruct (ws c); reflexivity.
  - unfold close. destruct (closed c); [reflexivity|].
    match goal with
    | |- handshake (match ws ?y with _ => _ end) = _ =>
        assert (Hf : handshake y = handshake c)
    end.
    { change (handshake (set_pending ?p ?y)) with (handshake y).
      rewrite fold_reject_decided by exact H. reflexivity. }
    destruct (ws _); exact Hf.
Qed.

(** X7. The outcome of a handshake is decided once: when the promise that
    [open] awaits is settled, no later timer, response, error or close of
    that connection changes it, until [open] is called again. *)
Theorem handshake_decided_once (c : GatewayConnection) (es : list ConnEvent) :
  settled c = true ->
  forallb (fun e => negb (isOpenEvent e)) es = true ->
  settled (conn_run c es) = true /\ opened (conn_run c es) = opened c.
Proof.
  revert c. unfold conn_run.
  induction es as [|e es IH]; intros c H Hes; simpl; [split; [exact H|reflexivity]|].
  simpl in Hes. apply andb_prop in Hes. destruct Hes as [He Hes].
  apply negb_true_iff in He.
  pose proof (handshake_step c e H He) as Hstep.
  unfold handshake in Hstep. injection Hstep as Hs Ho.
  destruct (IH (conn_step c e)) as [G1 G2]; [rewrite Hs; exact H|exact Hes|].
  split; [exact G1|rewrite G2; exact Ho].
Qed.

Lemma update_nth_last {A : Type} (f : A -> A) (l : list A) (x : A) :
  update_nth (List.length l) f (l ++ [x]) = l ++ [f x].
Proof.
  induction l as [|y l IH]; simpl; [reflexivity|]. rewrite IH. reflexivity.
Qed.

(** What [sendConnect] does on an open socket. *)
Lemma sendConnect_open (c : GatewayConnection) :
  ws c = Some OPEN ->
  let id := randomUUID (draws c) in
  let n := List.length (calls c) in
  calls (sendConnect c) = calls c ++ [mkCall id "connect" 12000 SendConnect None true] /\
  pending (sendConnect c) = map_set String.eqb id n (pending c) /\
  handshake (sendConnect c) = handshake c /\
  connected (sendConnect c) = connected c /\
  serverVersion (sendConnect c) = serverVersion c /\
  sent (sendConnect c) = sent c ++ [reqFrame id "connect" (connectPayload (token c))].
Proof.
  intros Hws id n. unfold sendConnect, request. rewrite Hws. cbv zeta.
  cbn [calls set_sent set_pending set_calls set_draws].
  rewrite update_nth_last.
  cbn [calls set_calls]. rewrite nth_error_app2 by lia. rewrite Nat.sub_diag.
  cbn [nth_error with_awaiter call_promise]. repeat split.
Qed.

Lemma settlePromise_awaited (n : nat) (s : Settlement) (c : GatewayConnection) (k : Call) :
  nth_error (calls c) n = Some k ->
  call_promise k = None -> call_awaiter k = SendConnect ->
  settlePromise n s c
  = afterConnect s (set_calls (update_nth n (with_promise s) (calls c)) c).
Proof.
  intros Hk Hp Ha. unfold settlePromise. rewrite Hk, Hp, Ha. reflexivity.
Qed.


(** X9. A "connect.challenge" frame that answers no request makes the
    connection send the connect request: on an open socket one frame of
    method "connect" goes out with the connect payload and is registered with
    its timer; when the socket is not open, an undecided [open] is rejected
    with "Gateway socket is not open" and nothing is sent. *)
Theorem challenge_sends_connect (c : GatewayConnection) (frame : JsVal) :
  let c' := fst (onMessage frame c) in
  let n := List.length (calls c) in
  truthy frame = true ->
  truthy (prop frame "id") = false ->
  is_str (prop frame "type") "connect.challenge"
  || is_str (prop frame "event") "connect.challenge" = true ->
  snd (onMessage frame c) = Challenge /\
  (ws c = Some OPEN ->
   sent c' = sent c ++ [reqFrame (randomUUID (draws c)) "connect" (connectPayload (token c))] /\
   map_get String.eqb (randomUUID (draws c)) (pending c') = Some n /\
   callInfo n c' = Some (randomUUID (draws c), "connect") /\
   promise n c' = None /\ timerArmed n c' = true /\
   handshake c' = handshake c) /\
  (ws c <> Some OPEN -> settled c = false ->
   opened c' = Some (Rejected "Gateway socket is not open") /\
   sent c' = sent c /\ pending c' = pending c).
Proof.
  intros c' n Htruthy Hid Hch.
  assert (Hc' : onMessage frame c = (sendConnect c, Challenge)).
  { unfold onMessage. rewrite Htruthy, Hid, Hch. reflexivity. }
  unfold c'. rewrite Hc'. cbn [fst snd].
  split; [reflexivity|]. split.
  - intros Hws.
    destruct (sendConnect_open c Hws) as (Hcalls & Hpend & Hhs & _ & _ & Hsent).
    destruct (observers_new c (sendConnect c) _ Hcalls) as (Hi & Hp & Ht).
    split; [exact Hsent|].
    split; [rewrite Hpend; apply map_get_set_same; apply String.eqb_refl|].
    split; [exact Hi|]. split; [exact Hp|]. split; [exact Ht|exact Hhs].
  - intros Hws Hset. unfold sendConnect, request.
    destruct (ws c) as [[]|] eqn:E; try congruence; cbv zeta;
      cbn [calls set_calls]; rewrite update_nth_last;
      rewrite nth_error_app2 by lia; rewrite Nat.sub_diag;
      cbn [nth_error with_awaiter call_promise];
      unfold afterConnect, settle; cbn [settled set_calls]; rewrite Hset;
      repeat split.
Qed.

(** ** The set of handlers *)

Lemma settle_handlers (o : Settlement) (c : GatewayConnection) :
  handlers (settle o c) = handlers c.
Proof. unfold settle. destruct (settled c); reflexivity. Qed.

Lemma afterConnect_handlers (s : Settlement) (c : GatewayConnection) :
  handlers (afterConnect s c) = handlers c.
Proof.
  unfold afterConnect. destruct s as [response|err]; [|apply settle_handlers].
  destruct (negb (is_str (coalesce (prop response "type") (prop response "event")) "hello-ok"));
    rewrite settle_handlers; reflexivity.
Qed.

Lemma settlePromise_handlers (n : nat) (s : Settlement) (c : GatewayConnection) :
  handlers (settlePromise n s c) = handlers c.
Proof.
  unfold settlePromise.
  destruct (nth_error (calls c) n) as [k|]; [|reflexivity].
  destruct (call_promise k); [reflexivity|].
  destruct (call_awaiter k); [reflexivity|].
  rewrite afterConnect_handlers. reflexivity.
Qed.

Lemma sendConnect_handlers (c : GatewayConnection) :
  handlers (sendConnect c) = handlers c.
Proof.
  unfold sendConnect.
  assert (Hr : handlers (fst (request "connect" (connectPayload (token c)) 12000 c))
               = handlers c)
    by (unfold request; destruct (ws c) as [[]|]; reflexivity).
  destruct (request "connect" (connectPayload (token c)) 12000 c) as [c1 n]. simpl in Hr.
  rewrite <- Hr.
  destruct (nth_error _ n) as [k|]; [|reflexivity].
  destruct (call_promise k) as [s|]; [|reflexivity].
  rewrite afterConnect_handlers. reflexivity.
Qed.

Lemma fold_reject_handlers (vs : list nat) (c : GatewayConnection) :
  handlers (fold_left rejectClosing vs c) = handlers c.
Proof.
  revert c. induction vs as [|v vs IH]; intros c; simpl; [reflexivity|].
  rewrite IH. unfold rejectClosing. rewrite settlePromise_handlers. reflexivity.
Qed.

Lemma handlers_step (c : GatewayConnection) (e : ConnEvent) :
  handlers (conn_step c e)
  = match e with
    | EvOnFrame h => handlers (onFrame h c)
    | EvOffFrame h => handlers (offFrame h c)
    | _ => handlers c
    end.
Proof.
  destruct e; simpl; try reflexivity.
  - unfold request. destruct (ws c) as [[]|]; reflexivity.
  - unfold onMessage.
    destruct (negb (truthy frame)); [reflexivity|].
    destruct (if truthy (prop frame "id") then pendingFor (prop frame "id") c else None)
      as [m|].
    + destruct (is_false (prop frame "ok")); simpl; rewrite settlePromise_handlers;
        unfold pendingDelete; destruct (prop frame "id"); reflexivity.
    + destruct (is_str (prop frame "type") "connect.challenge"
                || is_str (prop frame "event") "connect.challenge"); simpl;
        [apply sendConnect_handlers|reflexivity].
  - unfold onTimeout.
    destruct (nth_error (calls c) n) as [k|]; [|reflexivity].
    destruct (call_timer k); [|reflexivity].
    rewrite settlePromise_handlers. reflexivity.
  - unfold onFallback. destruct (fallbackTimer c); [|reflexivity].
    rewrite sendConnect_handlers. reflexivity.
  - unfold onConnectTimeout. destruct (connectTimeout c); [|reflexivity].
    rewrite settle_handlers. reflexivity.
  - unfold onError.
    destruct (closeWaiter (settle (Rejected message) c));
      [change (handlers (set_connected false ?y)) with (handlers y)|];
      apply settle_handlers.
  - unfold onClose.
    destruct (connected c); simpl.
    + destruct (closeWaiter c); reflexivity.
    + match goal with |- handlers (if ?b then _ else _) = _ => destruct b end;
        [change (handlers (set_connected false (set_ws ?w ?y))) with (handlers y)
        |change (handlers (set_ws ?w ?y)) with (handlers y)]; apply settle_handlers.
  - unfold waitForClose. destruct (ws c); reflexivity.
  - unfold close. destruct (closed c); [reflexivity|].
    match goal with
    | |- handlers (match ws ?y with _ => _ end) = _ =>
        assert (Hf : handlers y = handlers c)
    end.
    { change (handlers (set_pending ?p ?y)) with (handlers y).
      rewrite fold_reject_handlers. reflexivity. }
    destruct (ws _); exact Hf.
Qed.

Lemma existsb_eqb_In (h : nat) (l : list nat) :
  existsb (Nat.eqb h) l = false -> ~ In h l.
Proof.
  intros H Hin. assert (Ht : existsb (Nat.eqb h) l = true).
  { apply existsb_exists. exists h. split; [exact Hin|apply Nat.eqb_refl]. }
  congruence.
Qed.

Lemma filter_out_absent (h : nat) (l : list nat) :
  ~ In h l -> filter (fun h' => negb (Nat.eqb h' h)) l = l.
Proof.
  induction l as [|x l IH]; simpl; [reflexivity|]. intros Hn.
  destruct (Nat.eqb_spec x h) as [->|Hne]; [exfalso; apply Hn; left; reflexivity|].
  simpl. rewrite IH; [reflexivity|]. intros Hin. apply Hn. right. exact Hin.
Qed.

(** X10. The handlers form a set in the order of registration.  Whatever
    happens to a connection, no handler is in it twice, so none is called
    twice for one frame; registering a handler again changes nothing; the
    function returned by [onFrame] takes the handler out again and leaves
    the set as it was before the registration. *)
Theorem handlers_form_a_set (tok : JsVal) (e0 : nat) (es : list ConnEvent) (h : nat) :
  let c := conn_run (newConnection tok e0) es in
  NoDup (handlers c) /\
  onFrame h (onFrame h c) = onFrame h c /\
  In h (handlers (onFrame h c)) /\
  ~ In h (handlers (offFrame h c)) /\
  (~ In h (handlers c) -> handlers (offFrame h (onFrame h c)) = handlers c).
Proof.
  intros c.
  assert (Hnd : NoDup (handlers c)).
  { unfold c, conn_run. clear c.
    assert (H0 : NoDup (handlers (newConnection tok e0))) by constructor.
    revert H0. generalize (newConnection tok e0) as c.
    induction es as [|e es IH]; intros c H0; simpl; [exact H0|].
    apply IH. rewrite handlers_step.
    destruct e; try exact H0.
    - unfold onFrame. destruct (existsb (Nat.eqb h0) (handlers c)) eqn:E; [exact H0|].
      simpl. apply NoDup_app; [exact H0|constructor; [intros []|constructor]|].
      intros x Hx [<-|[]]. exact (existsb_eqb_In _ _ E Hx).
    - simpl. apply NoDup_filter. exact H0. }
  split; [exact Hnd|].
  split.
  { generalize c as d. intros d. unfold onFrame.
    destruct (existsb (Nat.eqb h) (handlers d)) eqn:E.
    - rewrite E. reflexivity.
    - cbn [handlers set_handlers]. rewrite existsb_app. simpl. rewrite Nat.eqb_refl.
      rewrite orb_true_r. reflexivity. }
  split.
  { unfold onFrame. destruct (existsb (Nat.eqb h) (handlers c)) eqn:E.
    - apply existsb_exists in E. destruct E as (x & Hx & Heq).
      apply Nat.eqb_eq in Heq. subst x. exact Hx.
    - simpl. apply in_or_app. right. left. reflexivity. }
  split.
  { simpl. intros Hin. apply filter_In in Hin. destruct Hin as [_ Hb].
    rewrite Nat.eqb_refl in Hb. discriminate Hb. }
  intros Hn. unfold onFrame.
  destruct (existsb (Nat.eqb h) (handlers c)) eqn:E.
  - simpl. apply filter_out_absent. exact Hn.
  - simpl. rewrite filter_app. simpl. rewrite Nat.eqb_refl. simpl.
    rewrite app_nil_r. apply filter_out_absent. exact Hn.
Qed.

(** ** The handler of the relay *)

Lemma sameValueZero_shared (a b c : JsVal) :
  sameValueZero a b = true -> sameValueZero a c = true -> sameValueZero c b = true.
Proof.
  destruct a, b; simpl; try discriminate; destruct c; simpl; try discriminate;
    intros H1 H2.
  - reflexivity.
  - reflexivity.
  - apply Bool.eqb_prop in H1, H2. subst. apply Bool.eqb_reflx.
  - apply Z.eqb_eq in H1, H2. subst. apply Z.eqb_refl.
  - apply String.eqb_eq in H1, H2. subst. apply String.eqb_refl.
Qed.

Lemma map_has_set_kept {K V : Type} (same : K -> K -> bool) (k k' : K) (v : V)
    (m : JsMap K V) :
  map_has same k m = true -> map_has same k (map_set same k' v m) = true.
Proof.
  unfold map_has.
  induction m as [|[k0 v0] m IH]; simpl; [discriminate|].
  destruct (same k0 k') eqn:E1; simpl; destruct (same k0 k); simpl; auto.
Qed.

Lemma map_has_delete_kept {V : Type} (k k' : JsVal) (m : JsMap JsVal V) :
  map_has sameValueZero k m = true ->
  sameValueZero k' k = false ->
  map_has sameValueZero k (map_delete sameValueZero k' m) = true.
Proof.
  unfold map_has, map_delete. intros H Hne.
  induction m as [|[k0 v0] m IH]; simpl in *; [discriminate|].
  destruct (sameValueZero k0 k') eqn:E1; simpl.
  - destruct (sameValueZero k0 k) eqn:E2; simpl in H; [|apply IH; exact H].
    rewrite (sameValueZero_shared k0 k k' E2 E1) in Hne. discriminate.
  - destruct (sameValueZero k0 k) eqn:E2; simpl in *; [reflexivity|apply IH; exact H].
Qed.

Lemma handler_keeps_entry (now : Z) (frame runId : JsVal) (r : Relay) :
  map_has sameValueZero runId (pendingDeltas r) = true ->
  closesRun runId frame = false ->
  map_has sameValueZero runId (pendingDeltas (fst (runConnected_onFrame now frame r))) = true.
Proof.
  intros H Hc. unfold runConnected_onFrame, closesRun in *.
  destruct (is_str (coalesce (prop frame "event") (prop frame "type")) "chat");
    [|exact H].
  unfold onChat.
  destruct (truthy (prop (coalesce (prop frame "payload") frame) "runId")); [|exact H].
  destruct (truthy (prop (coalesce (prop frame "payload") frame) "sessionKey")); [|exact H].
  cbn [andb] in *.
  destruct (is_str (prop (coalesce (prop frame "payload") frame) "state") "delta"
            && truthy (prop (coalesce (prop frame "payload") frame) "message")).
  - destruct (nonempty _); cbn [fst pendingDeltas set_pendingDeltas];
      [apply map_has_set_kept|]; exact H.
  - destruct (is_str (prop (coalesce (prop frame "payload") frame) "state") "final");
      [|exact H].
    cbn [andb] in Hc.
    destruct (nonempty (trim _)); cbn [fst pendingDeltas set_pendingDeltas];
      apply map_has_delete_kept; assumption.
Qed.

Lemma feedFrames_cons (now : Z) (frame : JsVal) (rest : list (Z * JsVal)) (r : Relay) :
  fst (feedFrames ((now, frame) :: rest) r)
  = fst (feedFrames rest (fst (runConnected_onFrame now frame r))).
Proof.
  simpl. destruct (runConnected_onFrame now frame r) as [r1 a1].
  cbn [fst]. destruct (feedFrames rest r1) as [r2 a2]. reflexivity.
Qed.

(** X11. The text recorded for a run stays recorded until a final chat
    event for that run arrives: no other frame, and no final event of
    another run, drops the entry.  A run that ends with an error event or
    with none keeps its entry for as long as the relay lives. *)
Theorem delta_kept_until_final (frames : list (Z * JsVal)) (runId : JsVal) (r : Relay) :
  map_has sameValueZero runId (pendingDeltas r) = true ->
  forallb (fun f => negb (closesRun runId (snd f))) frames = true ->
  map_has sameValueZero runId (pendingDeltas (fst (feedFrames frames r))) = true.
Proof.
  revert r. induction frames as [|[now frame] frames IH]; intros r H Hall.
  - exact H.
  - simpl in Hall. apply andb_prop in Hall. destruct Hall as [Hf Hrest].
    rewrite feedFrames_cons. apply IH; [|exact Hrest].
    apply handler_keeps_entry; [exact H|].
    destruct (closesRun runId frame); [discriminate|reflexivity].
Qed.

Lemma pushChatEvent_finished (instance : string) (now : Z) (sk : JsVal) (text : string)
    (ts : JsVal) :
  truthy sk = true ->
  nonempty (trim text) = true ->
  pushChatEvent instance now (finishedMessage sk text ts)
  = Some (mkPush instance sk "assistant" (slice0 contentCap text) (toNumber ts now)).
Proof.
  intros Hsk Htext. unfold pushChatEvent.
  assert (E1 : prop (finishedMessage sk text ts) "sessionKey" = sk) by reflexivity.
  assert (E2 : prop (finishedMessage sk text ts) "message"
               = JObj [("role", JStr "assistant"); ("content", JStr text); ("timestamp", ts)])
    by reflexivity.
  rewrite E1, E2, Hsk.
  assert (E3 : contentText (prop (JObj [("role", JStr "assistant"); ("content", JStr text);
                                        ("timestamp", ts)]) "content") = text) by reflexivity.
  rewrite E3, Htext. reflexivity.
Qed.

Lemma handler_push_inv (now : Z) (frame : JsVal) (r : Relay) (payload : JsVal) :
  let p := coalesce (prop frame "payload") frame in
  let text := if truthy (prop p "message")
              then eventText (prop (prop p "message") "content") else "" in
  let delta := map_get sameValueZero (prop p "runId") (pendingDeltas r) in
  let ts := match delta with
            | Some d => coalesce (delta_timestamp d) (JNum now)
            | None => JNum now
            end in
  In (PushChatEvent payload) (snd (runConnected_onFrame now frame r)) ->
  truthy (prop p "sessionKey") = true /\
  nonempty (trim (finalTextOf text delta)) = true /\
  payload = finishedMessage (prop p "sessionKey") (finalTextOf text delta) ts.
Proof.
  intros p text delta ts. unfold runConnected_onFrame.
  assert (Hsync : forall b : bool,
             ~ In (PushChatEvent payload) (if b then [SyncSessions] else [])).
  { intros [|] Hin; simpl in Hin; [destruct Hin as [Hd|[]]; discriminate Hd|exact Hin]. }
  destruct (is_str (coalesce (prop frame "event") (prop frame "type")) "chat").
  2: { cbn [snd app]. intros Hin. exfalso. exact (Hsync _ Hin). }
  unfold onChat. fold p.
  destruct (truthy (prop p "runId")).
  2: { cbn [andb snd app]. intros Hin. exfalso. exact (Hsync _ Hin). }
  destruct (truthy (prop p "sessionKey")).
  2: { cbn [andb snd app]. intros Hin. exfalso. exact (Hsync _ Hin). }
  cbn [andb].
  destruct (is_str (prop p "state") "delta" && truthy (prop p "message")).
  { destruct (nonempty _); cbn [snd app]; intros Hin; exfalso; exact (Hsync _ Hin). }
  destruct (is_str (prop p "state") "final").
  2: { cbn [snd app]. intros Hin. exfalso. exact (Hsync _ Hin). }
  fold text. fold delta.
  destruct (nonempty (trim (finalTextOf text delta))).
  2: { cbn [snd app]. intros Hin. exfalso. exact (Hsync _ Hin). }
  cbn [snd]. intros Hin. apply in_app_or in Hin.
  destruct Hin as [[Heq|[]]|Hin]; [|exfalso; exact (Hsync _ Hin)].
  injection Heq as <-. repeat split.
Qed.


(** ** Normalisation *)

Lemma extractGatewayMessage_complete (now : Z) (m : JsVal) (g : GatewayMessage) :
  extractGatewayMessage now m = Some g ->
  truthy (sessionKey g) = true /\ nonempty (content g) = true.
Proof.
  unfold extractGatewayMessage.
  set (sk := coalesce (coalesce (prop m "sessionKey") (prop m "session_id")) (prop m "session")).
  set (body := if typeof_string (prop m "content") then prop m "content"
               else if typeof_string (prop m "text") then prop m "text" else JNull).
  destruct (truthy sk) eqn:Hsk; [|discriminate].
  destruct (truthy body) eqn:Hbody; [|discriminate].
  cbn [negb orb]. intros H. injection H as <-. cbn [sessionKey content].
  split; [exact Hsk|].
  assert (Hstr : typeof_string body = true).
  { unfold body in *. destruct (typeof_string (prop m "content")) eqn:E1; [exact E1|].
    destruct (typeof_string (prop m "text")) eqn:E2; [exact E2|discriminate Hbody]. }
  destruct body; try discriminate Hstr. exact Hbody.
Qed.

Lemma filterSome_Forall {A B : Type} (f : A -> option B) (P : B -> Prop) (l : list A) :
  (forall a b, f a = Some b -> P b) -> Forall P (filterSome (map f l)).
Proof.
  intros H. induction l as [|a l IH]; simpl; [constructor|].
  destruct (f a) as [b|] eqn:E; [constructor; [exact (H a b E)|exact IH]|exact IH].
Qed.

Lemma filterSome_length {A : Type} (l : list (option A)) :
  (List.length (filterSome l) <= List.length l)%nat.
Proof. induction l as [|[a|] l IH]; simpl; lia. Qed.

(** X13. Every message [extractGatewayMessages] returns has a session
    key that is not empty and a content that is a string and not empty; it
    returns at most the messages of [payload.messages] and two more, and none
    when the payload of the frame is not an object. *)
Theorem extracted_messages_are_complete (now : Z) (frame : JsVal) :
  Forall (fun g => truthy (sessionKey g) = true /\ nonempty (content g) = true)
    (extractGatewayMessages now frame) /\
  (List.length (extractGatewayMessages now frame)
   <= List.length (match prop (prop frame "payload") "messages" with
                   | JArr items => items
                   | _ => []
                   end) + 2)%nat /\
  ((forall fields, prop frame "payload" <> JObj fields) ->
   extractGatewayMessages now frame = []).
Proof.
  split; [|split].
  - unfold extractGatewayMessages. apply filterSome_Forall.
    intros m g. apply extractGatewayMessage_complete.
  - unfold extractGatewayMessages.
    eapply Nat.le_trans; [apply filterSome_length|].
    rewrite length_map, !length_app.
    destruct (truthy (prop (prop frame "payload") "message")
              && typeof_object (prop (prop frame "payload") "message"));
      destruct (truthy (prop frame "payload")
                && truthy (prop (prop frame "payload") "sessionKey")
                && truthy (prop (prop frame "payload") "content")); simpl; lia.
  - intros Hno. unfold extractGatewayMessages.
    destruct (prop frame "payload") as [| |b|n|s|items|fields];
      [..|exfalso; exact (Hno fields eq_refl)];
      cbn [prop truthy andb]; rewrite ?andb_false_r; reflexivity.
Qed.

Lemma historyMessage_kept (now : Z) (msg : JsVal) :
  nullish msg = false ->
  historyMessage now msg
  = Some (if historyKeeps msg
          then Some (coerceRole (prop msg "role"),
                     slice0 contentCap (contentText (prop msg "content")),
                     toNumber (coalesce (prop msg "timestamp") (prop msg "ts")) now)
          else None).
Proof.
  intros Hn. unfold historyMessage, prop_strict, historyKeeps. rewrite Hn.
  destruct (is_str (prop msg "role") "toolResult" || is_str (prop msg "role") "tool");
    [reflexivity|].
  cbn [negb andb].
  destruct (nonempty (trim (contentText (prop msg "content")))); reflexivity.
Qed.

Lemma historyLoop_all (now : Z) (raw : list JsVal) :
  existsb nullish raw = false ->
  historyLoop now raw
  = Some (map (fun msg => (coerceRole (prop msg "role"),
                           slice0 contentCap (contentText (prop msg "content")),
                           toNumber (coalesce (prop msg "timestamp") (prop msg "ts")) now))
            (filter historyKeeps raw)).
Proof.
  induction raw as [|msg raw IH]; intros H; [reflexivity|].
  simpl in H. apply orb_false_elim in H. destruct H as [Hmsg Hraw].
  cbn [historyLoop]. rewrite (historyMessage_kept now msg Hmsg), (IH Hraw).
  cbn [filter]. destruct (historyKeeps msg); reflexivity.
Qed.

Lemma historyLoop_nothing (now : Z) (raw : list JsVal) :
  existsb nullish raw = true -> historyLoop now raw = None.
Proof.
  induction raw as [|msg raw IH]; intros H; [discriminate H|].
  simpl in H. cbn [historyLoop].
  destruct (nullish msg) eqn:Hmsg.
  - unfold historyMessage, prop_strict. rewrite Hmsg. reflexivity.
  - simpl in H. rewrite (IH H).
    destruct (historyMessage now msg); reflexivity.
Qed.


Lemma slice0_split (n : nat) (s : string) :
  (exists rest, s = (slice0 n s ++ rest)%string) /\
  String.length (slice0 n s) = Nat.min n (String.length s).
Proof.
  unfold slice0. revert s.
  induction n as [|n IH]; intros [|c s]; simpl.
  - split; [exists ""; reflexivity|reflexivity].
  - split; [exists (String c s); reflexivity|reflexivity].
  - split; [exists ""; reflexivity|reflexivity].
  - destruct (IH s) as [[rest Hrest] Hlen].
    split; [exists rest; rewrite <- Hrest; reflexivity|rewrite Hlen; reflexivity].
Qed.

Lemma slice0_short (n : nat) (s : string) :
  (String.length s <= n)%nat -> slice0 n s = s.
Proof.
  unfold slice0. revert s.
  induction n as [|n IH]; intros [|c s]; simpl; intros H; try reflexivity; try lia.
  rewrite IH by lia. reflexivity.
Qed.

(** X15. What [pushChatEvent] sends as content is the text of the
    message cut after 4000 code units: the text itself when it has no more
    than 4000, its first 4000 otherwise, and never anything that is not a
    beginning of the text.  It sends something only for a text that is not
    blank. *)
Theorem pushed_content_is_truncation (instance : string) (now : Z) (payload : JsVal)
    (m : PushFromGateway) :
  let text := contentText (prop (prop payload "message") "content") in
  pushChatEvent instance now payload = Some m ->
  (exists rest, text = (push_content m ++ rest)%string) /\
  String.length (push_content m) = Nat.min 4000 (String.length text) /\
  ((String.length text <= 4000)%nat -> push_content m = text) /\
  nonempty (trim text) = true.
Proof.
  intros text. unfold pushChatEvent.
  destruct (negb (truthy (prop payload "sessionKey")) || negb (truthy (prop payload "message")));
    [discriminate|].
  fold text. destruct (nonempty (trim text)) eqn:Hblank; [|discriminate].
  cbn [negb]. intros H. injection H as <-. cbn [push_content].
  destruct (slice0_split contentCap text) as [Hrest Hlen].
  split; [exact Hrest|]. split; [exact Hlen|].
  split; [apply slice0_short|reflexivity].
Qed.

(** ** One batch of pushes *)

Lemma hashOfPush_pushOf (r : Relay) (msg : GatewayMessage) :
  hashOfPush (pushOf r msg) = hashGatewayMessage msg.
Proof. destruct msg. reflexivity. Qed.

Lemma pushLoop_keeps_recorded (batch : list (GatewayMessage * MutationOutcome)) (r : Relay)
    (h : string) :
  map_has String.eqb h (recentGatewayMessageHashes r) = true ->
  map_has String.eqb h (recentGatewayMessageHashes (fst (pushLoop batch r))) = true.
Proof.
  revert r. induction batch as [|[msg answer] batch IH]; intros r H; simpl; [exact H|].
  destruct (map_has String.eqb (hashGatewayMessage msg) (recentGatewayMessageHashes r));
    [apply IH; exact H|].
  destruct answer as [now|err].
  - specialize (IH (set_hashes (map_set String.eqb (hashGatewayMessage msg) now
                                  (recentGatewayMessageHashes r)) r)).
    destruct (pushLoop batch _) as [r2 sent]. cbn [fst] in *. apply IH.
    cbn [recentGatewayMessageHashes set_hashes]. rewrite map_has_set, H. apply orb_true_r.
  - specialize (IH r H). destruct (pushLoop batch r) as [r2 sent]. exact IH.
Qed.

Lemma pushLoop_delivers_once (batch : list (GatewayMessage * MutationOutcome)) (r : Relay) :
  let sent := snd (pushLoop batch r) in
  let r' := fst (pushLoop batch r) in
  NoDup (map hashOfPush (delivered sent)) /\
  Forall (fun p => map_has String.eqb (hashOfPush p) (recentGatewayMessageHashes r) = false /\
                   map_has String.eqb (hashOfPush p) (recentGatewayMessageHashes r') = true)
    (delivered sent) /\
  Forall (fun pb => exists msg answer, In (msg, answer) batch /\ fst pb = pushOf r msg) sent.
Proof.
  revert r. induction batch as [|[msg answer] batch IH]; intros r; simpl.
  - split; [constructor|]. split; constructor.
  - destruct (map_has String.eqb (hashGatewayMessage msg) (recentGatewayMessageHashes r))
      eqn:Hhas.
    + destruct (IH r) as (Hnd & Hfresh & Hof).
      split; [exact Hnd|]. split; [exact Hfresh|].
      eapply Forall_impl; [|exact Hof].
      intros pb (m & a & Hin & Hpb). exists m, a. split; [right; exact Hin|exact Hpb].
    + destruct answer as [now|err].
      * set (r1 := set_hashes (map_set String.eqb (hashGatewayMessage msg) now
                                 (recentGatewayMessageHashes r)) r).
        destruct (IH r1) as (Hnd & Hfresh & Hof).
        pose proof (pushLoop_keeps_recorded batch r1 (hashGatewayMessage msg)) as Hkeep.
        destruct (pushLoop batch r1) as [r2 sent]. cbn [fst snd] in *.
        unfold delivered in *. cbn [filter snd map fst].
        assert (Hrec1 : map_has String.eqb (hashGatewayMessage msg)
                          (recentGatewayMessageHashes r1) = true).
        { unfold r1. cbn [recentGatewayMessageHashes set_hashes].
          rewrite map_has_set, String.eqb_refl. reflexivity. }
        split; [|split].
        -- constructor; [|exact Hnd].
           rewrite hashOfPush_pushOf. intros Hin. apply in_map_iff in Hin.
           destruct Hin as (p & Hp & Hin).
           rewrite Forall_forall in Hfresh. destruct (Hfresh p Hin) as [Hf _].
           rewrite Hp in Hf. congruence.
        -- constructor.
           ++ rewrite hashOfPush_pushOf. split; [exact Hhas|exact (Hkeep Hrec1)].
           ++ eapply Forall_impl; [|exact Hfresh].
              intros p [Hf Hr]. split; [|exact Hr].
              unfold r1 in Hf. cbn [recentGatewayMessageHashes set_hashes] in Hf.
              rewrite map_has_set in Hf. apply orb_false_elim in Hf. exact (proj2 Hf).
        -- constructor.
           ++ exists msg, (Resolves now). split; [left; reflexivity|reflexivity].
           ++ eapply Forall_impl; [|exact Hof].
              intros pb (m & a & Hin & Hpb). exists m, a.
              split; [right; exact Hin|exact Hpb].
      * destruct (IH r) as (Hnd & Hfresh & Hof).
        destruct (pushLoop batch r) as [r2 sent]. cbn [fst snd] in *.
        unfold delivered in *. cbn [filter snd map fst].
        split; [exact Hnd|]. split; [exact Hfresh|].
        constructor.
        -- exists msg, (Throws err). split; [left; reflexivity|reflexivity].
        -- eapply Forall_impl; [|exact Hof].
           intros pb (m & a & Hin & Hpb). exists m, a.
           split; [right; exact Hin|exact Hpb].
Qed.

(** X16. In one call of [pushGatewayMessages] no two mutations that
    resolve carry the same session key, role, content and timestamp: the
    second of two equal messages of a batch is skipped once the first is
    stored.  Every message stored was off the record after the pruning and is
    on it when the call returns, and every mutation sent is the one of a
    message of the batch, under the instance of the relay. *)
Theorem batch_delivers_each_message_once (now : Z)
    (batch : list (GatewayMessage * MutationOutcome)) (r : Relay) :
  let sent := snd (pushGatewayMessages now batch r) in
  let r' := fst (pushGatewayMessages now batch r) in
  NoDup (map hashOfPush (delivered sent)) /\
  Forall (fun p =>
            map_has String.eqb (hashOfPush p)
              (recentGatewayMessageHashes (pruneRecentHashes now r)) = false /\
            map_has String.eqb (hashOfPush p) (recentGatewayMessageHashes r') = true)
    (delivered sent) /\
  Forall (fun pb => exists msg answer, In (msg, answer) batch /\ fst pb = pushOf r msg) sent /\
  (List.length sent <= List.length batch)%nat.
Proof.
  intros sent r'. unfold sent, r', pushGatewayMessages.
  destruct batch as [|e batch].
  - cbn [fst snd]. split; [constructor|]. split; [constructor|]. split; [constructor|].
    simpl. lia.
  - destruct (pushLoop_delivers_once (e :: batch) (pruneRecentHashes now r))
      as (Hnd & Hfresh & Hof).
    split; [exact Hnd|]. split; [exact Hfresh|]. split; [exact Hof|].
    generalize (e :: batch) (pruneRecentHashes now r). clear.
    intros batch. induction batch as [|[msg answer] batch IH]; intros r; simpl; [lia|].
    destruct (map_has String.eqb (hashGatewayMessage msg) (recentGatewayMessageHashes r)).
    + specialize (IH r). lia.
    + destruct answer as [now|err].
      * specialize (IH (set_hashes (map_set String.eqb (hashGatewayMessage msg) now
                                      (recentGatewayMessageHashes r)) r)).
        destruct (pushLoop batch _) as [r2 sent]. simpl in *. lia.
      * specialize (IH r). destruct (pushLoop batch r) as [r2 sent]. simpl in *. lia.
Qed.

Lemma filter_filter_implied {A : Type} (f g : A -> bool) (l : list A) :
  (forall a, g a = true -> f a = true) -> filter g (filter f l) = filter g l.
Proof.
  intros H. induction l as [|a l IH]; simpl; [reflexivity|].
  destruct (f a) eqn:Ef; simpl.
  - rewrite IH. reflexivity.
  - destruct (g a) eqn:Eg; [rewrite (H a Eg) in Ef; discriminate|exact IH].
Qed.

(** X17. [pruneRecentHashes] keeps exactly the hashes recorded no more
    than ten minutes before the clock reading, in their order, and touches
    nothing else of the relay.  Pruning twice at one clock reading is pruning
    once, and a pruning is absorbed by any later one. *)
Theorem prune_keeps_ten_minutes (now : Z) (r : Relay) :
  let r' := pruneRecentHashes now r in
  (forall h ts, In (h, ts) (recentGatewayMessageHashes r') <->
                In (h, ts) (recentGatewayMessageHashes r) /\ now - ts <= 600000) /\
  pruneRecentHashes now r' = r' /\
  (forall later, now <= later -> pruneRecentHashes later r' = pruneRecentHashes later r) /\
  set_hashes (recentGatewayMessageHashes r) r' = r.
Proof.
  intros r'. unfold r', pruneRecentHashes. cbn [recentGatewayMessageHashes set_hashes].
  split; [|split; [|split]].
  - intros h ts. rewrite filter_In. cbn [snd]. unfold retentionMs.
    rewrite negb_true_iff, Z.ltb_ge. split; intros [Hin Hle]; (split; [exact Hin|lia]).
  - unfold set_hashes. cbn.
    rewrite filter_filter_implied by (intros a Ha; exact Ha). reflexivity.
  - intros later Hle. unfold set_hashes. cbn.
    rewrite filter_filter_implied; [reflexivity|].
    intros a Ha. rewrite negb_true_iff, Z.ltb_ge in *. lia.
  - destruct r. reflexivity.
Qed.

(** ** The reconnect loop *)

Ltac relay_fields :=
  cbn [instanceId gatewayToken running reconnectAttempt recentGatewayMessageHashes
       pendingDeltas conn phase built sleeps entropy set_running set_reconnectAttempt
       set_hashes set_pendingDeltas set_conn set_phase set_loop newRelay] in *.

Lemma handler_result (now : Z) (frame : JsVal) (r : Relay) :
  fst (runConnected_onFrame now frame r) = r \/
  exists d, fst (runConnected_onFrame now frame r) = set_pendingDeltas d r.
Proof.
  unfold runConnected_onFrame, onChat.
  destruct (is_str (coalesce (prop frame "event") (prop frame "type")) "chat");
    [|left; reflexivity].
  destruct (truthy _ && truthy _); [|left; reflexivity].
  destruct (is_str _ "delta" && truthy _).
  - destruct (nonempty _); [right; eexists; reflexivity|left; reflexivity].
  - destruct (is_str _ "final"); [|left; reflexivity].
    destruct (nonempty (trim _)); right; eexists; reflexivity.
Qed.

Lemma backoff_range (n : Z) : 1 <= n -> 2000 <= backoff n <= 30000.
Proof.
  intros Hn. unfold backoff.
  assert (H1 : 2 ^ 1 <= 2 ^ Z.min n 5) by (apply Z.pow_le_mono_r; lia).
  assert (H5 : 2 ^ Z.min n 5 <= 2 ^ 5) by (apply Z.pow_le_mono_r; lia).
  change (2 ^ 1) with 2 in H1. change (2 ^ 5) with 32 in H5. lia.
Qed.

Lemma loop_bounds_loopHead (r : Relay) : loop_bounds r -> loop_bounds (loopHead r).
Proof.
  intros (Ha & Hs & Hp). unfold loopHead, loop_bounds.
  destruct (running r); relay_fields; (split; [exact Ha|split; [exact Hs|discriminate]]).
Qed.

Lemma loop_bounds_step (r : Relay) (e : RelayEvent) :
  unitDraw e -> loop_bounds r -> loop_bounds (relay_step r e).
Proof.
  intros Hdraw Hinv. pose proof Hinv as (Ha & Hs & Hp).
  destruct e as [|e|e|now frame|]; cbn [relay_step].
  - unfold start. destruct (phase r); try exact Hinv. apply loop_bounds_loopHead. exact Hinv.
  - unfold resume.
    destruct (phase r) as [| | |leave|waitMs|] eqn:Hph; destruct e; try exact Hinv.
    + unfold loop_bounds. relay_fields. split; [lia|]. split; [exact Hs|discriminate].
    + unfold enterFinally, loop_bounds. relay_fields. split; [exact Ha|split; [exact Hs|discriminate]].
    + unfold enterFinally, loop_bounds. relay_fields. split; [exact Ha|split; [exact Hs|discriminate]].
    + unfold enterFinally, loop_bounds. relay_fields. split; [exact Ha|split; [exact Hs|discriminate]].
    + cbn in Hdraw. destruct Hdraw as [H0 H1].
      pose proof (jitter_range random H0 H1) as Hj.
      pose proof (backoff_range (reconnectAttempt r + 1) ltac:(lia)) as Hb.
      cbn [running set_loop set_conn].
      destruct (leave || negb (running r)).
      * unfold loop_bounds. relay_fields. split; [exact Ha|split; [exact Hs|discriminate]].
      * unfold loop_bounds. relay_fields. split; [lia|]. split.
        -- apply Forall_app. split; [exact Hs|]. constructor; [|constructor].
           unfold sleepBound. lia.
        -- intros w Hw. injection Hw as <-. unfold sleepBound. lia.
    + apply loop_bounds_loopHead. exact Hinv.
  - unfold loop_bounds. relay_fields. split; [exact Ha|split; [exact Hs|exact Hp]].
  - destruct (handler_result now frame r) as [->|[d ->]]; [exact Hinv|].
    unfold loop_bounds. relay_fields. split; [exact Ha|split; [exact Hs|exact Hp]].
  - unfold stop, loop_bounds. relay_fields. split; [exact Ha|split; [exact Hs|exact Hp]].
Qed.

(** X18. Whatever happens to a relay, every sleep of its reconnect loop
    lasts from 2 s to 30.499 s, the sleep in course included, and the count
    of attempts is never negative: no event makes the loop spin without a
    pause or wait longer than the cap and the jitter allow. *)
Theorem sleeps_within_bounds (instance : string) (tok : JsVal) (es : list RelayEvent) :
  Forall unitDraw es ->
  let r := relay_run (newRelay instance tok) es in
  0 <= reconnectAttempt r /\
  Forall (fun w => 2000 <= w <= 30499) (sleeps r) /\
  (forall w, phase r = AwaitSleep w -> 2000 <= w <= 30499).
Proof.
  intros Hes r.
  assert (H : loop_bounds r).
  { unfold r, relay_run. clear r.
    assert (H0 : loop_bounds (newRelay instance tok)).
    { unfold loop_bounds. relay_fields. split; [lia|]. split; [constructor|discriminate]. }
    revert H0. generalize (newRelay instance tok) as r0.
    induction Hes as [|e es He Hes IH]; intros r0 H0; simpl; [exact H0|].
    apply IH. apply loop_bounds_step; assumption. }
  exact H.
Qed.

Lemma loop_shape_loopHead (r : Relay) :
  conn r = None -> built r = List.length (sleeps r) -> loop_shape (loopHead r).
Proof.
  intros Hc Hb. unfold loopHead, loop_shape.
  destruct (running r); relay_fields.
  - split; [discriminate|]. rewrite Hb. reflexivity.
  - split; [exact Hc|]. left. exact Hb.
Qed.

Lemma option_map_some {A B : Type} (f : A -> B) (o : option A) :
  o <> None -> option_map f o <> None.
Proof. destruct o; simpl; [discriminate|intros H; exfalso; apply H; reflexivity]. Qed.

Lemma option_map_none {A B : Type} (f : A -> B) (o : option A) :
  o = None -> option_map f o = None.
Proof. intros ->. reflexivity. Qed.

Lemma loop_shape_step (r : Relay) (e : RelayEvent) :
  loop_shape r -> loop_shape (relay_step r e).
Proof.
  intros Hinv. unfold loop_shape in Hinv.
  destruct e as [|e|e|now frame|]; cbn [relay_step].
  - unfold start. destruct (phase r) eqn:Hph;
      try (unfold loop_shape; rewrite Hph; exact Hinv).
    apply loop_shape_loopHead; apply Hinv.
  - unfold resume.
    destruct (phase r) as [| | |leave|waitMs|] eqn:Hph; destruct e;
      try (unfold loop_shape; rewrite Hph; exact Hinv); destruct Hinv as [Hc Hb].
    + unfold loop_shape. relay_fields. split; [apply option_map_some; exact Hc|exact Hb].
    + unfold enterFinally, loop_shape. relay_fields.
      split; [apply option_map_some; exact Hc|exact Hb].
    + unfold enterFinally, loop_shape. relay_fields.
      split; [do 2 apply option_map_some; exact Hc|exact Hb].
    + unfold enterFinally, loop_shape. relay_fields.
      split; [apply option_map_some; exact Hc|exact Hb].
    + cbn [running set_loop set_conn]. destruct (leave || negb (running r)).
      * unfold loop_shape. relay_fields. split; [reflexivity|right; exact Hb].
      * unfold loop_shape. relay_fields. split; [reflexivity|].
        rewrite length_app, Hb. simpl. lia.
    + apply loop_shape_loopHead; assumption.
  - unfold loop_shape. relay_fields.
    destruct (phase r); destruct Hinv as [Hc Hb];
      (split; [first [apply option_map_some|apply option_map_none]; exact Hc|exact Hb]).
  - destruct (handler_result now frame r) as [->|[d ->]]; [exact Hinv|].
    unfold loop_shape. relay_fields. exact Hinv.
  - unfold stop, loop_shape. relay_fields.
    destruct (phase r); destruct Hinv as [Hc Hb];
      (split; [first [apply option_map_some|apply option_map_none]; exact Hc|exact Hb]).
Qed.

(** X19. A relay holds a connection exactly from the moment the loop
    builds one until the [finally] block has closed and dropped it: not
    before [start], not while the loop sleeps, not once it has ended.  The
    connections are built one after the other, each but the last followed by
    one sleep. *)
Theorem connection_held_while_looping (instance : string) (tok : JsVal)
    (es : list RelayEvent) :
  let r := relay_run (newRelay instance tok) es in
  (conn r = None <-> idle (phase r) = true) /\
  (conn r <> None -> built r = S (List.length (sleeps r))) /\
  (List.length (sleeps r) <= built r <= S (List.length (sleeps r)))%nat.
Proof.
  intros r.
  assert (H : loop_shape r).
  { unfold r, relay_run. clear r.
    assert (H0 : loop_shape (newRelay instance tok)) by (split; reflexivity).
    revert H0. generalize (newRelay instance tok) as r0.
    induction es as [|e es IH]; intros r0 H0; simpl; [exact H0|].
    apply IH. apply loop_shape_step. exact H0. }
  unfold loop_shape in H.
  destruct (phase r); cbn [idle]; destruct H as [Hc Hb].
  - split; [split; [reflexivity|intros _; exact Hc]|]. split; [congruence|lia].
  - split; [split; [intros; contradiction|discriminate]|]. split; [intros _; exact Hb|lia].
  - split; [split; [intros; contradiction|discriminate]|]. split; [intros _; exact Hb|lia].
  - split; [split; [intros; contradiction|discriminate]|]. split; [intros _; exact Hb|lia].
  - split; [split; [reflexivity|intros _; exact Hc]|]. split; [congruence|lia].
  - split; [split; [reflexivity|intros _; exact Hc]|]. split; [congruence|lia].
Qed.

Lemma connected_events_keep_loop (es : list RelayEvent) (r : Relay) :
  forallb whileConnected es = true ->
  let r' := relay_run r es in
  phase r' = phase r /\ running r' = running r /\
  reconnectAttempt r' = reconnectAttempt r /\ sleeps r' = sleeps r /\ built r' = built r.
Proof.
  revert r. induction es as [|e es IH]; intros r Hes; [repeat split|].
  simpl in Hes. apply andb_prop in Hes. destruct Hes as [He Hes].
  specialize (IH (relay_step r e) Hes). cbv zeta in *.
  change (relay_run r (e :: es)) with (relay_run (relay_step r e) es).
  destruct IH as (-> & -> & -> & -> & ->).
  destruct e as [|e|e|now frame|]; try discriminate He; cbn [relay_step].
  - repeat split.
  - destruct (handler_result now frame r) as [->|[d ->]]; repeat split.
Qed.


(** ** Sessions *)

Lemma stringAndTruthy_nonempty (v : JsVal) (s : string) :
  stringAndTruthy v = Some s -> nonempty s = true.
Proof.
  destruct v; try discriminate. simpl.
  destruct (nonempty s0) eqn:E; [|discriminate]. intros H. injection H as <-. exact E.
Qed.

Lemma extractSession_wellformed (now : Z) (session : JsVal) (s : Session) :
  extractSession now session = Some s ->
  JStr (session_sessionKey s)
  = coalesce (coalesce (prop session "sessionKey") (prop session "key")) (prop session "id") /\
  nonempty (session_sessionKey s) = true /\
  nonempty (session_title s) = true /\
  (session_sessionKey s = "agent:main:main" -> session_title s = "Main Chat") /\
  (coalesce (prop session "createdAt") (prop session "created_at") = JUndefined ->
   session_createdAt s = session_updatedAt s) /\
  (coalesce (prop session "createdAt") (prop session "created_at") = JNull ->
   session_createdAt s = 0).
Proof.
  unfold extractSession.
  destruct (coalesce (coalesce (prop session "sessionKey") (prop session "key"))
              (prop session "id")) as [| |b|n|key|items|fields]; try discriminate.
  destruct (nonempty key) eqn:Hkey; [|discriminate]. cbn [negb].
  intros H. injection H as <-.
  cbn [session_sessionKey session_title session_createdAt session_updatedAt].
  split; [reflexivity|]. split; [exact Hkey|].
  split.
  { destruct (key =? "agent:main:main")%string; [reflexivity|].
    destruct (stringAndTruthy (prop session "label")) eqn:E1;
      [exact (stringAndTruthy_nonempty _ _ E1)|].
    destruct (stringAndTruthy (prop session "displayName")) eqn:E2;
      [exact (stringAndTruthy_nonempty _ _ E2)|].
    destruct (stringAndTruthy (prop session "title")) eqn:E3;
      [exact (stringAndTruthy_nonempty _ _ E3)|].
    destruct (stringAndTruthy (prop session "name")) eqn:E4;
      [exact (stringAndTruthy_nonempty _ _ E4)|exact Hkey]. }
  split; [intros ->; reflexivity|].
  split; intros ->; reflexivity.
Qed.

Lemma filterSome_mapi_In {A B : Type} (f : nat -> A -> option B) (l : list A) (i : nat)
    (b : B) :
  In b (filterSome (mapi f i l)) ->
  exists k a, nth_error l k = Some a /\ f (i + k)%nat a = Some b.
Proof.
  revert i. induction l as [|a l IH]; intros i; simpl; [intros []|].
  destruct (f i a) as [b'|] eqn:E.
  - intros [<-|Hin].
    + exists 0%nat, a. rewrite Nat.add_0_r. split; [reflexivity|exact E].
    + destruct (IH (S i) Hin) as (k & a' & Hk & Hf).
      exists (S k), a'. rewrite Nat.add_succ_r. split; [exact Hk|exact Hf].
  - intros Hin. destruct (IH (S i) Hin) as (k & a' & Hk & Hf).
    exists (S k), a'. rewrite Nat.add_succ_r. split; [exact Hk|exact Hf].
Qed.

Lemma length_mapi {A B : Type} (f : nat -> A -> B) (i : nat) (l : list A) :
  List.length (mapi f i l) = List.length l.
Proof. revert i. induction l as [|a l IH]; intros i; simpl; [|rewrite IH]; reflexivity. Qed.

(** X21. Every session [extractSessions] returns has a key that is a
    string and not empty, read from [sessionKey], [key] or [id], and a title
    that is not empty; the session "agent:main:main" is always titled
    "Main Chat", whatever label it came with.  A session without a creation
    time is given its update time, and one whose creation time is [null] is
    given 0.  [syncSessions] never sends an empty list, and sends nothing
    when its request is rejected. *)
Theorem extracted_sessions_are_wellformed (clock : nat -> Z) (payload : JsVal) :
  (forall s, In s (extractSessions clock payload) ->
     nonempty (session_sessionKey s) = true /\
     nonempty (session_title s) = true /\
     (session_sessionKey s = "agent:main:main" -> session_title s = "Main Chat") /\
     exists i session,
       extractSession (clock i) session = Some s /\
       JStr (session_sessionKey s)
       = coalesce (coalesce (prop session "sessionKey") (prop session "key"))
           (prop session "id") /\
       (coalesce (prop session "createdAt") (prop session "created_at") = JUndefined ->
        session_createdAt s = session_updatedAt s) /\
       (coalesce (prop session "createdAt") (prop session "created_at") = JNull ->
        session_createdAt s = 0)) /\
  (isArray payload = false -> isArray (prop payload "sessions") = false ->
   extractSessions clock payload = []) /\
  (forall response r instance sessions,
     syncSessions clock response r = Some (instance, sessions) ->
     instance = instanceId r /\ sessions <> [] /\
     exists p, response = Fulfilled p /\ sessions = extractSessions clock p) /\
  (forall err r, syncSessions clock (Rejected err) r = None).
Proof.
  split; [|split; [|split]].
  - intros s Hin. unfold extractSessions in Hin.
    apply filterSome_mapi_In in Hin. destruct Hin as (k & session & _ & Hs).
    destruct (extractSession_wellformed _ _ _ Hs) as (Hk & Hne & Ht & Hmain & Hc & Hc0).
    split; [exact Hne|]. split; [exact Ht|]. split; [exact Hmain|].
    exists (0 + k)%nat, session. repeat split; assumption.
  - intros Ha Hs. unfold extractSessions.
    destruct payload; try discriminate Ha;
      destruct (prop _ "sessions"); try discriminate Hs; reflexivity.
  - intros response r instance sessions. unfold syncSessions.
    destruct response as [p|err]; [|discriminate].
    destruct (extractSessions clock p) as [|s l] eqn:E; [discriminate|].
    intros H. injection H as <- <-.
    split; [reflexivity|]. split; [discriminate|].
    exists p. split; [reflexivity|symmetry; exact E].
  - reflexivity.
Qed.

(** ** Messages of the app *)

Lemma promise_run_kept (es : list ConnEvent) (c : GatewayConnection) (n : nat)
    (s : Settlement) :
  promise n c = Some s -> promise n (conn_run c es) = Some s.
Proof.
  revert c. unfold conn_run.
  induction es as [|e es IH]; intros c H; simpl; [exact H|].
  apply IH. apply promise_step_kept. exact H.
Qed.

Lemma request_new_call (method : string) (payload : JsVal) (timeoutMs : Z)
    (c : GatewayConnection) :
  exists id, callInfo (snd (request method payload timeoutMs c))
               (fst (request method payload timeoutMs c)) = Some (id, method).
Proof.
  unfold request, callInfo.
  destruct (ws c) as [[]|]; cbn [fst snd calls set_calls set_sent set_pending set_draws];
    rewrite nth_error_app2 by lia; rewrite Nat.sub_diag; eexists; reflexivity.
Qed.

Lemma sendToGateway_request_keeps (message : JsVal) (c c1 : GatewayConnection) (n : nat) :
  sendToGateway_request message c = Some (c1, n) ->
  truthy (prop message "sessionKey") = true /\
  truthy (prop message "content") = true /\
  (exists id, callInfo n c1 = Some (id, "chat.send")) /\
  (forall m s, promise m c = Some s -> promise m c1 = Some s) /\
  (forall m x, callInfo m c = Some x -> callInfo m c1 = Some x).
Proof.
  unfold sendToGateway_request.
  destruct (truthy (prop message "sessionKey")); [|discriminate].
  destruct (truthy (prop message "content")); [|discriminate].
  cbn [negb orb].
  destruct (typeof_string (prop message "_id")); intros H; injection H as H;
    match type of H with
    | request ?m ?p ?t ?c0 = _ =>
        pose proof (request_new_call m p t c0) as Hnew;
        pose proof (fun k s => promise_request_kept m p t c0 k s) as Hp;
        pose proof (fun k x => callInfo_step c0 (EvRequest m p t) k x) as Hi;
        cbn [conn_step] in Hi; rewrite H in Hnew, Hp, Hi; cbn [fst snd] in Hnew, Hp, Hi
    end;
    (split; [reflexivity|]); (split; [reflexivity|]); (split; [exact Hnew|]);
    (split; [intros m s Hm; apply Hp; exact Hm|intros m x Hm; apply Hi; exact Hm]).
Qed.

Lemma sendToGateway_call_keeps (message : JsVal) (w : Await) (r r' : Relay)
    (c c' : GatewayConnection) (b : option bool) :
  sendToGateway_call message w r c = (r', c', b) ->
  (forall m s, promise m c = Some s -> promise m c' = Some s) /\
  (forall m x, callInfo m c = Some x -> callInfo m c' = Some x) /\
  (b = Some true ->
   truthy (prop message "sessionKey") = true /\
   truthy (prop message "content") = true /\
   exists n rid value,
     callInfo n c' = Some (rid, "chat.send") /\
     promise n c' = Some (Fulfilled value) /\ value <> JUndefined).
Proof.
  unfold sendToGateway_call.
  destruct (sendToGateway_request message c) as [[c1 n]|] eqn:Hreq.
  2: { intros H. injection H as <- <- <-.
       split; [auto|]. split; [auto|discriminate]. }
  destruct (sendToGateway_request_keeps message c c1 n Hreq)
    as (Hsk & Hcontent & [rid Hnew] & Hp & Hi).
  destruct (promise n (conn_run c1 (await_events w))) as [s|] eqn:Hs.
  2: { intros H. injection H as <- <- <-.
       split; [intros m s Hm; apply promise_run_kept, Hp, Hm|].
       split; [intros m x Hm; apply callInfo_run, Hi, Hm|discriminate]. }
  destruct (sendToGateway_settled (await_now w) s (await_answer w) r) as [[r1 pushed] sent]
    eqn:Hsettled.
  intros H. injection H as <- <- <-.
  split; [intros m s' Hm; do 2 apply promise_run_kept; apply Hp, Hm|].
  split; [intros m x Hm; do 2 apply callInfo_run; apply Hi, Hm|].
  intros Hb. injection Hb as ->.
  split; [exact Hsk|]. split; [exact Hcontent|].
  unfold sendToGateway_settled in Hsettled.
  destruct s as [value|err]; [|discriminate Hsettled].
  exists n, rid, value.
  split; [do 2 apply callInfo_run; exact Hnew|].
  split; [apply promise_run_kept; exact Hs|].
  intros ->. discriminate Hsettled.
Qed.

Lemma forwarded_later (all : list (JsVal * Await)) (c c' : GatewayConnection) (id : JsVal) :
  (forall m s, promise m c = Some s -> promise m c' = Some s) ->
  (forall m x, callInfo m c = Some x -> callInfo m c' = Some x) ->
  forwarded all c id -> forwarded all c' id.
Proof.
  intros Hp Hi (Hid & message & w & n & rid & value & Hin & Hm & Hsk & Hc & Hcall & Hprom & Hv).
  split; [exact Hid|].
  exists message, w, n, rid, value.
  repeat split; auto.
Qed.

Lemma forwardLoop_marks (all unsynced : list (JsVal * Await)) :
  (forall x, In x unsynced -> In x all) ->
  forall syncedIds r c r' c' ids,
    forwardLoop unsynced syncedIds r c = (r', c', Marked ids) ->
    Forall (forwarded all c) syncedIds ->
    Forall (forwarded all c') ids /\
    (List.length ids <= List.length syncedIds + List.length unsynced)%nat.
Proof.
  induction unsynced as [|[message w] rest IH]; intros Hall syncedIds r c r' c' ids.
  - simpl. intros H. injection H as <- <- <-. intros Hf. split; [exact Hf|lia].
  - cbn [forwardLoop].
    destruct (nullish message); [discriminate|].
    destruct (sendToGateway_call message w r c) as [[r1 c1] [sent|]] eqn:Hcall;
      [|discriminate].
    destruct (sendToGateway_call_keeps _ _ _ _ _ _ _ Hcall) as (Hp & Hi & Hsent).
    intros Hloop Hf.
    assert (Hrest : forall x, In x rest -> In x all)
      by (intros x Hx; apply Hall; right; exact Hx).
    assert (Hf1 : Forall (forwarded all c1) syncedIds).
    { eapply Forall_impl; [|exact Hf]. intros id. apply forwarded_later; assumption. }
    destruct (sent && truthy (prop message "_id")) eqn:Hmark.
    + apply andb_prop in Hmark. destruct Hmark as [-> Hid].
      destruct (Hsent eq_refl) as (Hsk & Hcontent & n & rid & value & Hn & Hprom & Hv).
      destruct (IH Hrest _ _ _ _ _ _ Hloop) as [Hok Hlen].
      * apply Forall_app. split; [exact Hf1|]. constructor; [|constructor].
        split; [exact Hid|].
        exists message, w, n, rid, value.
        repeat split; auto. apply Hall. left. reflexivity.
      * split; [exact Hok|]. rewrite length_app in Hlen. simpl in *. lia.
    + destruct (IH Hrest _ _ _ _ _ _ Hloop Hf1) as [Hok Hlen].
      split; [exact Hok|]. simpl. lia.
Qed.


Lemma forwardLoop_app (before after : list (JsVal * Await)) (syncedIds : list JsVal)
    (r : Relay) (c : GatewayConnection) :
  forwardLoop (before ++ after) syncedIds r c
  = match forwardLoop before syncedIds r c with
    | (r1, c1, Marked ids) => forwardLoop after ids r1 c1
    | stopped => stopped
    end.
Proof.
  revert syncedIds r c.
  induction before as [|[message w] before IH]; intros syncedIds r c; [reflexivity|].
  cbn [app forwardLoop].
  destruct (nullish message); [reflexivity|].
  destruct (sendToGateway_call message w r c) as [[r1 c1] [sent|]]; [apply IH|reflexivity].
Qed.

(** X23. A message that is [null] or [undefined] in the result of the
    query ends the pass of [forwardUnsyncedAppMessages] at once: the
    messages after it are not forwarded, and nothing is marked as synced,
    not even the messages before it that were forwarded and answered, which
    the next pass finds unsynced again. *)
Theorem null_message_aborts_pass (before after : list (JsVal * Await)) (message : JsVal)
    (w : Await) (r : Relay) (c : GatewayConnection) :
  nullish message = true ->
  let '(r1, c1, pass) := forwardLoop before [] r c in
  pass <> Waiting ->
  forwardLoop (before ++ (message, w) :: after) [] r c = (r1, c1, Threw) /\
  forwardUnsyncedAppMessages (before ++ (message, w) :: after) r c = (r1, c1, None).
Proof.
  intros Hnull.
  pose proof (forwardLoop_app before ((message, w) :: after) [] r c) as Happ.
  unfold forwardUnsyncedAppMessages.
  destruct (forwardLoop before [] r c) as [[r1 c1] pass].
  intros Hpass. destruct pass as [ids| |]; [| |congruence].
  - cbn [forwardLoop] in Happ. rewrite Hnull in Happ. rewrite Happ.
    split; reflexivity.
  - rewrite Happ. split; reflexivity.
Qed.

(** X24. [sendToGateway] makes no request for a message without a
    session key or without a content.  For a complete message it sends one
    ["chat.send"] request with the session key, the content and an
    idempotency key: the [_id] of the message when that is a string, so that
    the same message sent again carries the same key, and a fresh draw
    otherwise, made before the identifier of the request is drawn.  On a
    socket that is not open nothing is sent and the request is rejected. *)
Theorem chat_send_carries_message_id (message : JsVal) (c : GatewayConnection) :
  let sk := prop message "sessionKey" in
  let content := prop message "content" in
  let params key := JObj [("sessionKey", sk); ("message", content); ("idempotencyKey", key)] in
  (truthy sk && truthy content = false -> sendToGateway_request message c = None) /\
  (truthy sk && truthy content = true ->
   exists c1 n,
     sendToGateway_request message c = Some (c1, n) /\
     n = List.length (calls c) /\
     (ws c = Some OPEN ->
      promise n c1 = None /\ timerArmed n c1 = true /\
      (typeof_string (prop message "_id") = true ->
       sent c1 = sent c ++ [reqFrame (randomUUID (draws c)) "chat.send"
                              (params (prop message "_id"))] /\
       draws c1 = S (draws c)) /\
      (typeof_string (prop message "_id") = false ->
       sent c1 = sent c ++ [reqFrame (randomUUID (S (draws c))) "chat.send"
                              (params (JStr (randomUUID (draws c))))] /\
       draws c1 = S (S (draws c)))) /\
     (ws c <> Some OPEN ->
      promise n c1 = Some (Rejected "Gateway socket is not open") /\
      sent c1 = sent c)).
Proof.
  intros sk content params. unfold sendToGateway_request. fold sk. fold content.
  split.
  - intros H. destruct (truthy sk); destruct (truthy content); try discriminate H; reflexivity.
  - intros H. apply andb_prop in H. destruct H as [-> ->]. cbn [negb orb].
    destruct (typeof_string (prop message "_id")) eqn:Hid.
    + eexists _, _. split; [apply f_equal; apply surjective_pairing|].
      split; [unfold request; destruct (ws c) as [[]|]; reflexivity|].
      split.
      * intros Hws. unfold request, promise, timerArmed. rewrite Hws.
        cbn [fst snd calls set_calls set_sent set_pending set_draws sent draws].
        rewrite nth_error_app2 by lia. rewrite Nat.sub_diag. cbn [nth_error call_promise call_timer].
        split; [reflexivity|]. split; [reflexivity|].
        split; [intros _; split; reflexivity|discriminate].
      * intros Hws. unfold request, promise.
        destruct (ws c) as [[]|] eqn:E; try congruence;
          cbn [fst snd calls set_calls sent];
          rewrite nth_error_app2 by lia; rewrite Nat.sub_diag; split; reflexivity.
    + eexists _, _. split; [apply f_equal; apply surjective_pairing|].
      split; [unfold request; cbn [ws set_draws calls]; destruct (ws c) as [[]|]; reflexivity|].
      split.
      * intros Hws. unfold request, promise, timerArmed. cbn [ws set_draws]. rewrite Hws.
        cbn [fst snd calls set_calls set_sent set_pending set_draws sent draws].
        rewrite nth_error_app2 by lia. rewrite Nat.sub_diag. cbn [nth_error call_promise call_timer].
        split; [reflexivity|]. split; [reflexivity|].
        split; [discriminate|intros _; split; reflexivity].
      * intros Hws. unfold request, promise. cbn [ws set_draws].
        destruct (ws c) as [[]|] eqn:E; try congruence;
          cbn [fst snd calls set_calls sent set_draws];
          rewrite nth_error_app2 by lia; rewrite Nat.sub_diag; split; reflexivity.
Qed.

(** ** Cron actions *)

Lemma followedByReport_app (e1 e2 : list CronEffect) :
  followedByReport e1 -> followedByReport e2 -> followedByReport (e1 ++ e2).
Proof.
  intros H1 H2 i command Hi.
  destruct (Nat.ltb_spec i (List.length e1)) as [Hlt|Hge].
  - rewrite nth_error_app1 in Hi by exact Hlt.
    destruct (H1 i command Hi) as (a & s & e & b & Hn).
    exists a, s, e, b. rewrite nth_error_app1; [exact Hn|].
    apply nth_error_Some. congruence.
  - rewrite nth_error_app2 in Hi by exact Hge.
    destruct (H2 _ command Hi) as (a & s & e & b & Hn).
    exists a, s, e, b. rewrite nth_error_app2 by lia.
    replace (S i - List.length e1)%nat with (S (i - List.length e1)) by lia. exact Hn.
Qed.

Lemma cmdMap_shell (action : JsVal) (command : string) :
  cmdMap action = Some (Shell command) ->
  exists verb, In verb ["enable"; "disable"; "run"; "rm"] /\
    command = ("openclaw cron " ++ verb ++ " " ++ toString (prop action "jobId"))%string.
Proof.
  unfold cmdMap.
  destruct (toString (prop action "action") =? "enable")%string;
    [intros H; injection H as <-; exists "enable"; simpl; auto|].
  destruct (toString (prop action "action") =? "disable")%string;
    [intros H; injection H as <-; exists "disable"; simpl; auto|].
  destruct (toString (prop action "action") =? "run")%string;
    [intros H; injection H as <-; exists "run"; simpl; auto|].
  destruct (toString (prop action "action") =? "remove")%string;
    [intros H; injection H as <-; exists "rm"; simpl; auto 6|].
  destruct (existsb _ objectPrototypeKeys); discriminate.
Qed.

Lemma reportError_turn (actions : list (JsVal * CronWorld)) (action : JsVal) (w : CronWorld)
    (before : list CronEffect) (message : string) :
  In (action, w) actions ->
  Forall (cronEffectOf actions) before ->
  Forall (cronEffectOf actions) (fst (reportError action w before message)).
Proof.
  intros Hin Hb. unfold reportError.
  assert (He : forall b, cronEffectOf actions
                 (CompleteAction (prop action "_id") "error" (Some (slice0 200 message)) b)).
  { intros b. split; [exists action, w; split; [exact Hin|reflexivity]|].
    right. split; [reflexivity|]. eexists. split; [reflexivity|apply slice0_length]. }
  destruct (error_throws w); cbn [fst]; apply Forall_app; split; auto.
Qed.

Lemma cronTurn_effects (actions : list (JsVal * CronWorld)) (action : JsVal) (w : CronWorld) :
  In (action, w) actions ->
  let effects := fst (cronTurn action w) in
  Forall (cronEffectOf actions) effects /\ followedByReport effects /\
  (List.length (filter (fun e => match e with ExecSync _ => true | _ => false end) effects)
   <= 1)%nat /\
  (exists before actionId status error resolved,
     effects = before ++ [CompleteAction actionId status error resolved] /\
     actionId = prop action "_id" /\
     (snd (cronTurn action w) = false <-> status = "error" /\ resolved = false)).
Proof.
  intros Hin effects. unfold effects, cronTurn.
  assert (Hdone : forall b, cronEffectOf actions
                    (CompleteAction (prop action "_id") "done" None b)).
  { intros b. split; [exists action, w; split; [exact Hin|reflexivity]|].
    left. split; reflexivity. }
  assert (Hlast : forall before message,
             exists before' actionId status error resolved,
               fst (reportError action w before message)
               = before' ++ [CompleteAction actionId status error resolved] /\
               actionId = prop action "_id" /\
               (snd (reportError action w before message) = false <->
                status = "error" /\ resolved = false)).
  { intros before message. unfold reportError.
    destruct (error_throws w); cbn [fst snd]; eexists before, _, _, _, _;
      (split; [reflexivity|]); (split; [reflexivity|]); split;
      try discriminate; try (intros [_ H]; discriminate H); auto. }
  destruct (cmdMap action) as [[command|key]|] eqn:Hcmd.
  - assert (Hexec : cronEffectOf actions (ExecSync command)).
    { destruct (cmdMap_shell action command Hcmd) as (verb & Hverb & ->).
      exists action, w, verb. repeat split; assumption. }
    destruct (exec_throws w) as [message|].
    + split; [apply reportError_turn; [exact Hin|constructor; [exact Hexec|constructor]]|].
      split; [|split; [|apply Hlast]].
      * unfold reportError. destruct (error_throws w); cbn [fst];
          intros [|[|[|i]]] c Hi; simpl in Hi; try discriminate Hi;
          eexists _, _, _, _; reflexivity.
      * unfold reportError. destruct (error_throws w); cbn; lia.
    + destruct (done_throws w) as [message|].
      * split; [apply reportError_turn;
                [exact Hin|constructor; [exact Hexec|constructor; [apply Hdone|constructor]]]|].
        split; [|split; [|apply Hlast]].
        -- unfold reportError. destruct (error_throws w); cbn [fst];
             intros [|[|[|i]]] c Hi; simpl in Hi; try discriminate Hi;
             try (destruct i; discriminate Hi);
             eexists _, _, _, _; reflexivity.
        -- unfold reportError. destruct (error_throws w); cbn; lia.
      * cbn [fst snd].
        split; [constructor; [exact Hexec|constructor; [apply Hdone|constructor]]|].
        split; [|split].
        -- intros [|[|[|i]]] c Hi; simpl in Hi; try discriminate Hi;
             eexists _, _, _, _; reflexivity.
        -- cbn. lia.
        -- exists [ExecSync command], (prop action "_id"), "done", None, true.
           split; [reflexivity|]. split; [reflexivity|].
           split; [discriminate|intros [H _]; discriminate H].
  - split; [apply reportError_turn; [exact Hin|constructor]|].
    split; [|split; [|apply Hlast]].
    + unfold reportError. destruct (error_throws w); cbn [fst];
        intros [|[|i]] c Hi; simpl in Hi; discriminate Hi.
    + unfold reportError. destruct (error_throws w); cbn; lia.
  - split; [apply reportError_turn; [exact Hin|constructor]|].
    split; [|split; [|apply Hlast]].
    + unfold reportError. destruct (error_throws w); cbn [fst];
        intros [|[|i]] c Hi; simpl in Hi; discriminate Hi.
    + unfold reportError. destruct (error_throws w); cbn; lia.
Qed.

Lemma cronLoop_effects (all actions : list (JsVal * CronWorld)) :
  (forall x, In x actions -> In x all) ->
  let effects := fst (cronLoop actions) in
  Forall (cronEffectOf all) effects /\ followedByReport effects /\
  (List.length (filter (fun e => match e with ExecSync _ => true | _ => false end) effects)
   <= List.length actions)%nat.
Proof.
  induction actions as [|[action w] rest IH]; intros Hall; cbn [cronLoop].
  - cbn. split; [constructor|]. split; [intros [|i] c Hi; discriminate Hi|lia].
  - destruct (nullish action).
    + cbn. split; [constructor|]. split; [intros [|i] c Hi; discriminate Hi|lia].
    + destruct (cronTurn_effects all action w (Hall _ (or_introl eq_refl)))
        as (Hof & Hfollow & Hcount & _).
      destruct (cronTurn action w) as [effects goOn]. cbn [fst] in *.
      destruct goOn.
      * destruct (IH (fun x Hx => Hall x (or_intror Hx))) as (Hof' & Hfollow' & Hcount').
        destruct (cronLoop rest) as [more finished]. cbn [fst] in *.
        split; [apply Forall_app; split; assumption|].
        split; [apply followedByReport_app; assumption|].
        rewrite filter_app, length_app. simpl. lia.
      * cbn [fst]. split; [exact Hof|]. split; [exact Hfollow|]. simpl. lia.
Qed.

(** X25. In a pass of [processCronActions] every command run is one of
    [openclaw cron enable], [disable], [run] and [rm] followed by the job
    identifier of an action of the query, at most one command is run for
    each action, and each command run is followed at once by a mutation that
    reports it.  Every report is for an action of the query, with the status
    "done" and no error or with the status "error" and an error of at most
    200 code units.  [syncCronJobs] is called once, after everything else,
    exactly when the loop came to its end over a query that was not
    empty. *)
Theorem cron_commands_are_reported (actions : list (JsVal * CronWorld)) :
  let effects := processCronActions actions in
  let ran := filter (fun e => match e with ExecSync _ => true | _ => false end) effects in
  followedByReport effects /\
  (List.length ran <= List.length actions)%nat /\
  (forall e, In e effects -> e = SyncCronJobs \/ cronEffectOf actions e) /\
  (forall i, nth_error effects i = Some SyncCronJobs -> S i = List.length effects) /\
  (In SyncCronJobs effects <-> actions <> [] /\ snd (cronLoop actions) = true).
Proof.
  intros effects ran. unfold ran, effects, processCronActions. clear effects ran.
  destruct actions as [|a rest].
  { cbn. split; [intros [|i] c Hi; discriminate Hi|]. split; [lia|].
    split; [intros e []|]. split; [intros [|i] Hi; discriminate Hi|].
    split; [intros []|intros [H _]; exact (H eq_refl)]. }
  cbv iota.
  assert (Hsome : a :: rest <> []) by discriminate.
  revert Hsome. generalize (a :: rest) as actions. intros actions Hsome.
  destruct (cronLoop_effects actions actions (fun x H => H)) as (Hof & Hfollow & Hcount).
  assert (Hnosync : ~ In SyncCronJobs (fst (cronLoop actions))).
  { intros Hin. rewrite Forall_forall in Hof. exact (Hof _ Hin). }
  destruct (cronLoop actions) as [effects finished]. cbn [fst snd] in *.
  destruct finished.
  - split.
    { apply followedByReport_app; [exact Hfollow|].
      intros [|[|i]] c Hi; discriminate Hi. }
    split; [rewrite filter_app, length_app; simpl; lia|].
    split.
    { intros e Hin. apply in_app_or in Hin. destruct Hin as [Hin|[<-|[]]]; [|left; reflexivity].
      right. rewrite Forall_forall in Hof. exact (Hof e Hin). }
    split.
    { intros i Hi. rewrite length_app. simpl.
      destruct (Nat.ltb_spec i (List.length effects)) as [Hlt|Hge].
      - rewrite nth_error_app1 in Hi by exact Hlt.
        exfalso. apply Hnosync. exact (nth_error_In _ _ Hi).
      - rewrite nth_error_app2 in Hi by exact Hge.
        destruct (i - List.length effects)%nat as [|[|k]] eqn:E; simpl in Hi;
          try discriminate Hi. lia. }
    split; [intros _; split; [exact Hsome|reflexivity]|].
    intros _. apply in_or_app. right. left. reflexivity.
  - split; [exact Hfollow|]. split; [exact Hcount|].
    split; [intros e Hin; right; rewrite Forall_forall in Hof; exact (Hof e Hin)|].
    split; [intros i Hi; exfalso; apply Hnosync; exact (nth_error_In _ _ Hi)|].
    split; [intros Hin; exfalso; exact (Hnosync Hin)|intros [_ H]; discriminate H].
Qed.

(** X26. An action whose name is none of enable, disable, run and remove
    runs no command and is reported with the status "error".  A command that
    throws is reported with the status "error" and the first 200 code units
    of its message.  A command that ran but whose report "done" failed is
    reported again, with the status "error" and the message of that failure.
    When the report "error" fails too, the pass ends there: the actions after
    it are not run, and [syncCronJobs] is not called. *)
Theorem cron_failures_are_reported (action : JsVal) (w : CronWorld)
    (rest : list (JsVal * CronWorld)) :
  nullish action = false ->
  let id := prop action "_id" in
  let report message :=
    CompleteAction id "error" (Some (slice0 200 message))
      (match error_throws w with None => true | Some _ => false end) in
  (cmdMap action = None ->
   fst (cronTurn action w)
   = [report ("Unknown cron action: " ++ toString (prop action "action"))%string]) /\
  (forall command failure,
     cmdMap action = Some (Shell command) -> exec_throws w = Some failure ->
     fst (cronTurn action w) = [ExecSync command; report failure]) /\
  (forall command failure,
     cmdMap action = Some (Shell command) -> exec_throws w = None ->
     done_throws w = Some failure ->
     fst (cronTurn action w)
     = [ExecSync command; CompleteAction id "done" None false; report failure]) /\
  (forall command,
     cmdMap action = Some (Shell command) -> exec_throws w = None -> done_throws w = None ->
     cronTurn action w = ([ExecSync command; CompleteAction id "done" None true], true)) /\
  (snd (cronTurn action w) = false ->
   error_throws w <> None /\
   processCronActions ((action, w) :: rest) = fst (cronTurn action w)).
Proof.
  intros Hnull id report.
  split; [|split; [|split; [|split]]].
  - intros Hcmd. unfold cronTurn, reportError. rewrite Hcmd.
    unfold report, id. destruct (error_throws w); reflexivity.
  - intros command failure Hcmd Hexec. unfold cronTurn, reportError. rewrite Hcmd, Hexec.
    unfold report, id. destruct (error_throws w); reflexivity.
  - intros command failure Hcmd Hexec Hdone. unfold cronTurn, reportError.
    rewrite Hcmd, Hexec, Hdone. unfold report, id. destruct (error_throws w); reflexivity.
  - intros command Hcmd Hexec Hdone. unfold cronTurn. rewrite Hcmd, Hexec, Hdone. reflexivity.
  - intros Hstop. unfold processCronActions. cbn [cronLoop]. rewrite Hnull.
    destruct (cronTurn action w) as [effects goOn] eqn:Hturn. cbn [fst snd] in *. subst goOn.
    split; [|reflexivity].
    intros Hnone. unfold cronTurn, reportError in Hturn. rewrite Hnone in Hturn.
    destruct (cmdMap action) as [[command|key]|];
      [destruct (exec_throws w); [|destruct (done_throws w)]| |]; discriminate Hturn.
Qed.

(** ** The store *)

Lemma find_patchFirst {A : Type} (f : A -> bool) (g : A -> A) (t : list A) :
  (forall d, f d = true -> f (g d) = true) ->
  find f (patchFirst f g t) = option_map g (find f t).
Proof.
  intros Hg. induction t as [|d t IH]; simpl; [reflexivity|].
  destruct (f d) eqn:E; simpl.
  - rewrite (Hg d E). reflexivity.
  - rewrite E. exact IH.
Qed.

Lemma find_patchFirst_other {A : Type} (f f' : A -> bool) (g : A -> A) (t : list A) :
  (forall d, f d = true -> f' d = false /\ f' (g d) = false) ->
  find f' (patchFirst f g t) = find f' t.
Proof.
  intros Hg. induction t as [|d t IH]; simpl; [reflexivity|].
  destruct (f d) eqn:E; simpl.
  - destruct (Hg d E) as [-> ->]. reflexivity.
  - destruct (f' d); [reflexivity|exact IH].
Qed.

Lemma filter_patchFirst_other {A : Type} (f p : A -> bool) (g : A -> A) (t : list A) :
  (forall d, f d = true -> p d = false /\ p (g d) = false) ->
  filter p (patchFirst f g t) = filter p t.
Proof.
  intros Hg. induction t as [|d t IH]; simpl; [reflexivity|].
  destruct (f d) eqn:E; simpl.
  - destruct (Hg d E) as [-> ->]. reflexivity.
  - rewrite IH. reflexivity.
Qed.

Lemma map_patchFirst {A B : Type} (f : A -> bool) (g : A -> A) (k : A -> B) (t : list A) :
  (forall d, k (g d) = k d) -> map k (patchFirst f g t) = map k t.
Proof.
  intros Hk. induction t as [|d t IH]; simpl; [reflexivity|].
  destruct (f d); simpl; [rewrite Hk|rewrite IH]; reflexivity.
Qed.

Lemma find_app_none {A : Type} (f : A -> bool) (t : list A) (x : A) :
  find f t = None -> find f (t ++ [x]) = if f x then Some x else None.
Proof.
  induction t as [|d t IH]; simpl; [reflexivity|].
  destruct (f d); [discriminate|exact IH].
Qed.

Lemma find_app_some {A : Type} (f : A -> bool) (t : list A) (x d : A) :
  find f t = Some d -> find f (t ++ [x]) = Some d.
Proof.
  induction t as [|d' t IH]; simpl; [discriminate|].
  destruct (f d'); [intros H; exact H|exact IH].
Qed.

Lemma sessionOf_key (instanceId sessionKey : string) (d : SessionDoc) :
  sessionOf instanceId sessionKey d = true <-> docKey d = (instanceId, sessionKey).
Proof.
  unfold sessionOf, docKey. rewrite andb_true_iff, !String.eqb_eq.
  split; [intros [-> ->]; reflexivity|intros H; injection H as -> ->; split; reflexivity].
Qed.

Lemma sessionOf_other (instanceId instanceId' sessionKey sessionKey' : string)
    (d : SessionDoc) :
  (instanceId', sessionKey') <> (instanceId, sessionKey) ->
  sessionOf instanceId sessionKey d = true -> sessionOf instanceId' sessionKey' d = false.
Proof.
  intros Hne H. apply sessionOf_key in H.
  destruct (sessionOf instanceId' sessionKey' d) eqn:E; [|reflexivity].
  apply sessionOf_key in E. congruence.
Qed.

Lemma lookup_syncSession_same (instanceId : string) (s : Session) (t : list SessionDoc) :
  find (sessionOf instanceId (session_sessionKey s)) (syncSession instanceId s t)
  = Some (match find (sessionOf instanceId (session_sessionKey s)) t with
          | Some old => patchSession s old
          | None => mkSessionDoc instanceId s
          end).
Proof.
  unfold syncSession.
  destruct (find (sessionOf instanceId (session_sessionKey s)) t) as [old|] eqn:E.
  - rewrite find_patchFirst by (intros d Hd; exact Hd). rewrite E. reflexivity.
  - rewrite (find_app_none _ _ _ E). unfold sessionOf. cbn [doc_instanceId doc_session].
    rewrite !String.eqb_refl. reflexivity.
Qed.

Lemma lookup_syncSession_other (instanceId instanceId' sessionKey' : string) (s : Session)
    (t : list SessionDoc) :
  (instanceId', sessionKey') <> (instanceId, session_sessionKey s) ->
  find (sessionOf instanceId' sessionKey') (syncSession instanceId s t)
  = find (sessionOf instanceId' sessionKey') t.
Proof.
  intros Hne. unfold syncSession.
  destruct (find (sessionOf instanceId (session_sessionKey s)) t) as [old|] eqn:E.
  - apply find_patchFirst_other. intros d Hd.
    split; exact (sessionOf_other _ _ _ _ _ Hne Hd).
  - destruct (find (sessionOf instanceId' sessionKey') t) as [d|] eqn:E'.
    + exact (find_app_some _ _ _ _ E').
    + rewrite (find_app_none _ _ _ E').
      rewrite (sessionOf_other instanceId instanceId' (session_sessionKey s) sessionKey'
                 (mkSessionDoc instanceId s) Hne); [reflexivity|].
      apply sessionOf_key. reflexivity.
Qed.

Lemma lookup_sync_others (instanceId instanceId' sessionKey' : string)
    (sessions : list Session) (t : list SessionDoc) :
  (forall s, In s sessions -> (instanceId', sessionKey') <> (instanceId, session_sessionKey s)) ->
  find (sessionOf instanceId' sessionKey') (syncFromGateway instanceId sessions t)
  = find (sessionOf instanceId' sessionKey') t.
Proof.
  unfold syncFromGateway. revert t.
  induction sessions as [|s sessions IH]; intros t Hne; simpl; [reflexivity|].
  rewrite IH by (intros s' Hs'; apply Hne; right; exact Hs').
  apply lookup_syncSession_other. apply Hne. left. reflexivity.
Qed.

Lemma lookup_sync_stable (instanceId : string) (sessions : list Session) (s : Session)
    (t : list SessionDoc) (d : SessionDoc) :
  (forall s', In s' sessions -> session_sessionKey s' = session_sessionKey s -> s' = s) ->
  find (sessionOf instanceId (session_sessionKey s)) t = Some d ->
  patchSession s d = d ->
  find (sessionOf instanceId (session_sessionKey s)) (syncFromGateway instanceId sessions t)
  = Some d.
Proof.
  unfold syncFromGateway. revert t.
  induction sessions as [|s0 sessions IH]; intros t Huniq Hd Hpatched; [exact Hd|].
  cbn [fold_left].
  apply IH; [intros s' Hs'; apply Huniq; right; exact Hs'| |exact Hpatched].
  destruct (String.eqb_spec (session_sessionKey s0) (session_sessionKey s)) as [Heq|Hne].
  - assert (Hs0 : s0 = s) by (apply Huniq; [left; reflexivity|exact Heq]). subst s0.
    rewrite lookup_syncSession_same, Hd, Hpatched. reflexivity.
  - rewrite lookup_syncSession_other; [exact Hd|].
    intros Heq. injection Heq as Hk. congruence.
Qed.

Lemma lookup_sync_one (instanceId : string) (sessions : list Session) (s : Session)
    (t : list SessionDoc) :
  In s sessions ->
  (forall s', In s' sessions -> session_sessionKey s' = session_sessionKey s -> s' = s) ->
  find (sessionOf instanceId (session_sessionKey s)) (syncFromGateway instanceId sessions t)
  = Some (match find (sessionOf instanceId (session_sessionKey s)) t with
          | Some old => patchSession s old
          | None => mkSessionDoc instanceId s
          end).
Proof.
  revert t.
  induction sessions as [|s0 sessions IH]; intros t Hin Huniq; [destruct Hin|].
  change (syncFromGateway instanceId (s0 :: sessions) t)
    with (syncFromGateway instanceId sessions (syncSession instanceId s0 t)).
  destruct (String.eqb_spec (session_sessionKey s0) (session_sessionKey s)) as [Heq|Hne].
  - assert (Hs0 : s0 = s) by (apply Huniq; [left; reflexivity|exact Heq]). subst s0.
    apply lookup_sync_stable.
    + intros s' Hs'. apply Huniq. right. exact Hs'.
    + apply lookup_syncSession_same.
    + destruct (find (sessionOf instanceId (session_sessionKey s)) t) as [old|];
        [reflexivity|destruct s; reflexivity].
  - destruct Hin as [->|Hin]; [congruence|].
    rewrite (IH (syncSession instanceId s0 t) Hin (fun s' Hs' => Huniq s' (or_intror Hs'))).
    rewrite lookup_syncSession_other; [reflexivity|].
    intros Heq. injection Heq as Hk. congruence.
Qed.

Lemma find_none_key (instanceId sessionKey : string) (t : list SessionDoc) :
  find (sessionOf instanceId sessionKey) t = None ->
  ~ In (instanceId, sessionKey) (map docKey t).
Proof.
  intros Hnone Hin. apply in_map_iff in Hin. destruct Hin as (d & Hk & Hd).
  apply (find_none _ _ Hnone) in Hd. apply sessionOf_key in Hk. congruence.
Qed.

Lemma syncSession_others (instanceId other : string) (s : Session) (t : list SessionDoc) :
  other <> instanceId ->
  getForInstance other (syncSession instanceId s t) = getForInstance other t.
Proof.
  intros Hne. unfold getForInstance, syncSession.
  destruct (find (sessionOf instanceId (session_sessionKey s)) t).
  - apply filter_patchFirst_other. intros d Hd.
    unfold sessionOf in Hd. apply andb_prop in Hd. destruct Hd as [Hi _].
    apply String.eqb_eq in Hi. cbn [patchSession doc_instanceId]. rewrite Hi.
    split; apply String.eqb_neq; congruence.
  - rewrite filter_app. cbn [filter doc_instanceId].
    destruct (String.eqb_spec instanceId other); [congruence|apply app_nil_r].
Qed.

Lemma syncSession_keys (instanceId : string) (s : Session) (t : list SessionDoc) :
  NoDup (map docKey t) -> NoDup (map docKey (syncSession instanceId s t)).
Proof.
  intros Hnd. unfold syncSession.
  destruct (find (sessionOf instanceId (session_sessionKey s)) t) eqn:E.
  - rewrite map_patchFirst by reflexivity. exact Hnd.
  - rewrite map_app. cbn [map]. apply NoDup_app; [exact Hnd|constructor; [intros []|constructor]|].
    intros k Hk [<-|[]]. exact (find_none_key _ _ _ E Hk).
Qed.

(** X27. The mutation ["sessions:syncFromGateway"] is an upsert by
    instance and session key.  After it, a session of the list whose key no
    other session of the list has is on record for the instance with its
    title, pin, preview and update time; its creation time is the one on
    record before, when there was one, and its own otherwise.  The sessions
    of the other instances are as they were, and a table without two
    documents for one instance and key stays so. *)
Theorem sessions_sync_upserts (instanceId : string) (sessions : list Session)
    (t : list SessionDoc) :
  let t' := syncFromGateway instanceId sessions t in
  (forall s,
     In s sessions ->
     (forall s', In s' sessions -> session_sessionKey s' = session_sessionKey s -> s' = s) ->
     exists d,
       find (sessionOf instanceId (session_sessionKey s)) t' = Some d /\
       In d (getForInstance instanceId t') /\
       session_sessionKey (doc_session d) = session_sessionKey s /\
       session_title (doc_session d) = session_title s /\
       session_isPinned (doc_session d) = session_isPinned s /\
       session_lastMessagePreview (doc_session d) = session_lastMessagePreview s /\
       session_updatedAt (doc_session d) = session_updatedAt s /\
       session_createdAt (doc_session d)
       = match find (sessionOf instanceId (session_sessionKey s)) t with
         | Some old => session_createdAt (doc_session old)
         | None => session_createdAt s
         end) /\
  (forall other, other <> instanceId -> getForInstance other t' = getForInstance other t) /\
  (NoDup (map docKey t) -> NoDup (map docKey t')).
Proof.
  intros t'. split; [|split].
  - intros s Hin Huniq.
    pose proof (lookup_sync_one instanceId sessions s t Hin Huniq) as Hfind.
    fold t' in Hfind.
    eexists. split; [exact Hfind|].
    split.
    { apply find_some in Hfind. destruct Hfind as [Hd Hof].
      unfold getForInstance. apply filter_In. split; [exact Hd|].
      unfold sessionOf in Hof. apply andb_prop in Hof. exact (proj1 Hof). }
    destruct (find (sessionOf instanceId (session_sessionKey s)) t) as [old|] eqn:E.
    + apply find_some in E. destruct E as [_ Hof].
      unfold sessionOf in Hof. apply andb_prop in Hof. destruct Hof as [_ Hk].
      apply String.eqb_eq in Hk. cbn. repeat split. exact Hk.
    + cbn. repeat split.
  - intros other Hne. unfold t', syncFromGateway. clear t'. revert t.
    induction sessions as [|s sessions IH]; intros t; simpl; [reflexivity|].
    rewrite IH. apply syncSession_others. exact Hne.
  - unfold t', syncFromGateway. clear t'. revert t.
    induction sessions as [|s sessions IH]; intros t Hnd; simpl; [exact Hnd|].
    apply IH. apply syncSession_keys. exact Hnd.
Qed.

Lemma find_instance_patched (instanceId : string) (g : InstanceDoc -> InstanceDoc)
    (t : list InstanceDoc) :
  (forall d, instance_instanceId (g d) = instance_instanceId d) ->
  forall other,
    find (instanceOf other) (patchFirst (instanceOf instanceId) g t)
    = if (other =? instanceId)%string then option_map g (find (instanceOf instanceId) t)
      else find (instanceOf other) t.
Proof.
  intros Hg other.
  destruct (String.eqb_spec other instanceId) as [->|Hne].
  - apply find_patchFirst. intros d Hd. unfold instanceOf in *. rewrite Hg. exact Hd.
  - apply find_patchFirst_other. intros d Hd. unfold instanceOf in *. rewrite Hg.
    apply String.eqb_eq in Hd. rewrite Hd. split; apply String.eqb_neq; congruence.
Qed.

(** X28. A heartbeat never registers an instance: for one that is not on
    record it changes nothing, and the status query answers [null]. For one
    on record it stamps the time of the heartbeat, and the status query
    answers "online" for the two minutes that follow, exclusive, and
    "offline" after, whatever status is stored; the version on record is
    replaced only by a version that is not empty, and the other instances
    are as they were. *)
Theorem heartbeat_decides_status (t0 t1 : Z) (instanceId : string) (version : option string)
    (t : list InstanceDoc) :
  let t' := heartbeat t0 instanceId version t in
  (find (instanceOf instanceId) t = None ->
   t' = t /\ getInstanceStatus t1 instanceId t' = None) /\
  (forall old,
     find (instanceOf instanceId) t = Some old ->
     getInstanceStatus t1 instanceId t'
     = Some (mkInstanceDoc (instance_instanceId old)
               (if t1 - t0 <? 120000 then "online" else "offline")
               (match version with
                | Some v => if nonempty v then Some v else instance_version old
                | None => instance_version old
                end)
               t0 (instance_others old))) /\
  (forall other, other <> instanceId ->
     getInstanceStatus t1 other t' = getInstanceStatus t1 other t) /\
  List.length t' = List.length t.
Proof.
  intros t'. unfold t', heartbeat.
  destruct (find (instanceOf instanceId) t) as [old|] eqn:E.
  - split; [discriminate|].
    split.
    { intros old' H. injection H as <-. unfold getInstanceStatus.
      rewrite find_instance_patched by reflexivity.
      rewrite String.eqb_refl, E. reflexivity. }
    split.
    { intros other Hne. unfold getInstanceStatus.
      rewrite find_instance_patched by reflexivity.
      destruct (String.eqb_spec other instanceId); [congruence|reflexivity]. }
    rewrite <- (length_map instance_instanceId).
    rewrite map_patchFirst by reflexivity. apply length_map.
  - split; [intros _; split; [reflexivity|unfold getInstanceStatus; rewrite E; reflexivity]|].
    split; [discriminate|]. split; reflexivity.
Qed.

Lemma freshId_new (t : list CronAction) (d : CronAction) :
  In d t -> Nat.eqb (action_id d) (freshId t) = false.
Proof.
  intros Hin. apply Nat.eqb_neq. unfold freshId.
  assert (H : Forall (fun k => (k <= list_max (map action_id t))%nat) (map action_id t))
    by (apply list_max_le; lia).
  rewrite Forall_forall in H. specialize (H (action_id d) (in_map _ _ _ Hin)). lia.
Qed.

Lemma patchFirst_app_last {A : Type} (f : A -> bool) (g : A -> A) (t : list A) (x : A) :
  (forall d, In d t -> f d = false) -> f x = true ->
  patchFirst f g (t ++ [x]) = t ++ [g x].
Proof.
  intros Hno Hx. induction t as [|d t IH]; simpl; [rewrite Hx; reflexivity|].
  rewrite (Hno d (or_introl eq_refl)). rewrite IH; [reflexivity|].
  intros d' Hd'. apply Hno. right. exact Hd'.
Qed.

(** X29. A toggle requested by the app is pending for its instance, after
    the actions that were pending already, with the action enable or disable
    as asked, until the relay completes it: once [completeAction] has given
    it a status other than "pending" it is on record with that status, the
    error and the time of completion, and the pending actions are those from
    before the request.  Completing an action that is not on record
    throws. *)
Theorem toggle_is_pending_until_completed (now : Z) (instanceId jobId : string)
    (enable : bool) (t : list CronAction) :
  let verb := if enable then "enable" else "disable" in
  let t1 := requestToggle now instanceId jobId enable t in
  getPendingActions instanceId t1
  = getPendingActions instanceId t
    ++ [mkCronAction (freshId t) instanceId jobId verb "pending" None now None] /\
  (forall other, other <> instanceId ->
     getPendingActions other t1 = getPendingActions other t) /\
  (forall later status error,
     status <> "pending" ->
     completeAction later (freshId t) status error t1
     = Some (t ++ [mkCronAction (freshId t) instanceId jobId verb status error now
                     (Some later)]) /\
     forall t2, completeAction later (freshId t) status error t1 = Some t2 ->
                getPendingActions instanceId t2 = getPendingActions instanceId t) /\
  (forall later status error unknown,
     (forall d, In d t1 -> action_id d <> unknown) ->
     completeAction later unknown status error t1 = None).
Proof.
  intros verb t1. unfold t1, requestToggle. fold verb.
  split; [|split; [|split]].
  - unfold getPendingActions. rewrite filter_app. cbn [filter action_instanceId action_status].
    rewrite String.eqb_refl. reflexivity.
  - intros other Hne. unfold getPendingActions. rewrite filter_app.
    cbn [filter action_instanceId action_status].
    destruct (String.eqb_spec instanceId other); [congruence|apply app_nil_r].
  - intros later status error Hstatus.
    assert (Hc : completeAction later (freshId t) status error
                   (t ++ [mkCronAction (freshId t) instanceId jobId verb "pending" None now None])
                 = Some (t ++ [mkCronAction (freshId t) instanceId jobId verb status error now
                                 (Some later)])).
    { unfold completeAction. rewrite existsb_app. cbn [existsb action_id].
      rewrite Nat.eqb_refl, orb_true_r.
      rewrite patchFirst_app_last;
        [reflexivity|intros d Hd; apply freshId_new; exact Hd|apply Nat.eqb_refl]. }
    split; [exact Hc|].
    intros t2 Ht2. rewrite Hc in Ht2. injection Ht2 as <-.
    unfold getPendingActions. rewrite filter_app. cbn [filter action_instanceId action_status].
    destruct (String.eqb_spec status "pending"); [congruence|].
    rewrite andb_false_r. apply app_nil_r.
  - intros later status error unknown Hno. unfold completeAction.
    destruct (existsb _ _) eqn:E; [|reflexivity].
    apply existsb_exists in E. destruct E as (d & Hd & Heq).
    apply Nat.eqb_eq in Heq. exfalso. exact (Hno d Hd Heq).
Qed.

Lemma find_sync {A : Type} (now : Z) (instanceId other : string) (items : list A)
    (t : list (ListDoc A)) :
  find (listOf other) (sync now instanceId items t)
  = if (other =? instanceId)%string
    then Some (mkListDoc instanceId items now)
    else find (listOf other) t.
Proof.
  unfold sync.
  destruct (find (listOf instanceId) t) as [old|] eqn:E.
  - destruct (String.eqb_spec other instanceId) as [->|Hne].
    + rewrite find_patchFirst by (intros d Hd; exact Hd). rewrite E. cbn [option_map].
      apply find_some in E. destruct E as [_ Hold]. unfold listOf in Hold.
      apply String.eqb_eq in Hold. rewrite Hold. reflexivity.
    + apply find_patchFirst_other. intros d Hd. unfold listOf in *. cbn [list_instanceId].
      apply String.eqb_eq in Hd. rewrite Hd. split; apply String.eqb_neq; congruence.
  - destruct (find (listOf other) t) as [d|] eqn:E'.
    + rewrite (find_app_some _ _ _ _ E').
      destruct (String.eqb_spec other instanceId) as [->|Hne]; [congruence|reflexivity].
    + rewrite (find_app_none _ _ _ E'). unfold listOf. cbn [list_instanceId].
      rewrite String.eqb_sym. destruct (other =? instanceId)%string; reflexivity.
Qed.

(** X30. The lists of cron jobs and of skills round-trip through the
    store: [get] returns for an instance the list of its last [sync], and
    the empty list for an instance that never synced.  A sync replaces the
    list of its instance and leaves the others; it adds a document only for
    an instance that has none. *)
Theorem sync_get_round_trip {A : Type} (now : Z) (instanceId : string) (items : list A)
    (t : list (ListDoc A)) :
  let t' := sync now instanceId items t in
  get instanceId t' = items /\
  (forall other, other <> instanceId -> get other t' = get other t) /\
  (forall later items', get instanceId (sync later instanceId items' t') = items') /\
  (find (listOf instanceId) t = None -> get instanceId t = [] /\
   List.length t' = S (List.length t)) /\
  (find (listOf instanceId) t <> None -> List.length t' = List.length t).
Proof.
  intros t'. unfold t'.
  split; [|split; [|split; [|split]]].
  - unfold get. rewrite find_sync, String.eqb_refl. reflexivity.
  - intros other Hne. unfold get. rewrite find_sync.
    destruct (String.eqb_spec other instanceId); [congruence|reflexivity].
  - intros later items'. unfold get. rewrite find_sync, String.eqb_refl. reflexivity.
  - intros Hnone. unfold get, sync. rewrite Hnone.
    split; [reflexivity|]. rewrite length_app. simpl. lia.
  - intros Hsome. unfold sync.
    destruct (find (listOf instanceId) t); [|congruence].
    rewrite <- (length_map list_instanceId).
    rewrite map_patchFirst by reflexivity. apply length_map.
Qed.

End Relay.

(** * The theorems at concrete inputs *)

(** The first reconnect attempt with a draw of one half: 2 s and 250 ms. *)
Lemma reconnect_delay_witness :
  let r := set_phase (AwaitClose false) (newRelay "inst" JNull) in
  reconnectAttempt (resume (CloseSettled (1 # 2)) r) = 1 /\
  phase (resume (CloseSettled (1 # 2)) r) = AwaitSleep 2250.
Proof.
  intros r.
  assert (H0 : (0 <= 1 # 2)%Q) by (intro H; discriminate H).
  assert (H1 : (1 # 2 < 1)%Q) by reflexivity.
  assert (Ha : 0 <= reconnectAttempt r) by (simpl; lia).
  destruct (reconnect_delay r (1 # 2) eq_refl eq_refl Ha H0 H1) as (_ & Hn & Hp & _).
  split; [exact Hn|exact Hp].
Defined.



(** An open connection, two requests, the second answered first. *)
Lemma out_of_order_responses_witness :
  let c := conn_run sample_uuid sample_platform (newConnection JNull 0)
             [EvOpen; EvSocketOpen] in
  let cA := fst (request sample_uuid "chat.history" JNull 10000 c) in
  let cB := fst (request sample_uuid "sessions.list" JNull 10000 cA) in
  let c1 := fst (onMessage sample_uuid sample_platform
                   (responseFrame "uuid-1" (JStr "sessions")) cB) in
  promise 1 c1 = Some (Fulfilled (JStr "sessions")) /\ promise 0 c1 = None.
Proof.
  pose proof (out_of_order_responses sample_uuid sample_platform JNull 0
                [EvOpen; EvSocketOpen] "chat.history" "sessions.list" JNull JNull
                10000 10000
                (responseFrame "uuid-0" (JStr "history"))
                (responseFrame "uuid-1" (JStr "sessions"))) as H.
  cbv zeta in H. discharge H.
  destruct H as (_ & (_ & Hb & _ & Ha & _) & _).
  vm_compute in Ha, Hb. vm_compute.
  split; [exact Hb|exact Ha].
Defined.

(** A request whose timer fires, and its response afterwards. *)
Lemma request_timeout_witness :
  let c0 := conn_run sample_uuid sample_platform (newConnection JNull 0)
              [EvOpen; EvSocketOpen] in
  let c := fst (request sample_uuid "chat.history" JNull 10000 c0) in
  let c' := onTimeout 0 c in
  promise 0 c' = Some (Rejected "Gateway RPC timeout for chat.history") /\
  onMessage sample_uuid sample_platform (responseFrame "uuid-0" (JStr "late")) c'
  = (c', ToHandlers (handlers c') (responseFrame "uuid-0" (JStr "late"))).
Proof.
  pose proof (request_timeout sample_uuid sample_platform JNull 0
                [EvOpen; EvSocketOpen] [] "chat.history" JNull 10000
                (responseFrame "uuid-0" (JStr "late"))) as H.
  cbv zeta in H. discharge H.
  destruct H as (_ & Hrej & _ & _ & Hlate).
  discharge Hlate.
  vm_compute in Hrej, Hlate. vm_compute.
  split; [exact Hrej|exact Hlate].
Defined.



(** A message whose role is "model", taken from a response and from a
    history. *)
Lemma roles_coerced_witness :
  let m := JObj [("role", JStr "model"); ("content", JStr "Hello");
                 ("sessionKey", JStr "agent:main:main")] in
  option_map role (extractGatewayMessage sample_number 0 m) = Some "assistant" /\
  historyMessage sample_number 0 m = Some (Some ("system", "Hello", 0)).
Proof.
  intros m.
  destruct (roles_coerced sample_number) as (Hextract & _ & Hhistory).
  destruct (extractGatewayMessage sample_number 0 m) as [g|] eqn:Hg; [|discriminate Hg].
  destruct (Hextract 0 m g Hg) as (_ & Hdefault).
  destruct (historyMessage sample_number 0 m) as [[[[r c] t]|]|] eqn:Hh;
    try discriminate Hh.
  destruct (Hhistory 0 m r c t Hh) as (_ & _ & _ & Hsystem).
  split.
  - simpl. rewrite (Hdefault eq_refl). reflexivity.
  - rewrite (Hsystem eq_refl) in Hh |- *.
    injection Hh as <- <-. reflexivity.
Defined.

(** A mutation that throws, and the retry. *)
Lemma failed_push_not_recorded_witness :
  let msg := mkGatewayMessage (JStr "agent:main:main") "assistant" "Hello" 101 in
  let r := newRelay "inst" JNull in
  let r1 := fst (pushGatewayMessages sample_digest 0 [(msg, Throws "offline")] r) in
  recentGatewayMessageHashes r1 = [] /\
  delivered (snd (pushGatewayMessages sample_digest 5 [(msg, Resolves 6)] r1))
  = [pushOf r msg].
Proof.
  intros msg r r1.
  destruct (failed_push_not_recorded sample_digest r 0) as (Hfail & _).
  specialize (Hfail msg "offline"). unfold r1.
  destruct (pushGatewayMessages sample_digest 0 [(msg, Throws "offline")] r) as [r1' sent1].
  destruct Hfail as (Hsame & _ & Hretry).
  destruct (Hretry eq_refl) as (_ & _ & Hagain).
  split; [exact Hsame|exact (Hagain 5 6)].
Defined.

(** * Where the code departs from the specification *)


(** C9. A message of the assistant in a history, under the role "model" that
    is none of the three, is stored with the role "system", not
    "assistant". *)
Lemma history_default_role_is_system :
  unrecognized (JStr "model") = true /\
  map push_role (syncHistoryForSession sample_number "inst" 0 (JStr "agent:main:main")
                   modelHistory) = ["system"] /\
  "system" <> "assistant".
Proof.
  split; [reflexivity|]. split; [reflexivity|discriminate].
Qed.

(** * The further properties at concrete inputs *)

(** A request made before the socket is open stays rejected through the
    opening and the closing of the connection. *)
Lemma settled_promise_is_final_witness :
  let c := conn_run sample_uuid sample_platform (newConnection JNull 0)
             [EvRequest "health" (JObj []) 10000] in
  promise 0 (conn_run sample_uuid sample_platform c [EvOpen; EvSocketOpen; EvClose])
  = Some (Rejected "Gateway socket is not open").
Proof.
  pose proof (settled_promise_is_final sample_uuid sample_platform
                (conn_run sample_uuid sample_platform (newConnection JNull 0)
                   [EvRequest "health" (JObj []) 10000])
                [EvOpen; EvSocketOpen; EvClose] 0
                (Rejected "Gateway socket is not open")) as H.
  discharge H. vm_compute in H. vm_compute. exact H.
Defined.

(** An error response to the first request of an open connection. *)
Lemma error_response_rejects_witness :
  let c := conn_run sample_uuid sample_platform (newConnection JNull 0)
             [EvOpen; EvSocketOpen; EvRequest "chat.send" (JObj []) 10000] in
  let frame := JObj [("type", JStr "res"); ("id", JStr "uuid-0"); ("ok", JBool false);
                     ("error", JObj [("message", JStr "no such session")])] in
  let c' := fst (onMessage sample_uuid sample_platform frame c) in
  promise 0 c' = Some (Rejected "no such session") /\ timerArmed 0 c' = false.
Proof.
  pose proof (error_response_rejects sample_uuid sample_platform JNull 0
                [EvOpen; EvSocketOpen; EvRequest "chat.send" (JObj []) 10000]
                (JObj [("type", JStr "res"); ("id", JStr "uuid-0"); ("ok", JBool false);
                       ("error", JObj [("message", JStr "no such session")])])
                "uuid-0" 0%nat) as H.
  cbv zeta in H. discharge H.
  destruct H as (Hmsg & _ & _ & Ht & _).
  specialize (Hmsg "no such session" eq_refl).
  vm_compute in Hmsg, Ht. vm_compute.
  split; [exact Hmsg|exact Ht].
Defined.

(** The timer of a request that was answered. *)
Lemma timer_after_response_is_idle_witness :
  let c := conn_run sample_uuid sample_platform (newConnection JNull 0)
             [EvOpen; EvSocketOpen; EvRequest "sessions.list" (JObj []) 10000] in
  let c' := fst (onMessage sample_uuid sample_platform
                   (responseFrame "uuid-0" (JArr [])) c) in
  timerArmed 0 c = true /\ timerArmed 0 c' = false /\ onTimeout 0 c' = c'.
Proof.
  pose proof (timer_after_response_is_idle sample_uuid sample_platform JNull 0
                [EvOpen; EvSocketOpen; EvRequest "sessions.list" (JObj []) 10000]
                (responseFrame "uuid-0" (JArr [])) "uuid-0" 0%nat) as H.
  cbv zeta in H. discharge H.
  vm_compute in H. vm_compute. exact H.
Defined.

(** A handshake that timed out stays rejected when the socket opens and the
    gateway greets afterwards. *)
Lemma handshake_decided_once_witness :
  let c := conn_run sample_uuid sample_platform (newConnection JNull 0)
             [EvOpen; EvConnectTimeout] in
  opened (conn_run sample_uuid sample_platform c
            [EvSocketOpen; EvFallback;
             EvMessage (responseFrame "uuid-0" (JObj [("type", JStr "hello-ok")]))])
  = Some (Rejected "Gateway connect timeout").
Proof.
  pose proof (handshake_decided_once sample_uuid sample_platform
                (conn_run sample_uuid sample_platform (newConnection JNull 0)
                   [EvOpen; EvConnectTimeout])
                [EvSocketOpen; EvFallback;
                 EvMessage (responseFrame "uuid-0" (JObj [("type", JStr "hello-ok")]))]) as H.
  discharge H. destruct H as [_ Ho].
  vm_compute in Ho. vm_compute. exact Ho.
Defined.


(** A challenge on an open socket. *)
Lemma challenge_sends_connect_witness :
  let c := conn_run sample_uuid sample_platform (newConnection (JStr "secret") 0)
             [EvOpen; EvSocketOpen] in
  let frame := JObj [("type", JStr "event"); ("event", JStr "connect.challenge");
                     ("payload", JObj [("nonce", JStr "n-1")])] in
  let c' := fst (onMessage sample_uuid sample_platform frame c) in
  snd (onMessage sample_uuid sample_platform frame c) = Challenge /\
  callInfo 0 c' = Some ("uuid-0", "connect") /\ promise 0 c' = None.
Proof.
  pose proof (challenge_sends_connect sample_uuid sample_platform
                (conn_run sample_uuid sample_platform (newConnection (JStr "secret") 0)
                   [EvOpen; EvSocketOpen])
                (JObj [("type", JStr "event"); ("event", JStr "connect.challenge");
                       ("payload", JObj [("nonce", JStr "n-1")])])) as H.
  cbv zeta in H. discharge H.
  destruct H as (Hr & Hopen & _). discharge Hopen.
  destruct Hopen as (_ & _ & Hinfo & Hp & _).
  vm_compute in Hr, Hinfo, Hp. vm_compute.
  split; [exact Hr|]. split; [exact Hinfo|exact Hp].
Defined.

(** The text of a run that ends with an error event stays on record through
    the final event of another run. *)
Lemma delta_kept_until_final_witness :
  let r := fst (feedFrames
                  [(1, chatEvent "run-1" "agent:main:main" "delta"
                         (textMessage "assistant" "Hel" 100))]
                  (newRelay "inst" JNull)) in
  let frames := [(2, chatEvent "run-1" "agent:main:main" "error" JUndefined);
                 (3, chatEvent "run-2" "agent:main:main" "final"
                       (textMessage "assistant" "Done" 102))] in
  map_has sameValueZero (JStr "run-1") (pendingDeltas (fst (feedFrames frames r))) = true.
Proof.
  intros r frames.
  exact (delta_kept_until_final frames (JStr "run-1") r eq_refl eq_refl).
Defined.



(** A text of five code units is sent whole. *)
Lemma pushed_content_is_truncation_witness :
  let payload := finishedMessage (JStr "agent:main:main") "Hello" (JNum 1) in
  let m := mkPush "inst" (JStr "agent:main:main") "assistant" "Hello" 1 in
  pushChatEvent sample_number "inst" 0 payload = Some m /\
  push_content m = contentText (prop (prop payload "message") "content").
Proof.
  intros payload m.
  destruct (pushed_content_is_truncation sample_number "inst" 0 payload m eq_refl)
    as (_ & _ & Hwhole & _).
  split; [reflexivity|]. apply Hwhole. simpl. lia.
Defined.

(** A loop whose first connection is refused sleeps 2 s and 250 ms. *)
Lemma sleeps_within_bounds_witness :
  let r := relay_run sample_uuid sample_platform (newRelay "inst" JNull)
             [Start; Resume (OpenRejected "refused"); Resume (CloseSettled (1 # 2))] in
  phase r = AwaitSleep 2250 /\ 2000 <= 2250 <= 30499.
Proof.
  intros r.
  assert (Hes : Forall unitDraw
                  [Start; Resume (OpenRejected "refused"); Resume (CloseSettled (1 # 2))]).
  { repeat constructor. intro H; discriminate H. }
  destruct (sleeps_within_bounds sample_uuid sample_platform "inst" JNull _ Hes)
    as (_ & _ & Hphase).
  assert (Hp : phase r = AwaitSleep 2250) by (vm_compute; reflexivity).
  split; [exact Hp|exact (Hphase 2250 Hp)].
Defined.


(** A message that was forwarded and answered, followed by a [null]. *)
Lemma null_message_aborts_pass_witness :
  let c := conn_run sample_uuid sample_platform (newConnection JNull 0)
             [EvOpen; EvSocketOpen] in
  let r := newRelay "inst" JNull in
  let w := mkAwait [EvMessage (responseFrame "uuid-0" (JObj []))] 1
             (fun _ => Resolves 2) [] in
  let message := JObj [("_id", JStr "m1"); ("sessionKey", JStr "agent:main:main");
                       ("content", JStr "Hi")] in
  snd (forwardUnsyncedAppMessages sample_uuid sample_digest sample_number sample_platform
         [(message, w)] r c) = Some [JStr "m1"] /\
  snd (forwardUnsyncedAppMessages sample_uuid sample_digest sample_number sample_platform
         ([(message, w)] ++ [(JNull, w)]) r c) = None.
Proof.
  intros c r w message.
  split; [vm_compute; reflexivity|].
  pose proof (null_message_aborts_pass sample_uuid sample_digest sample_number sample_platform
                [(message, w)] [] JNull w r c eq_refl) as H.
  cbv zeta in H.
  destruct (forwardLoop sample_uuid sample_digest sample_number sample_platform
              [(message, w)] [] r c) as [[r1 c1] pass] eqn:E.
  assert (Hp : pass <> Waiting).
  { vm_compute in E. injection E as _ _ <-. discriminate. }
  destruct (H Hp) as [_ Hf]. rewrite Hf. reflexivity.
Defined.

(** An action that is none of the four. *)
Lemma cron_failures_are_reported_witness :
  let action := JObj [("_id", JStr "a1"); ("jobId", JStr "job-1");
                      ("action", JStr "pause")] in
  fst (cronTurn action (mkCronWorld None "" None None))
  = [CompleteAction (JStr "a1") "error" (Some "Unknown cron action: pause") true].
Proof.
  intros action.
  destruct (cron_failures_are_reported action (mkCronWorld None "" None None) [] eq_refl)
    as (Hunknown & _).
  exact (Hunknown eq_refl).
Defined.
